(** * The node e2e runner (test/e2e_node/runner/run_e2e.go)

    A shallow embedding of the remote test orchestrator: the archive that is
    built once ([Archive], [getArchive], [deleteArchive]), the provisioning of
    GCE instances ([createInstance], [deleteInstance]), the execution against
    one target ([testHost], [testImage]) and the fan-out / fan-in of [main].

    The Go code talks to collaborators that are not part of the file (the GCE
    compute API, ssh, the archive builder of package e2e_node, the file
    system).  Each such call is a constructor of [Call]; a program is a tree
    of calls ([Prog]); the collaborators are an arbitrary function of the
    history of calls so far ([Env]).  Goroutines are threads of a pool that a
    schedule interleaves call by call. *)

From Stdlib Require Import String Ascii List ZArith Lia Bool Arith.
From stdpp Require Import base gmap strings.
Import ListNotations.

Open Scope string_scope.
Open Scope list_scope.
Open Scope nat_scope.

(** ** Data model *)

(** Go's [error] values.  [nil] is [None] of [option error].  One constructor
    per [fmt.Errorf] of the file; [ErrExternal] stands for the errors that the
    collaborators hand back. *)
Inductive error : Type :=
| ErrExternal (msg : string)
| ErrCreateOp (name opError : string)
    (* "could not create instance %s: %+v" *)
| ErrNotRunning (name status : string)
    (* "instance %s not in state RUNNING, was %s." *)
| ErrDockerCommand (name output : string)
    (* "instance %s not running docker daemon - Command failed: %s" *)
| ErrDockerServer (name output : string)
    (* "instance %s not running docker daemon - Server not found: %s" *)
| ErrArchive (e : error)
    (* "unable to create test archive %v." *)
| ErrCreateInstance (image : string) (e : error).
    (* "unable to create gce instance with running docker daemon for image %s.  %v" *)

(** type Archive struct { sync.Once; path string; err error } *)
Module Archive.
Record t : Type := mk
  { done : bool;          (* the state of the embedded sync.Once *)
    path : string;
    err : option error }.
End Archive.

(** type TestResult struct *)
Record TestResult : Type := mkTestResult
  { output : string;
    err : option error;
    host : string;
    exitOk : bool }.

(** type GCEImage struct *)
Record GCEImage : Type := mkGCEImage
  { Image : string;
    Project : string }.

(** The parts of compute.Instance that the runner reads or writes. *)
Record AccessConfig : Type := mkAccessConfig
  { ac_Type : string;
    ac_Name : string;
    NatIP : string }.

Record NetworkInterface : Type := mkNetworkInterface
  { AccessConfigs : list AccessConfig }.

Record AttachedDisk : Type := mkAttachedDisk
  { AutoDelete : bool;
    Boot : bool;
    disk_Type : string;
    SourceImage : string   (* InitializeParams.SourceImage *) }.

Record MetadataItems : Type := mkMetadataItems
  { Key : string;
    Value : string }.

Record Instance : Type := mkInstance
  { Name : string;
    MachineType : string;
    Status : string;
    NetworkInterfaces : list NetworkInterface;
    Disks : list AttachedDisk;
    Metadata : option (list MetadataItems) }.

(** compute.Operation: only its Error field is read; [%+v] of it is kept as
    the string it prints. *)
Record Operation : Type := mkOperation
  { op_Error : option string }.

Inductive HttpClient : Type := http_client (id : nat).
Inductive ComputeService : Type := compute_service (id : nat).

(** The command line flags, after flag.Parse and the defaulting of
    instance-name-prefix in [main]. *)
Record Flags : Type := mkFlags
  { testArgs : string;
    instanceNamePrefix : string;
    zone : string;
    project : string;
    hosts : string;
    cleanup : bool;
    deleteInstances : bool;
    setupNode : bool;
    instanceMetadata : string;
    useColor : bool   (* stdout is a character device *) }.

(** What the runner prints and logs. *)
Inductive Msg : Type :=
| MsgInitImage (shortName : string)
| MsgInitHost (host : string)
| MsgSeparator (blue noColour : string)
| MsgFailure (host output : string) (e : error)
| MsgSuccess (host output : string)
| MsgFailureCount (errCount : nat)
| MsgNoComputeService (e : option error)
| MsgErrorDeleting (name : string)
| MsgInvalidMetadata (s : string)
| MsgMetadataFile (file : string) (e : error).

(** ** Pure helpers *)

(** strings.Split(s, sep) for a one-byte separator: the pieces between the
    separators, [n+1] of them for [n] separators. *)
Fixpoint Split (s : string) (sep : ascii) : list string :=
  match s with
  | EmptyString => [EmptyString]
  | String c s' =>
      if Ascii.eqb c sep then EmptyString :: Split s' sep
      else match Split s' sep with
           | [] => [String c EmptyString]
           | piece :: rest => String c piece :: rest
           end
  end.

(** strings.Contains(s, substr) *)
Fixpoint Contains (s substr : string) : bool :=
  String.prefix substr s ||
  match s with
  | EmptyString => false
  | String _ s' => Contains s' substr
  end.

(** func getExternalIp(instance *compute.Instance) string *)
Fixpoint firstNatIP (acs : list AccessConfig) : option string :=
  match acs with
  | [] => None
  | ac :: acs' =>
      if 0 <? String.length (NatIP ac) then Some (NatIP ac) else firstNatIP acs'
  end.

Fixpoint getExternalIp_from (nis : list NetworkInterface) : string :=
  match nis with
  | [] => ""
  | ni :: nis' =>
      match firstNatIP (AccessConfigs ni) with
      | Some ip => ip
      | None => getExternalIp_from nis'
      end
  end.

Definition getExternalIp (instance : Instance) : string :=
  getExternalIp_from (NetworkInterfaces instance).

(** A Go map[string]string written key by key: a later write to the same key
    replaces the earlier one. *)
Fixpoint map_set (k v : string) (m : list (string * string)) : list (string * string) :=
  match m with
  | [] => [(k, v)]
  | (k', v') :: m' =>
      if String.eqb k k' then (k, v) :: m' else (k', v') :: map_set k v m'
  end.

(** ** Calls to collaborators *)

(** Every call that leaves the file, indexed by what it returns.  Go's
    [(value, error)] results are pairs. *)
Inductive Call : Type -> Type :=
| CreateTestArchive : Call (string * option error)
    (* e2e_node.CreateTestArchive() *)
| RunRemote (archive host : string) (deleteFiles : bool) (junitFileNum : nat)
    (setupNode : bool) (testArgs : string) : Call (string * bool * option error)
    (* e2e_node.RunRemote *)
| RunSshCommand (cmd : string) (args : list string) : Call (string * option error)
| AddHostnameIp (host ip : string) : Call unit
| GetHostnameOrIp (host : string) : Call string
| InstancesGet (project zone name : string) : Call (Instance * option error)
    (* computeService.Instances.Get(project, zone, name).Do() *)
| InstancesInsert (project zone : string) (i : Instance) : Call (Operation * option error)
| InstancesDelete (project zone name : string) : Call (option error)
| DefaultClient : Call (HttpClient * option error)
    (* google.DefaultClient(oauth2.NoContext, compute.ComputeScope) *)
| ComputeNew (client : HttpClient) : Call (ComputeService * option error)
| Sleep (seconds : nat) : Call unit
| OsRemove (path : string) : Call unit
    (* os.Remove(path), its error dropped *)
| ReadFile (file : string) : Call (string * option error)
| Printf (m : Msg) : Call unit
| Glog (m : Msg) : Call unit.

(** One entry of the history: a call and what it returned. *)
Inductive Event : Type :=
| Called {R : Type} (c : Call R) (r : R).

(** The collaborators: what a call returns, given everything that happened
    before it (most recent event first). *)
Definition Env : Type := forall R : Type, list Event -> Call R -> R.

(** ** Programs *)

(** The three function literals that [main] starts with a [go] statement. *)
Inductive Task : Type :=
| TaskGetArchive
    (* go arc.getArchive() *)
| TaskImage (image imageProject : string) (junitFileNum : nat)
    (* go func(...) { results <- testImage(image, imageProject, junitFileNum) }(...) *)
| TaskHost (host : string) (junitFileNum : nat).
    (* go func(...) { results <- testHost(host, *cleanup, junitFileNum, *setupNode) }(...) *)

(** A program: a tree of the steps at which a goroutine touches anything
    outside itself.  Every loop of the file is bounded, so the trees are
    well-founded. *)
Inductive Prog (A : Type) : Type :=
| Ret (a : A)
| Exit (code : Z)
    (* os.Exit(code): the process ends, no deferred call runs *)
| Ext {R : Type} (c : Call R) (k : R -> Prog A)
| OnceDo (k : Prog A)
    (* arc.Do(func() { arc.path, arc.err = e2e_node.CreateTestArchive() }) *)
| ArcRead (k : string * option error -> Prog A)
    (* arc.path, arc.err *)
| Go (t : Task) (k : Prog A)
| Send (tr : TestResult) (k : Prog A)
    (* results <- tr *)
| Recv (k : TestResult -> Prog A).
    (* <-results *)

Arguments Ret {A} a.
Arguments Exit {A} code.
Arguments Ext {A R} c k.
Arguments OnceDo {A} k.
Arguments ArcRead {A} k.
Arguments Go {A} t k.
Arguments Send {A} tr k.
Arguments Recv {A} k.

Fixpoint bind {A B : Type} (p : Prog A) (f : A -> Prog B) : Prog B :=
  match p with
  | Ret a => f a
  | Exit code => Exit code
  | Ext c k => Ext c (fun r => bind (k r) f)
  | OnceDo k => OnceDo (bind k f)
  | ArcRead k => ArcRead (fun r => bind (k r) f)
  | Go t k => Go t (bind k f)
  | Send tr k => Send tr (bind k f)
  | Recv k => Recv (fun tr => bind (k tr) f)
  end.

#[export] Instance Prog_ret : MRet Prog := @Ret.
#[export] Instance Prog_bind : MBind Prog := fun A B f p => bind p f.

Definition call {R : Type} (c : Call R) : Prog R := Ext c Ret.

(** [defer d] around a function body: [d] runs when the body returns, and
    does not run when the body ends the process. *)
Definition defer {A : Type} (d : Prog unit) (body : Prog A) : Prog A :=
  a ← body; d;; Ret a.

(** glog.Fatalf: log, then os.Exit(255). *)
Definition glog_Fatalf {A : Type} (m : Msg) : Prog A :=
  call (Glog m);; Exit 255%Z.

(** ** The state of the process and of its surroundings *)

Record World : Type := mkWorld
  { trace : list Event;        (* the calls made so far, most recent first *)
    arc : Archive.t;           (* var arc Archive *)
    files : gset string        (* the paths that exist *) }.

(** Modelled from the spec: e2e_node.CreateTestArchive is not among the
    sources.  The Bundle Builder "produces the test artifact path": a call
    that returns no error leaves the artifact at the path it returns. *)
Definition archive_written (r : string * option error) (fs : gset string) : gset string :=
  match snd r with
  | None => {[ fst r ]} ∪ fs
  | Some _ => fs
  end.

(** What a call does to the file system: os.Remove deletes the path, the
    archive builder writes the archive. *)
Definition fs_effect {R : Type} (c : Call R) : R -> gset string -> gset string :=
  match c in Call R return R -> gset string -> gset string with
  | OsRemove p => fun _ fs => fs ∖ {[ p ]}
  | CreateTestArchive => archive_written
  | _ => fun _ fs => fs
  end.

Definition record {R : Type} (c : Call R) (r : R) (w : World) : World :=
  {| trace := Called c r :: trace w;
     arc := arc w;
     files := fs_effect c r (files w) |}.

Definition initial_arc : Archive.t :=
  {| Archive.done := false; Archive.path := ""; Archive.err := None |}.

Definition initial_world (fs : gset string) : World :=
  {| trace := []; arc := initial_arc; files := fs |}.

Section Semantics.

Variable env : Env.

(** sync.Once.Do with the function literal of [getArchive]: the first call
    builds the archive and stores the result, every later call does
    nothing.  Once.Do runs its callers one at a time, so the whole of it is
    one step. *)
Definition once_do (w : World) : World :=
  if Archive.done (arc w) then w
  else
    let r := env _ (trace w) CreateTestArchive in
    let w' := record CreateTestArchive r w in
    {| trace := trace w';
       arc := {| Archive.done := true; Archive.path := fst r; Archive.err := snd r |};
       files := files w' |}.

Inductive Outcome (A : Type) : Type :=
| Returned (a : A)
| Exited (code : Z)
| Parked (p : Prog A).   (* at a go statement or a channel operation *)

Arguments Returned {A} a.
Arguments Exited {A} code.
Arguments Parked {A} p.

(** One goroutine running on its own. *)
Fixpoint run {A : Type} (p : Prog A) (w : World) : Outcome A * World :=
  match p with
  | Ret a => (Returned a, w)
  | Exit code => (Exited code, w)
  | Ext c k => let r := env _ (trace w) c in run (k r) (record c r w)
  | OnceDo k => run k (once_do w)
  | ArcRead k => run (k (Archive.path (arc w), Archive.err (arc w))) w
  | Go _ _ | Send _ _ | Recv _ => (Parked p, w)
  end.

End Semantics.

Arguments Returned {A} a.
Arguments Exited {A} code.
Arguments Parked {A} p.

(** ** The functions of run_e2e.go *)

Section Runner.

(** strings.ToUpper follows Unicode; it is taken as given. *)
Variable ToUpper : string -> string.

(** The flag variables. *)
Variable fl : Flags.

(** func (a *Archive) getArchive() (string, error) *)
Definition getArchive : Prog (string * option error) :=
  OnceDo (ArcRead Ret).

(** func (a *Archive) deleteArchive() *)
Definition deleteArchive : Prog unit :=
  '(path, err) ← getArchive;
  match err with
  | Some _ => Ret tt
  | None => call (OsRemove path)
  end.

(** func imageToInstanceName(image string) string *)
Definition imageToInstanceName (image : string) : string :=
  instanceNamePrefix fl +:+ "-" +:+ image.

(** func sourceImage(image, imageProject string) string *)
Definition sourceImage (image imageProject : string) : string :=
  "projects/" +:+ imageProject +:+ "/global/images/" +:+ image.

(** func machineType() string *)
Definition machineType : string :=
  "zones/" +:+ zone fl +:+ "/machineTypes/n1-standard-1".

(** func parseInstanceMetadata(str string) map[string]string: the loop over
    the comma separated entries. *)
Fixpoint parseInstanceMetadata_entries (ss : list string)
    (metadata : list (string * string)) : Prog (list (string * string)) :=
  match ss with
  | [] => Ret metadata
  | s :: ss' =>
      match Split s "=" with
      | [k; v] => parseInstanceMetadata_entries ss' (map_set k v metadata)
      | _ =>
          match Split s "<" with
          | [k; p] =>
              '(v, err) ← call (ReadFile p);
              match err with
              | Some e =>
                  call (Glog (MsgMetadataFile p e));;
                  parseInstanceMetadata_entries ss' metadata
              | None => parseInstanceMetadata_entries ss' (map_set k v metadata)
              end
          | _ =>
              call (Glog (MsgInvalidMetadata s));;
              parseInstanceMetadata_entries ss' metadata
          end
      end
  end.

Definition parseInstanceMetadata (str : string) : Prog (list (string * string)) :=
  parseInstanceMetadata_entries (Split str ",") [].

(** func deleteInstance(image string) *)
Definition deleteInstance (image : string) : Prog unit :=
  err ← call (InstancesDelete (project fl) (zone fl) (imageToInstanceName image));
  match err with
  | Some _ => call (Glog (MsgErrorDeleting (imageToInstanceName image)))
  | None => Ret tt
  end.

(** The body of the polling loop of [createInstance].  It yields the values
    of [instanceRunning] and [err] with which the iteration ends; every
    [continue] leaves the body with [instanceRunning] still false. *)
Definition createInstance_attempt (name : string) (i : nat) : Prog (bool * option error) :=
  (if 0 <? i then call (Sleep 20) else Ret tt);;
  '(instance, err) ← call (InstancesGet (project fl) (zone fl) name);
  match err with
  | Some _ => Ret (false, err)
  | None =>
      if negb (String.eqb (ToUpper (Status instance)) "RUNNING") then
        Ret (false, Some (ErrNotRunning name (Status instance)))
      else
        let externalIp := getExternalIp instance in
        (if 0 <? String.length externalIp
         then call (AddHostnameIp name externalIp) else Ret tt);;
        target ← call (GetHostnameOrIp name);
        '(output, err) ←
          call (RunSshCommand "ssh" [target; "--"; "sudo"; "docker"; "version"]);
        match err with
        | Some _ => Ret (false, Some (ErrDockerCommand name output))
        | None =>
            if negb (Contains output "Server") then
              Ret (false, Some (ErrDockerServer name output))
            else Ret (true, err)
        end
  end.

(** [for i := 0; i < 30 && !instanceRunning; i++ { ... }], with
    [fuel = 30 - i]; it yields [err] as the loop leaves it. *)
Fixpoint createInstance_poll (name : string) (fuel i : nat)
    (instanceRunning : bool) (err : option error) : Prog (option error) :=
  match fuel with
  | 0 => Ret err
  | S fuel' =>
      if instanceRunning then Ret err
      else
        '(instanceRunning, err) ← createInstance_attempt name i;
        createInstance_poll name fuel' (S i) instanceRunning err
  end.

(** func createInstance(image, imageProject string) (string, error) *)
Definition createInstance (image imageProject : string) : Prog (string * option error) :=
  let name := imageToInstanceName image in
  let i :=
    {| Name := name;
       MachineType := machineType;
       Status := "";
       NetworkInterfaces :=
         [ {| AccessConfigs :=
                [ {| ac_Type := "ONE_TO_ONE_NAT"; ac_Name := "External NAT"; NatIP := "" |} ] |} ];
       Disks :=
         [ {| AutoDelete := true; Boot := true; disk_Type := "PERSISTENT";
              SourceImage := sourceImage image imageProject |} ];
       Metadata := None |} in
  i ← (if negb (String.eqb (instanceMetadata fl) "") then
         raw ← parseInstanceMetadata (instanceMetadata fl);
         Ret {| Name := Name i; MachineType := MachineType i; Status := Status i;
                NetworkInterfaces := NetworkInterfaces i; Disks := Disks i;
                Metadata := Some (map (fun kv => {| Key := fst kv; Value := snd kv |}) raw) |}
       else Ret i);
  '(op, err) ← call (InstancesInsert (project fl) (zone fl) i);
  match err with
  | Some _ => Ret ("", err)
  | None =>
      match op_Error op with
      | Some opError => Ret ("", Some (ErrCreateOp name opError))
      | None =>
          err ← createInstance_poll name 30 0 false err;
          Ret (name, err)
      end
  end.

(** func testHost(host string, deleteFiles bool, junitFileNum int, setupNode bool) *TestResult *)
Definition testHost (host : string) (deleteFiles : bool) (junitFileNum : nat)
    (setupNode : bool) : Prog TestResult :=
  '(instance, err) ← call (InstancesGet (project fl) (zone fl) host);
  match err with
  | Some _ =>
      Ret {| output := ""; err := err; host := host; exitOk := false |}
  | None =>
      if negb (String.eqb (ToUpper (Status instance)) "RUNNING") then
        Ret {| output := "";
               err := Some (ErrNotRunning host (Status instance));
               host := host;
               exitOk := false |}
      else
        let externalIp := getExternalIp instance in
        (if 0 <? String.length externalIp
         then call (AddHostnameIp host externalIp) else Ret tt);;
        '(path, err) ← getArchive;
        match err with
        | Some e =>
            Ret {| output := ""; err := Some (ErrArchive e); host := ""; exitOk := false |}
        | None =>
            '(output, exitOk, err) ←
              call (RunRemote path host deleteFiles junitFileNum setupNode (testArgs fl));
            Ret {| output := output; err := err; host := host; exitOk := exitOk |}
        end
  end.

(** func testImage(image, imageProject string, junitFileNum int) *TestResult *)
Definition testImage (image imageProject : string) (junitFileNum : nat) : Prog TestResult :=
  '(host, err) ← createInstance image imageProject;
  defer (if deleteInstances fl then deleteInstance image else Ret tt)
    (match err with
     | Some e =>
         Ret {| output := ""; err := Some (ErrCreateInstance image e);
                host := ""; exitOk := false |}
     | None =>
         let deleteFiles := negb (deleteInstances fl) && cleanup fl in
         testHost host deleteFiles junitFileNum (setupNode fl)
     end).

(** func getComputeClient(): it returns a *compute.Service and an error.  The retry loop,
    [for i := 0; i < retries; i++] with [fuel = retries - i]. *)
Definition retries : nat := 10.
Definition backoff : nat := 6.

Fixpoint getComputeClient_try (fuel i : nat) (err : option error)
    : Prog (option ComputeService * option error) :=
  match fuel with
  | 0 => Ret (None, err)
  | S fuel' =>
      (if 0 <? i then call (Sleep backoff) else Ret tt);;
      '(client, err) ← call DefaultClient;
      match err with
      | Some _ => getComputeClient_try fuel' (S i) err
      | None =>
          '(cs, err) ← call (ComputeNew client);
          match err with
          | Some _ => getComputeClient_try fuel' (S i) err
          | None => Ret (Some cs, None)
          end
      end
  end.

Definition getComputeClient : Prog (option ComputeService * option error) :=
  getComputeClient_try retries 0 None.

(** The body of each goroutine that [main] starts. *)
Definition task_body (t : Task) : Prog unit :=
  match t with
  | TaskGetArchive => getArchive;; Ret tt
  | TaskImage image imageProject junitFileNum =>
      tr ← testImage image imageProject junitFileNum;
      Send tr (Ret tt)
  | TaskHost host junitFileNum =>
      tr ← testHost host (cleanup fl) junitFileNum (setupNode fl);
      Send tr (Ret tt)
  end.

(** [main] from the point where the flags are parsed and checked and the
    image map is filled (run_e2e.go, line 162 to the end).  The map
    [gceImages.Images] is given as the list of its entries in the order in
    which this run ranges over it. *)

(** for shortName, image := range gceImages.Images *)
Fixpoint main_images (images : list (string * GCEImage)) (running : nat) : Prog nat :=
  match images with
  | [] => Ret running
  | (shortName, image) :: images' =>
      let running := S running in
      call (Printf (MsgInitImage shortName));;
      Go (TaskImage (Image image) (Project image) running)
        (main_images images' running)
  end.

(** for _, host := range strings.Split( *hosts, "," ) *)
Fixpoint main_hosts (hs : list string) (running : nat) : Prog nat :=
  match hs with
  | [] => Ret running
  | host :: hs' =>
      call (Printf (MsgInitHost host));;
      let running := S running in
      Go (TaskHost host running) (main_hosts hs' running)
  end.

Definition blue : string :=
  if useColor fl then String (ascii_of_nat 27) "[0;34m" else "".
Definition noColour : string :=
  if useColor fl then String (ascii_of_nat 27) "[0m" else "".

(** [for i := 0; i < running; i++ { tr := <-results ... }] with
    [fuel = running - i]. *)
Fixpoint main_collect (fuel errCount : nat) (exitOk_ : bool) : Prog (nat * bool) :=
  match fuel with
  | 0 => Ret (errCount, exitOk_)
  | S fuel' =>
      tr ← Recv Ret;
      call (Printf (MsgSeparator blue noColour));;
      errCount ← match err tr with
                 | Some e =>
                     call (Printf (MsgFailure (host tr) (output tr) e));;
                     Ret (S errCount)
                 | None =>
                     call (Printf (MsgSuccess (host tr) (output tr)));;
                     Ret errCount
                 end;
      let exitOk_ := exitOk_ && exitOk tr in
      call (Printf (MsgSeparator blue noColour));;
      main_collect fuel' errCount exitOk_
  end.

(** The targets of a run: one per image, one per host. *)
Definition host_list : list string :=
  if String.eqb (hosts fl) "" then [] else Split (hosts fl) ",".

Definition main (images : list (string * GCEImage)) : Prog unit :=
  Go TaskGetArchive
    (defer deleteArchive
       ('(cs, err) ← getComputeClient;
        match err with
        | Some _ => glog_Fatalf (MsgNoComputeService err)
        | None =>
            running ← main_images images 0;
            running ← (if negb (String.eqb (hosts fl) "")
                       then main_hosts (Split (hosts fl) ",") running
                       else Ret running);
            '(errCount, exitOk_) ← main_collect running 0 true;
            if negb exitOk_ then
              call (Printf (MsgFailureCount errCount));;
              Exit 1%Z
            else Ret tt
        end)).

(** The Go runtime ends the process with status 0 when [main] returns. *)
Definition process (images : list (string * GCEImage)) : Prog unit :=
  main images;; Exit 0%Z.

End Runner.

(** ** Goroutines *)

Section Pool.

Variable env : Env.
Context {A : Type}.

(** What a [go] statement starts. *)
Variable spawn : Task -> Prog A.

Record Pool : Type := mkPool
  { threads : list (Prog A);           (* thread 0 is the one that was booted *)
    world : World;
    exited : option Z;                 (* the exit status, once the process has ended *)
    received : list TestResult         (* what went over [results], in order *) }.

(** The first goroutine that waits in [<-results]. *)
Fixpoint find_receiver (ts : list (Prog A)) (i : nat)
    : option (nat * (TestResult -> Prog A)) :=
  match ts with
  | [] => None
  | Recv k :: _ => Some (i, k)
  | _ :: ts' => find_receiver ts' (S i)
  end.

(** Thread [tid] does its next step.  A thread that cannot move (it has
    returned, it waits on the channel, or the process is over) leaves the
    pool as it is.  [results] is unbuffered: a send happens together with a
    receive. *)
Definition step (st : Pool) (tid : nat) : Pool :=
  match exited st with
  | Some _ => st
  | None =>
      let ts := threads st in
      let w := world st in
      match ts !! tid with
      | None => st
      | Some p =>
          match p with
          | Ret _ => st
          | Exit code =>
              {| threads := ts; world := w; exited := Some code; received := received st |}
          | Ext c k =>
              let r := env _ (trace w) c in
              {| threads := <[tid := k r]> ts; world := record c r w;
                 exited := None; received := received st |}
          | OnceDo k =>
              {| threads := <[tid := k]> ts; world := once_do env w;
                 exited := None; received := received st |}
          | ArcRead k =>
              {| threads := <[tid := k (Archive.path (arc w), Archive.err (arc w))]> ts;
                 world := w; exited := None; received := received st |}
          | Go t k =>
              {| threads := <[tid := k]> ts ++ [spawn t]; world := w;
                 exited := None; received := received st |}
          | Send tr k =>
              match find_receiver ts 0 with
              | Some (j, kr) =>
                  {| threads := <[j := kr tr]> (<[tid := k]> ts); world := w;
                     exited := None; received := received st ++ [tr] |}
              | None => st
              end
          | Recv _ => st
          end
      end
  end.

(** A schedule names the thread that moves at each step. *)
Definition exec (sched : list nat) (st : Pool) : Pool :=
  fold_left step sched st.

Definition boot (p : Prog A) (fs : gset string) : Pool :=
  {| threads := [p]; world := initial_world fs; exited := None; received := [] |}.

End Pool.

Arguments Pool A : clear implicits.

(** ** Reading the history *)

Definition count (f : Event -> bool) (tr : list Event) : nat :=
  length (List.filter f tr).

Definition is_build (e : Event) : bool :=
  match e with Called c _ => match c with CreateTestArchive => true | _ => false end end.

Definition is_get (e : Event) : bool :=
  match e with Called c _ => match c with InstancesGet _ _ _ => true | _ => false end end.

Definition is_probe (e : Event) : bool :=
  match e with Called c _ => match c with RunSshCommand _ _ => true | _ => false end end.

Definition is_sleep (e : Event) : bool :=
  match e with Called c _ => match c with Sleep _ => true | _ => false end end.

Definition is_delete (e : Event) : bool :=
  match e with Called c _ => match c with InstancesDelete _ _ _ => true | _ => false end end.

Definition is_remove (e : Event) : bool :=
  match e with Called c _ => match c with OsRemove _ => true | _ => false end end.

Definition is_run_remote (e : Event) : bool :=
  match e with Called c _ => match c with RunRemote _ _ _ _ _ _ => true | _ => false end end.

(** A pause of exactly [n] seconds, or not a pause at all. *)
Definition sleeps_for (n : nat) (e : Event) : bool :=
  match e with Called c _ => match c with Sleep m => Nat.eqb m n | _ => true end end.

(** A status poll that came back without error and with status RUNNING. *)
Definition reports_running (ToUpper : string -> string) (r : Instance * option error) : bool :=
  match snd r with
  | Some _ => false
  | None => String.eqb (ToUpper (Status (fst r))) "RUNNING"
  end.

(** The answer to [docker version] that passes the check: no error and the
    word Server in the output. *)
Definition probe_passes (r : string * option error) : bool :=
  match snd r with
  | Some _ => false
  | None => Contains (fst r) "Server"
  end.

Definition is_passing_probe (e : Event) : bool :=
  match e with
  | Called c r =>
      match c in Call R return R -> bool with
      | RunSshCommand _ _ => probe_passes
      | _ => fun _ => false
      end r
  end.

Definition is_running_poll (ToUpper : string -> string) (e : Event) : bool :=
  match e with
  | Called c r =>
      match c in Call R return R -> bool with
      | InstancesGet _ _ _ => reports_running ToUpper
      | _ => fun _ => false
      end r
  end.

(** Polls and pauses as a history shows them, most recent first and [true]
    for a poll: [pairs n] is [n] times a poll that follows a pause, and
    [paced n] is [n] polls with a pause before each but the first. *)
Fixpoint pairs (n : nat) : list bool :=
  match n with
  | 0 => []
  | S n' => true :: false :: pairs n'
  end.

Definition paced (n : nat) : list bool :=
  match n with
  | 0 => []
  | S n' => pairs n' ++ [true]
  end.

(** The polls and pauses of a history, [true] for a poll. *)
Definition pacing (tr : list Event) : list bool :=
  map is_get (List.filter (fun e => is_get e || is_sleep e) tr).

(** The world after the calls [new], none of which touches the archive or a
    file. *)
Definition logged (new : list Event) (w : World) : World :=
  {| trace := new ++ trace w; arc := arc w; files := files w |}.

(** The calls of the polling loop. *)
Definition is_polling (e : Event) : bool :=
  match e with
  | Called c _ =>
      match c with
      | Sleep _ | InstancesGet _ _ _ | AddHostnameIp _ _ | GetHostnameOrIp _
      | RunSshCommand _ _ => true
      | _ => false
      end
  end.

(** The calls of [parseInstanceMetadata]. *)
Definition is_metadata_io (e : Event) : bool :=
  match e with
  | Called c _ => match c with ReadFile _ | Glog _ => true | _ => false end
  end.

(** The calls of [createInstance] before it polls. *)
Definition is_setup (e : Event) : bool :=
  match e with
  | Called c _ =>
      match c with
      | ReadFile _ | Glog _ | InstancesInsert _ _ _ => true
      | _ => false
      end
  end.

(** The calls of a target before its instance is deleted. *)
Definition is_target_call (e : Event) : bool :=
  is_polling e || is_setup e || is_build e || is_run_remote e.

(** An insert that the compute API took: no error, and no error in the
    operation it returned. *)
Definition insert_accepted (r : Operation * option error) : bool :=
  match snd r, op_Error (fst r) with
  | None, None => true
  | _, _ => false
  end.

Definition is_accepted_insert (e : Event) : bool :=
  match e with
  | Called c r =>
      match c in Call R return R -> bool with
      | InstancesInsert _ _ _ => insert_accepted
      | _ => fun _ => false
      end r
  end.

(** ** What a program can do *)

(** A program that neither ends the process nor receives from [results]:
    the goroutines that [main] starts are of this kind. *)
Fixpoint quiet {A : Type} (p : Prog A) : Prop :=
  match p with
  | Ret _ => True
  | Exit _ => False
  | Ext _ k => forall r, quiet (k r)
  | OnceDo k => quiet k
  | ArcRead k => forall r, quiet (k r)
  | Go _ k => quiet k
  | Send _ k => quiet k
  | Recv _ => False
  end.

(** A program that, besides, starts no goroutine and sends nothing: the
    functions below [main]. *)
Fixpoint local {A : Type} (p : Prog A) : Prop :=
  match p with
  | Ret _ => True
  | Ext _ k => forall r, local (k r)
  | OnceDo k => local k
  | ArcRead k => forall r, local (k r)
  | Exit _ | Go _ _ | Send _ _ | Recv _ => False
  end.

(** A program all of whose calls are of the kind [ok]; building the archive
    through [OnceDo] counts as a call of CreateTestArchive. *)
Fixpoint confined {A : Type} (ok : Event -> bool) (p : Prog A) : Prop :=
  match p with
  | Ret _ | Exit _ => True
  | Ext c k => (forall r, ok (Called c r) = true) /\ (forall r, confined ok (k r))
  | OnceDo k => (forall r, ok (Called CreateTestArchive r) = true) /\ confined ok k
  | ArcRead k => forall r, confined ok (k r)
  | Go _ k | Send _ k => confined ok k
  | Recv k => forall tr, confined ok (k tr)
  end.

(** [reach p l evs q]: [q] is what is left of [p] after it received the
    results [l] (in this order) and made the calls [evs] (most recent
    first), whatever the calls returned. *)
Fixpoint reach {A : Type} (p : Prog A) (l : list TestResult) (evs : list Event)
    (q : Prog A) : Prop :=
  (p = q /\ l = [] /\ evs = []) \/
  match p with
  | Ret _ | Exit _ => False
  | Ext c k => exists r evs', evs = evs' ++ [Called c r] /\ reach (k r) l evs' q
  | OnceDo k => reach k l evs q
  | ArcRead k => exists r, reach (k r) l evs q
  | Go _ k | Send _ k => reach k l evs q
  | Recv k => exists tr l', l = tr :: l' /\ reach (k tr) l' evs q
  end.

(** Two sets of collaborators that answer alike all calls of the kind [ok]. *)
Definition agree_on (ok : Event -> bool) (env1 env2 : Env) : Prop :=
  forall (R : Type) (tr : list Event) (c : Call R),
    ok (Called c (env1 R tr c)) = true -> env1 R tr c = env2 R tr c.

(** The results of the archive constructions in a history. *)
Fixpoint build_results (tr : list Event) : list (string * option error) :=
  match tr with
  | [] => []
  | Called c r :: tr' =>
      match c in Call R return R -> list (string * option error) with
      | CreateTestArchive => fun r => r :: build_results tr'
      | _ => fun _ => build_results tr'
      end r
  end.

(** The archive variable and the history tell the same story: no
    construction before the Once has run, and afterwards exactly the one
    whose result the variable holds. *)
Definition arc_consistent (w : World) : Prop :=
  build_results (trace w) =
  if Archive.done (arc w) then [(Archive.path (arc w), Archive.err (arc w))] else [].

(** A goroutine that calls [getArchive] [m] times in a row and keeps what
    every call returned. *)
Fixpoint caller (m : nat) (seen : list (string * option error))
    : Prog (list (string * option error)) :=
  match m with
  | 0 => Ret seen
  | S m' => r ← getArchive; caller m' (r :: seen)
  end.

(** What RunRemote returned, if the event is a call of it. *)
Definition remote_result (e : Event) : option (string * bool * option error) :=
  match e with
  | Called c r =>
      match c in Call R return R -> option (string * bool * option error) with
      | RunRemote _ _ _ _ _ _ => Some
      | _ => fun _ => None
      end r
  end.

(** ** Specifications *)

(** What one pass through the polling loop leaves behind: [b] and [err] are
    [instanceRunning] and [err] at its end, [new] the calls it made. *)
Record attempt_facts (ToUpper : string -> string) (i : nat) (b : bool)
    (err : option error) (new : list Event) : Prop :=
  { af_get : count is_get new = 1;
    af_pacing : pacing new = if 0 <? i then [true; false] else [true];
    af_sleep : forallb (sleeps_for 20) new = true;
    af_probe : count is_probe new <= 1;
    af_err : b = true <-> err = None;
    af_pass : b = existsb is_passing_probe new;
    af_head : b = true -> exists e rest, new = e :: rest /\ is_passing_probe e = true;
    af_running : count is_probe new = 1 ->
                 exists g, List.find is_get new = Some g /\ is_running_poll ToUpper g = true;
    af_polling : forallb is_polling new = true }.

(** The same for the whole loop, entered with [fuel] passes left, at pass
    [i] and with [err0] in [err]. *)
Record poll_facts (ToUpper : string -> string) (fuel i : nat)
    (err0 err : option error) (new : list Event) : Prop :=
  { pf_budget : count is_get new <= fuel;
    pf_pacing : pacing new =
                if 0 <? i then pairs (count is_get new) else paced (count is_get new);
    pf_sleep : forallb (sleeps_for 20) new = true;
    pf_probe : count is_probe new <= count is_get new;
    pf_verified : 0 < fuel -> (err = None <-> existsb is_passing_probe new = true);
    pf_exhausted : err <> None -> 0 < fuel -> count is_get new = fuel;
    pf_success : 0 < fuel -> err = None ->
                 (exists e rest, new = e :: rest /\ is_passing_probe e = true) /\
                 (exists g, List.find is_get new = Some g /\ is_running_poll ToUpper g = true);
    pf_polling : forallb is_polling new = true;
    pf_zero : fuel = 0 -> err = err0 /\ new = [] }.

(** And for [createInstance], which returns [name] and [err]. *)
Record create_facts (ToUpper : string -> string) (fl : Flags) (image name : string)
    (err : option error) (new : list Event) : Prop :=
  { cf_budget : count is_get new <= 30;
    cf_pacing : pacing new = paced (count is_get new);
    cf_sleep : forallb (sleeps_for 20) new = true;
    cf_probe : count is_probe new <= count is_get new;
    cf_rejected : existsb is_accepted_insert new = false ->
                  err <> None /\ count is_get new = 0 /\ name = "";
    cf_exhausted : existsb is_accepted_insert new = true -> err <> None ->
                   count is_get new = 30;
    cf_verified : err = None <-> existsb is_passing_probe new = true;
    cf_success : err = None ->
                 (exists e rest, new = e :: rest /\ is_passing_probe e = true) /\
                 (exists g, List.find is_get new = Some g /\ is_running_poll ToUpper g = true);
    cf_name : existsb is_accepted_insert new = true -> name = imageToInstanceName fl image;
    cf_calls : forallb (fun e => is_polling e || is_setup e) new = true }.

(** [triple I Post PostX p]: whatever [p] has received and called so far
    satisfies [I]; if [p] has returned [a], [Post a] holds, and if it is about
    to end the process with status [c], [PostX c] holds. *)
Definition triple {A : Type}
    (I : list TestResult -> list Event -> Prop)
    (Post : A -> list TestResult -> list Event -> Prop)
    (PostX : Z -> list TestResult -> list Event -> Prop)
    (p : Prog A) : Prop :=
  forall l evs q, reach p l evs q ->
    I l evs /\ (forall a, q = Ret a -> Post a l evs) /\ (forall c, q = Exit c -> PostX c l evs).

(** A goroutine besides the booted one: it is quiet and makes no call of
    the kind [f]. *)
Definition worker {A : Type} (f : Event -> bool) (p : Prog A) : Prop :=
  quiet p /\ confined (fun e => negb (f e)) p.

(** What holds of a pool that was booted with [main], with respect to a kind
    of calls [f] that only [main] makes: the first thread is what is left of
    [main] after the results that went over the channel, the other threads
    are workers, an exit status is the one the first thread asked for, and
    the calls of kind [f] in the history are those of the first thread. *)
Definition pool_inv {A : Type} (f : Event -> bool) (main : Prog A) (st : Pool A) : Prop :=
  exists p0 rest evs,
    threads st = p0 :: rest /\
    reach main (received st) evs p0 /\
    Forall (worker f) rest /\
    (forall c, exited st = Some c -> p0 = Exit c) /\
    List.filter f (trace (world st)) = List.filter f evs.

Definition not_remove (e : Event) : bool := negb (is_remove e).

(** The number of results that carry an error: [errCount]. *)
Definition errors (l : list TestResult) : nat :=
  length (List.filter (fun tr => match err tr with Some _ => true | None => false end) l).

(** How the process can end, after the results [l] and the calls [e] of
    [main], for [K] targets: before any target is started, when no compute
    client could be made (glog.Fatalf, status 255); with status 1 after [K]
    results of which one is not exitOk; with status 0 after [K] results that
    are all exitOk.  In the first two cases [main] has not called os.Remove. *)
Definition verdict (K : nat) (c : Z) (l : list TestResult) (e : list Event) : Prop :=
  (c = 255%Z /\ l = [] /\ forallb not_remove e = true) \/
  (c = 1%Z /\ length l = K /\ forallb exitOk l = false /\ forallb not_remove e = true) \/
  (c = 0%Z /\ length l = K /\ forallb exitOk l = true).

(** What the deferred deleteInstance adds to the history when the delete
    call returns [r]. *)
Definition deletion (fl : Flags) (image : string) (r : option error) : list Event :=
  let name := imageToInstanceName fl image in
  match r with
  | Some _ => [Called (Glog (MsgErrorDeleting name)) tt;
               Called (InstancesDelete (project fl) (zone fl) name) r]
  | None => [Called (InstancesDelete (project fl) (zone fl) name) r]
  end.

(** How a result reads against the calls [new] of its target: if the test
    command was never run, the result has an error and is not exitOk; if it
    was run, the result is what RunRemote returned, as it returned it. *)
Definition result_relayed (tr : TestResult) (new : list Event) : Prop :=
  match List.find is_run_remote new with
  | None => exitOk tr = false /\ err tr <> None
  | Some e => remote_result e = Some (output tr, exitOk tr, err tr)
  end.

(** The scenario of the spec: the insert is taken, the first two status polls
    of the instance do not report RUNNING, the third does, and docker
    answers the probe as it should. *)
Definition third_poll_scenario (env : Env) (ToUpper : string -> string) (fl : Flags)
    (image : string) (w : World) : Prop :=
  let get := InstancesGet (project fl) (zone fl) (imageToInstanceName fl image) in
  let n0 := count is_get (trace w) in
  (forall tr i, insert_accepted (env _ tr (InstancesInsert (project fl) (zone fl) i)) = true) /\
  (forall tr, count is_get tr < n0 + 2 -> reports_running ToUpper (env _ tr get) = false) /\
  (forall tr, count is_get tr = n0 + 2 -> reports_running ToUpper (env _ tr get) = true) /\
  (forall tr cmd args, probe_passes (env _ tr (RunSshCommand cmd args)) = true).

(** A pool of goroutines that do nothing but call [getArchive]: goroutine
    [i] calls it [ms !! i] times. *)
Definition callers_pool (ms : list nat) (fs : gset string)
    : Pool (list (string * option error)) :=
  {| threads := map (fun m => caller m []) ms;
     world := initial_world fs;
     exited := None;
     received := [] |}.

(** Where a caller of [m] calls stands after [k] of its steps: it has
    [seen] the results of the calls it completed, and may be in the middle
    of the next call, between the Once and the reading of the result. *)
Definition caller_at (w : World) (m k : nat) (p : Prog (list (string * option error))) : Prop :=
  exists (mid : bool) (seen : list (string * option error)),
    2 * length seen + (if mid then 1 else 0) = k /\
    length seen + (if mid then 1 else 0) <= m /\
    p = (if mid
         then ArcRead (fun r => caller (m - length seen - 1) (r :: seen))
         else caller (m - length seen) seen) /\
    (mid = true -> Archive.done (arc w) = true) /\
    (forall r, In r seen ->
       Archive.done (arc w) = true /\ r = (Archive.path (arc w), Archive.err (arc w))).

(** What holds of the pool of callers after the schedule [sched]. *)
Definition callers_inv (ms : list nat) (sched : list nat)
    (st : Pool (list (string * option error))) : Prop :=
  arc_consistent (world st) /\
  exited st = None /\
  length (threads st) = length ms /\
  forall i m, ms !! i = Some m ->
    exists p, threads st !! i = Some p /\
              caller_at (world st) m (Nat.min (2 * m) (count_occ Nat.eq_dec sched i)) p.

(** The archive that was built is still there, unless os.Remove was called. *)
Definition archive_kept (w : World) : Prop :=
  Archive.done (arc w) = true -> Archive.err (arc w) = None ->
  Archive.path (arc w) ∈ files w \/ 0 < count is_remove (trace w).

(** The number of targets: one per image, one per host. *)
Definition targets (fl : Flags) (images : list (string * GCEImage)) : nat :=
  length images + length (host_list fl).


(** A scenario with failing probes: the insert is taken, every status poll
    of the instance reports RUNNING, and docker answers the probe as it
    should from the [j+1]-th probe on, and not before. *)
Definition failed_probes_scenario (env : Env) (ToUpper : string -> string) (fl : Flags)
    (image : string) (w : World) (j : nat) : Prop :=
  let get := InstancesGet (project fl) (zone fl) (imageToInstanceName fl image) in
  let n0 := count is_probe (trace w) in
  (forall tr i, insert_accepted (env _ tr (InstancesInsert (project fl) (zone fl) i)) = true) /\
  (forall tr, reports_running ToUpper (env _ tr get) = true) /\
  (forall tr cmd args,
     probe_passes (env _ tr (RunSshCommand cmd args)) = (n0 + j <=? count is_probe tr)).

(** ** The compute client *)

Definition is_default_client (e : Event) : bool :=
  match e with Called c _ => match c with DefaultClient => true | _ => false end end.

Definition is_compute_new (e : Event) : bool :=
  match e with Called c _ => match c with ComputeNew _ => true | _ => false end end.

(** An attempt to make the compute client: only [main] makes any. *)
Definition is_client_attempt (e : Event) : bool :=
  is_default_client e || is_compute_new e.

(** A call of compute.New that returned a service. *)
Definition makes_service (e : Event) : bool :=
  match e with
  | Called c r =>
      match c in Call R return R -> bool with
      | ComputeNew _ => fun r => match snd r with None => true | Some _ => false end
      | _ => fun _ => false
      end r
  end.

(** What a history tells about the compute client: [client_failed] when
    google.DefaultClient was tried [retries] times and compute.New never
    returned a service, [client_made] when compute.New returned one. *)
Definition client_failed (tr : list Event) : Prop :=
  existsb makes_service tr = false /\ count is_default_client tr = retries.

Definition client_made (tr : list Event) : Prop :=
  existsb makes_service tr = true.

(** A program that ends the process only with a status that satisfies [P]. *)
Fixpoint exits_with {A : Type} (P : Z -> Prop) (p : Prog A) : Prop :=
  match p with
  | Ret _ => True
  | Exit c => P c
  | Ext _ k => forall r, exits_with P (k r)
  | OnceDo k => exits_with P k
  | ArcRead k => forall r, exits_with P (k r)
  | Go _ k | Send _ k => exits_with P k
  | Recv k => forall tr, exits_with P (k tr)
  end.

(** How the process ends, as to the compute client: with status 255 when
    no client could be made, with another status when one was made. *)
Definition client_verdict (c : Z) (e : list Event) : Prop :=
  (c = 255%Z /\ client_failed e) \/ (c <> 255%Z /\ client_made e).

(** The calls that are no attempt to make the compute client. *)
Definition not_client (e : Event) : bool := negb (is_client_attempt e).

(** ** Tests are run from a built archive only *)

Definition is_none {X : Type} (o : option X) : bool :=
  match o with None => true | Some _ => false end.

Definition calls_RunRemote {R : Type} (c : Call R) : bool :=
  match c with RunRemote _ _ _ _ _ _ => true | _ => false end.

(** The calls other than RunRemote. *)
Definition not_remote (e : Event) : bool := negb (is_run_remote e).

(** What a goroutine knows: [once] when it has gone through the Once of the
    archive, [ok] when it has since read the archive without error, [ran]
    when it has called RunRemote. *)
Record Knows : Type := mkKnows { kn_once : bool; kn_ok : bool; kn_ran : bool }.

(** [careful p kn Q]: [p], started knowing [kn], calls RunRemote only after
    it has read an archive without error from behind the Once, and sends a
    result that is exitOk, or has no error, only after it has called
    RunRemote; if it returns [a] knowing [kn'], then [Q a kn']. *)
Fixpoint careful {A : Type} (p : Prog A) (kn : Knows) (Q : A -> Knows -> Prop) : Prop :=
  match p with
  | Ret a => Q a kn
  | Exit _ => True
  | Ext c k =>
      (calls_RunRemote c = true -> kn_ok kn = true) /\
      forall r, careful (k r)
                  {| kn_once := kn_once kn; kn_ok := kn_ok kn;
                     kn_ran := kn_ran kn || calls_RunRemote c |} Q
  | OnceDo k => careful k {| kn_once := true; kn_ok := kn_ok kn; kn_ran := kn_ran kn |} Q
  | ArcRead k =>
      forall r, careful (k r)
                  {| kn_once := kn_once kn;
                     kn_ok := kn_ok kn || (kn_once kn && is_none (snd r));
                     kn_ran := kn_ran kn |} Q
  | Go _ k => careful k kn Q
  | Send tr k => (kn_ran kn = false -> exitOk tr = false /\ err tr <> None) /\
                 careful k kn Q
  | Recv k => forall tr, careful (k tr) kn Q
  end.

(** What a goroutine knows is true of the world. *)
Definition knows_true (w : World) (kn : Knows) : Prop :=
  (kn_once kn = true -> Archive.done (arc w) = true) /\
  (kn_ok kn = true -> Archive.done (arc w) = true /\ Archive.err (arc w) = None) /\
  (kn_ran kn = true -> 0 < count is_run_remote (trace w)).

(** A result that RunRemote did not report: it has an error and is not
    exitOk. *)
Definition not_run (tr : TestResult) : Prop := exitOk tr = false /\ err tr <> None.

(** What holds of the pool of [main] at any time: every goroutine is
    careful, RunRemote was called only with the archive built, and a result
    that went over the channel before any call of RunRemote is a failure. *)
Definition careful_pool {A : Type} (st : Pool A) : Prop :=
  (exists kns,
     Forall2 (fun kn p => careful p kn (fun _ _ => True) /\ knows_true (world st) kn)
       kns (threads st)) /\
  (0 < count is_run_remote (trace (world st)) ->
   Archive.done (arc (world st)) = true /\ Archive.err (arc (world st)) = None) /\
  (count is_run_remote (trace (world st)) = 0 -> Forall not_run (received st)).

(** ** Progress *)

Section Progress.
Variable env : Env.
Context {A : Type}.
Variable spawn : Task -> Prog A.

(** Whether goroutine [tid] can move: it has not returned, the process has
    not ended, and it does not wait on the channel, for a send in vain (no
    goroutine receives) or for a receive. *)
Definition enabled (st : Pool A) (tid : nat) : bool :=
  match exited st with
  | Some _ => false
  | None =>
      match threads st !! tid with
      | None => false
      | Some p =>
          match p with
          | Ret _ | Recv _ => false
          | Send _ _ =>
              match find_receiver (threads st) 0 with Some _ => true | None => false end
          | _ => true
          end
      end
  end.

(** A schedule that names only goroutines that can move, as the scheduler
    of the Go runtime does. *)
Fixpoint productive (sched : list nat) (st : Pool A) : bool :=
  match sched with
  | [] => true
  | tid :: sched' => enabled st tid && productive sched' (step env spawn st tid)
  end.

End Progress.

(** [within W n p]: [p] takes at most [n] steps, a [go] statement counting
    for one step and the [W] steps of the goroutine that it starts. *)
Fixpoint within {A : Type} (W n : nat) (p : Prog A) : Prop :=
  match p with
  | Ret _ => True
  | Exit _ => 0 < n
  | Ext _ k => 0 < n /\ forall r, within W (n - 1) (k r)
  | OnceDo k => 0 < n /\ within W (n - 1) k
  | ArcRead k => 0 < n /\ forall r, within W (n - 1) (k r)
  | Go _ k => W < n /\ within W (n - 1 - W) k
  | Send _ k => 0 < n /\ within W (n - 1) k
  | Recv k => 0 < n /\ forall tr, within W (n - 1) (k tr)
  end.

(** The steps left in a pool are at most [m]. *)
Definition measured {A : Type} (W m : nat) (st : Pool A) : Prop :=
  exists ns, Forall2 (within W) ns (threads st) /\ sum_list ns <= m.

(** A goroutine that has a result to send: it does, after calls of its own,
    and neither returns nor ends the process before. *)
Fixpoint sender {A : Type} (p : Prog A) : Prop :=
  match p with
  | Ext _ k => forall r, sender (k r)
  | OnceDo k => sender k
  | ArcRead k => forall r, sender (k r)
  | Send _ k => local k
  | Ret _ | Exit _ | Go _ _ | Recv _ => False
  end.

(** The goroutines that send a result. *)
Definition sends (t : Task) : bool :=
  match t with TaskGetArchive => false | _ => true end.

(** [owes p d Q]: [p] never waits for more results than are still to be
    sent, when [d] goroutines have a result to send; if it returns [a] with
    [d'] results outstanding, then [Q a d']. *)
Fixpoint owes {A : Type} (p : Prog A) (d : nat) (Q : A -> nat -> Prop) : Prop :=
  match p with
  | Ret a => Q a d
  | Exit _ => True
  | Ext _ k => forall r, owes (k r) d Q
  | OnceDo k => owes k d Q
  | ArcRead k => forall r, owes (k r) d Q
  | Go t k => owes k (d + (if sends t then 1 else 0)) Q
  | Send _ _ => False
  | Recv k => 0 < d /\ forall tr, owes (k tr) (d - 1) Q
  end.

(** The pool of [main]: the booted goroutine ends the process (it never
    returns) and waits for a result only when another goroutine has one to
    send. *)
Definition balanced {A : Type} (st : Pool A) : Prop :=
  exists p0 rest (flags : list bool),
    threads st = p0 :: rest /\
    Forall2 (fun (b : bool) p => if b then sender p else local p) flags rest /\
    owes p0 (length (List.filter id flags)) (fun _ _ => False).

(** The steps of a target's goroutine, of [main], and of the process. *)
Definition target_steps (fl : Flags) : nat :=
  2 * length (Split (instanceMetadata fl) ",") + 160.

Definition step_budget (fl : Flags) (images : list (string * GCEImage)) : nat :=
  (targets fl images + 1) * (target_steps fl + 6) + 40.

(** A program that returns only values that satisfy [P]. *)
Fixpoint returns {A : Type} (P : A -> Prop) (p : Prog A) : Prop :=
  match p with
  | Ret a => P a
  | Exit _ => True
  | Ext _ k => forall r, returns P (k r)
  | OnceDo k => returns P k
  | ArcRead k => forall r, returns P (k r)
  | Go _ k | Send _ k => returns P k
  | Recv k => forall tr, returns P (k tr)
  end.

(** * The rest of run_e2e.go *)

(** ** Reading the history, continued *)

Definition is_insert (e : Event) : bool :=
  match e with Called c _ => match c with InstancesInsert _ _ _ => true | _ => false end end.



(** The calls of [getComputeClient]. *)
Definition is_client_call (e : Event) : bool :=
  is_default_client e || is_compute_new e || is_sleep e.

(** The NAT addresses of an instance, in the order in which
    [getExternalIp] looks at them. *)
Definition natIPs (instance : Instance) : list string :=
  map NatIP (flat_map AccessConfigs (NetworkInterfaces instance)).

Definition nonempty (s : string) : bool := 0 <? String.length s.

(** The error of an attempt to make the compute client, if the event is
    one: google.DefaultClient or compute.New. *)
Definition client_error (e : Event) : option error :=
  match e with
  | Called c r =>
      match c in Call R return R -> option error with
      | DefaultClient => snd
      | ComputeNew _ => snd
      | _ => fun _ => None
      end r
  end.

(** What the retry loop of [getComputeClient] leaves behind when it is
    entered with [fuel] passes left, at pass [i] and with [err0] in [err]:
    it returns [cs] and [err] after the calls [new]. *)
Record client_facts (fuel i : nat) (err0 : option error)
    (cs : option ComputeService) (err : option error) (new : list Event) : Prop :=
  { clf_budget : count is_default_client new <= fuel;
    clf_new : count is_compute_new new <= count is_default_client new;
    clf_sleeps : count is_sleep new + (if (0 <? i) || (fuel =? 0) then 0 else 1)
                 = count is_default_client new;
    clf_backoff : forallb (sleeps_for backoff) new = true;
    clf_calls : forallb is_client_call new = true;
    clf_zero : fuel = 0 -> cs = None /\ err = err0 /\ new = [];
    clf_either : 0 < fuel -> (cs = None <-> err <> None);
    clf_exhausted : 0 < fuel -> cs = None ->
                    count is_default_client new = fuel /\
                    existsb makes_service new = false /\
                    exists e rest, new = e :: rest /\ client_error e = err;
    clf_service : forall s, cs = Some s ->
                  exists client rest,
                    new = Called (ComputeNew client) (s, None)
                          :: Called DefaultClient (client, None) :: rest /\
                    existsb makes_service rest = false }.

(** ** The syntax of --instance-metadata *)

(** The byte [c] does not occur in [s]. *)
Fixpoint free_of (c : ascii) (s : string) : bool :=
  match s with
  | EmptyString => true
  | String c' s' => negb (Ascii.eqb c' c) && free_of c s'
  end.

(** strings.Join(ss, sep) for a one-byte separator. *)
Fixpoint Join (ss : list string) (sep : ascii) : string :=
  match ss with
  | [] => ""
  | s :: ss' =>
      match ss' with
      | [] => s
      | _ :: _ => s +:+ String sep (Join ss' sep)
      end
  end.

(** The entries that the help text of the flag describes: "'k=v' means the
    key is 'k' and the value is 'v'; 'k<p' means the key is 'k' and the
    value is extracted from the local path 'p', e.g. k1=v1,k2<p2". *)
Inductive MetadataEntry : Type :=
| KeyValue (k v : string)
| KeyPath (k p : string).

Definition entry_text (e : MetadataEntry) : string :=
  match e with
  | KeyValue k v => k +:+ String "=" v
  | KeyPath k p => k +:+ String "<" p
  end.

(** An entry that reads back as it was written: no comma and no equals sign
    in it, and for a path entry no less-than sign either (an entry with one
    equals sign is a key and a value, whatever else it holds). *)
Definition entry_ok (e : MetadataEntry) : bool :=
  match e with
  | KeyValue k v =>
      free_of "," k && free_of "=" k && free_of "," v && free_of "=" v
  | KeyPath k p =>
      free_of "," k && free_of "=" k && free_of "<" k &&
      free_of "," p && free_of "=" p && free_of "<" p
  end.

Definition metadata_flag (es : list MetadataEntry) : string :=
  Join (map entry_text es) ",".

(** What the entries mean, one after the other: a value is stored under its
    key; a path is read, and its contents are stored under the key unless
    the read fails, which is logged. *)
Fixpoint metadata_of (env : Env) (es : list MetadataEntry) (m : list (string * string))
    (w : World) : list (string * string) * World :=
  match es with
  | [] => (m, w)
  | KeyValue k v :: es' => metadata_of env es' (map_set k v m) w
  | KeyPath k p :: es' =>
      let r := env _ (trace w) (ReadFile p) in
      let w1 := record (ReadFile p) r w in
      match snd r with
      | None => metadata_of env es' (map_set k (fst r) m) w1
      | Some e => metadata_of env es' m (record (Glog (MsgMetadataFile p e)) tt w1)
      end
  end.

(** Looking a key up in a Go map[string]string. *)
Fixpoint map_get (k : string) (m : list (string * string)) : option string :=
  match m with
  | [] => None
  | (k', v) :: m' => if String.eqb k k' then Some v else map_get k m'
  end.

(** ** Sample surroundings *)

(** strings.ToUpper on ASCII. *)
Definition upper_ascii (c : ascii) : ascii :=
  let n := nat_of_ascii c in
  if (97 <=? n) && (n <=? 122) then ascii_of_nat (n - 32) else c.

Fixpoint upper (s : string) : string :=
  match s with
  | EmptyString => EmptyString
  | String c s' => String (upper_ascii c) (upper s')
  end.

Definition instance_with_status (name status : string) : Instance :=
  {| Name := name; MachineType := ""; Status := status;
     NetworkInterfaces :=
       [ {| AccessConfigs :=
              [ {| ac_Type := "ONE_TO_ONE_NAT"; ac_Name := "External NAT";
                   NatIP := "203.0.113.7" |} ] |} ];
     Disks := []; Metadata := None |}.

(** Collaborators with which everything goes well. *)
Definition answer {R : Type} (c : Call R) : R :=
  match c in Call R return R with
  | CreateTestArchive => ("/tmp/e2e_node_test.tar.gz", None)
  | RunRemote _ _ _ _ _ _ => ("PASS", true, None)
  | RunSshCommand _ _ => ("Client: 1.9.1 Server: 1.9.1", None)
  | AddHostnameIp _ _ => tt
  | GetHostnameOrIp host => host
  | InstancesGet _ _ name => (instance_with_status name "RUNNING", None)
  | InstancesInsert _ _ _ => ({| op_Error := None |}, None)
  | InstancesDelete _ _ _ => None
  | DefaultClient => (http_client 0, None)
  | ComputeNew _ => (compute_service 0, None)
  | Sleep _ => tt
  | OsRemove _ => tt
  | ReadFile _ => ("", None)
  | Printf _ => tt
  | Glog _ => tt
  end.

Definition env_pass : Env := fun R _ c => answer c.

(** The tests fail on host "h2" and pass elsewhere. *)
Definition env_h2_fails : Env :=
  fun R _ c =>
    match c in Call R return R -> R with
    | RunRemote _ host _ _ _ _ =>
        fun r => if String.eqb host "h2" then ("FAIL", false, None) else r
    | _ => fun r => r
    end (answer c).

(** No host can be reached. *)
Definition env_unreachable : Env :=
  fun R _ c =>
    match c in Call R return R -> R with
    | RunRemote _ _ _ _ _ _ =>
        fun _ => ("", false, Some (ErrExternal "ssh: connect to host: no route to host"))
    | _ => fun r => r
    end (answer c).

(** The archive cannot be built. *)
Definition env_build_fails : Env :=
  fun R _ c =>
    match c in Call R return R -> R with
    | CreateTestArchive => fun _ => ("", Some (ErrExternal "failed to build go packages"))
    | _ => fun r => r
    end (answer c).

(** The instance is RUNNING from the third status poll on. *)
Definition env_third_poll : Env :=
  fun R tr c =>
    match c in Call R return R -> R with
    | InstancesGet _ _ name =>
        fun r => if count is_get tr <? 2
                 then (instance_with_status name "PROVISIONING", None) else r
    | _ => fun r => r
    end (answer c).

(** The instance never gets to RUNNING. *)
Definition env_never_running : Env :=
  fun R _ c =>
    match c in Call R return R -> R with
    | InstancesGet _ _ name => fun _ => (instance_with_status name "STAGING", None)
    | _ => fun r => r
    end (answer c).

(** The instance cannot be deleted. *)
Definition env_delete_fails : Env :=
  fun R _ c =>
    match c in Call R return R -> R with
    | InstancesDelete _ _ _ => fun _ => Some (ErrExternal "rate limit exceeded")
    | _ => fun r => r
    end (answer c).

(** The instance is RUNNING at once, but docker answers only the third
    probe. *)
Definition env_two_probes_fail : Env :=
  fun R tr c =>
    match c in Call R return R -> R with
    | RunSshCommand _ _ =>
        fun r => if count is_probe tr <? 2
                 then ("Cannot connect to the Docker daemon", Some (ErrExternal "exit status 1"))
                 else r
    | _ => fun r => r
    end (answer c).



Definition fl_hosts (hs : string) : Flags :=
  {| testArgs := ""; instanceNamePrefix := "tmp-node-e2e-0a1b2c3d"; zone := "us-central1-f";
     project := "k8s-jkns"; hosts := hs; cleanup := true; deleteInstances := true;
     setupNode := false; instanceMetadata := ""; useColor := false |}.


(** Each of the first [n] threads in turn, [rounds] times over. *)
Definition round_robin (n rounds : nat) : list nat :=
  concat (repeat (seq 0 n) rounds).

(** Two fixed hosts, the tests failing on the second: [main], the
    [getArchive] goroutine and one goroutine per host, scheduled in turn. *)
Definition two_hosts_run : Pool unit :=
  exec env_h2_fails (task_body upper (fl_hosts "h1,h2")) (round_robin 4 20)
    (boot (process (fl_hosts "h1,h2") []) ∅).

(** One fixed host, and an archive that cannot be built. *)
Definition build_fails_run : Pool unit :=
  exec env_build_fails (task_body upper (fl_hosts "h1")) (round_robin 3 20)
    (boot (process (fl_hosts "h1") []) ∅).



(** * Proofs *)

(** Automation *)

Ltac pick_new :=
  first [ eexists []; split; [reflexivity|]
        | eexists [_]; split; [reflexivity|]
        | eexists [_; _]; split; [reflexivity|]
        | eexists [_; _; _]; split; [reflexivity|]
        | eexists [_; _; _; _]; split; [reflexivity|]
        | eexists [_; _; _; _; _]; split; [reflexivity|] ].

Ltac by_kind :=
  let e := fresh in intros e; destruct e as [? [] ?]; cbv; congruence.

Section Provisioning.
Variable env : Env.
Variable ToUpper : string -> string.
Variable fl : Flags.

Lemma run_bind {A B : Type} (p : Prog A) (f : A -> Prog B) (w : World) :
  run env (bind p f) w =
  match run env p w with
  | (Returned a, w') => run env (f a) w'
  | (Exited code, w') => (Exited code, w')
  | (Parked q, w') => (Parked (bind q f), w')
  end.
Proof.
  revert w. induction p; intros w; simpl; auto.
Qed.

Lemma run_call {R : Type} (c : Call R) (w : World) :
  run env (call c) w = (Returned (env _ (trace w) c), record c (env _ (trace w) c) w).
Proof. reflexivity. Qed.

Lemma logged_nil w : logged [] w = w.
Proof. destruct w; reflexivity. Qed.

Lemma logged_app new1 new2 w : logged new2 (logged new1 w) = logged (new2 ++ new1) w.
Proof. unfold logged; simpl. by rewrite app_assoc. Qed.

Lemma attempt_spec name i w :
  exists b err new,
    run env (createInstance_attempt ToUpper fl name i) w = (Returned (b, err), logged new w)
    /\ attempt_facts ToUpper i b err new.
Proof.
  unfold createInstance_attempt, mbind, Prog_bind.
  rewrite !run_bind.
  destruct (0 <? i) eqn:Hi; simpl;
  match goal with |- context [env _ ?t (InstancesGet ?p ?z ?n)] =>
    destruct (env _ t (InstancesGet p z n)) as [inst [e|]] eqn:Hget end;
  try match goal with |- context [ToUpper _] =>
    destruct (ToUpper (Status inst) =? "RUNNING")%string eqn:Hrun; simpl;
    try (rewrite run_bind; destruct (0 <? String.length (getExternalIp inst)); simpl;
         match goal with |- context [env _ ?t (RunSshCommand ?c ?a)] =>
           destruct (env _ t (RunSshCommand c a)) as [out [e|]] eqn:Hssh end;
         try (destruct (Contains out "Server") eqn:Hsrv; simpl)) end.
  all: do 2 eexists; pick_new.
  all: split; simpl; rewrite ?Hi; try reflexivity; try lia; try (split; congruence); try congruence.
  all: unfold count, probe_passes, reports_running; simpl; rewrite ?Hsrv, ?Hrun; try reflexivity; try lia.
  all: intros; try discriminate; try lia.
  all: try (eexists; split; [reflexivity| simpl; unfold reports_running; simpl; rewrite ?Hrun; reflexivity]).
  all: try (do 2 eexists; split; [reflexivity | simpl; unfold probe_passes; simpl; rewrite Hsrv; reflexivity]).
Qed.

Lemma poll_running name fuel i err0 w :
  run env (createInstance_poll ToUpper fl name fuel i true err0) w = (Returned err0, w).
Proof. destruct fuel; reflexivity. Qed.

Lemma pairs_snoc n : pairs n ++ [true; false] = pairs (S n).
Proof. induction n; simpl; [reflexivity|]. rewrite IHn. reflexivity. Qed.

Lemma pacing_app l1 l2 : pacing (l1 ++ l2) = pacing l1 ++ pacing l2.
Proof. unfold pacing. by rewrite List.filter_app, map_app. Qed.

Lemma count_app f (l1 l2 : list Event) : count f (l1 ++ l2) = count f l1 + count f l2.
Proof. unfold count. by rewrite List.filter_app, length_app. Qed.

Lemma find_app {X} f (l1 l2 : list X) :
  List.find f (l1 ++ l2) = match List.find f l1 with Some x => Some x | None => List.find f l2 end.
Proof. induction l1; simpl; [reflexivity|]. destruct (f a); auto. Qed.

Lemma passing_is_probe e : is_passing_probe e = true -> is_probe e = true.
Proof. destruct e as [R c r]; destruct c; simpl; congruence. Qed.

Lemma poll_spec name fuel : forall i err0 w,
  exists err new,
    run env (createInstance_poll ToUpper fl name fuel i false err0) w = (Returned err, logged new w)
    /\ poll_facts ToUpper fuel i err0 err new.
Proof.
  induction fuel as [|fuel IH]; intros i err0 w.
  - exists err0, []. rewrite logged_nil. split; [reflexivity|].
    split; simpl; auto; try lia. destruct (0 <? i); reflexivity.
  - cbn [createInstance_poll]. unfold mbind, Prog_bind. rewrite run_bind.
    destruct (attempt_spec name i w) as (b & e1 & new1 & Hrun & F1). rewrite Hrun.
    destruct F1. destruct b.
    + rewrite poll_running. exists e1, new1. split; [reflexivity|].
      assert (e1 = None) as -> by (apply af_err0; reflexivity).
      split.
      * lia.
      * rewrite af_get0, af_pacing0. destruct (0 <? i); reflexivity.
      * assumption.
      * lia.
      * intros _. split; auto.
      * congruence.
      * intros _ _. split; [auto|]. apply af_running0.
        destruct (af_head0 eq_refl) as (e & rest & -> & He).
        apply passing_is_probe in He. unfold count in *. simpl in *. rewrite He in *. simpl in *. lia.
      * assumption.
      * discriminate.
    + destruct (IH (S i) e1 (logged new1 w)) as (err & new2 & Hrun2 & F2).
      rewrite Hrun2, logged_app. exists err, (new2 ++ new1). split; [reflexivity|].
      destruct F2.
      assert (e1 <> None) as Hne by (intros ->; destruct af_err0 as [_ H]; specialize (H eq_refl); discriminate).
      split.
      * rewrite count_app. lia.
      * rewrite pacing_app, count_app, pf_pacing0, af_pacing0, af_get0. simpl.
        replace (count is_get new2 + 1) with (S (count is_get new2)) by lia.
        destruct (0 <? i); [apply pairs_snoc | reflexivity].
      * rewrite forallb_app. rewrite pf_sleep0, af_sleep0. reflexivity.
      * rewrite !count_app. lia.
      * intros _. rewrite existsb_app, <- af_pass0, orb_false_r.
        destruct fuel as [|fuel'].
        -- destruct (pf_zero0 eq_refl) as [-> ->]. simpl. split; [congruence|discriminate].
        -- apply pf_verified0. lia.
      * intros Herr _. rewrite count_app, af_get0.
        destruct fuel as [|fuel'].
        -- destruct (pf_zero0 eq_refl) as [-> ->]. reflexivity.
        -- rewrite pf_exhausted0; [lia|assumption|lia].
      * intros _ Herr. destruct fuel as [|fuel'].
        -- destruct (pf_zero0 eq_refl) as [-> ->]. congruence.
        -- destruct (pf_success0 ltac:(lia) Herr) as [(e & rest & -> & He) (g & Hg & Hg')].
           split; [exists e, (rest ++ new1); split; [reflexivity|assumption]|].
           exists g. rewrite find_app, Hg. auto.
      * rewrite forallb_app, pf_polling0, af_polling0. reflexivity.
      * discriminate.
Qed.

Lemma filter_none (f P : Event -> bool) (l : list Event) :
  (forall e, P e = true -> f e = false) -> forallb P l = true -> List.filter f l = [].
Proof.
  intros Hd. induction l as [|e l IH]; simpl; [reflexivity|].
  intros [He Hl]%andb_true_iff. rewrite (Hd e He). auto.
Qed.

Lemma count_none (f P : Event -> bool) (l : list Event) :
  (forall e, P e = true -> f e = false) -> forallb P l = true -> count f l = 0.
Proof. intros Hd Hl. unfold count. by rewrite (filter_none f P l Hd Hl). Qed.

Lemma existsb_none (f P : Event -> bool) (l : list Event) :
  (forall e, P e = true -> f e = false) -> forallb P l = true -> existsb f l = false.
Proof.
  intros Hd. induction l as [|e l IH]; simpl; [reflexivity|].
  intros [He Hl]%andb_true_iff. rewrite (Hd e He). auto.
Qed.

Lemma forallb_weaken (P Q : Event -> bool) (l : list Event) :
  (forall e, P e = true -> Q e = true) -> forallb P l = true -> forallb Q l = true.
Proof.
  intros Hd. induction l as [|e l IH]; simpl; [reflexivity|].
  intros [He Hl]%andb_true_iff. rewrite (Hd e He). auto.
Qed.

Lemma pacing_none (P : Event -> bool) (l : list Event) :
  (forall e, P e = true -> is_get e || is_sleep e = false) -> forallb P l = true -> pacing l = [].
Proof. intros Hd Hl. unfold pacing. by rewrite (filter_none _ P l Hd Hl). Qed.

Lemma metadata_spec ss : forall md w,
  exists md' new,
    run env (parseInstanceMetadata_entries ss md) w = (Returned md', logged new w)
    /\ forallb is_metadata_io new = true.
Proof.
  induction ss as [|s ss IH]; intros md w.
  - exists md, []. by rewrite logged_nil.
  - cbn [parseInstanceMetadata_entries].
    assert (forall md0, exists md' new,
      run env (match Split s "<" with
               | [k; p] =>
                   '(v, err) ← call (ReadFile p);
                   match err with
                   | Some e => call (Glog (MsgMetadataFile p e));;
                               parseInstanceMetadata_entries ss md0
                   | None => parseInstanceMetadata_entries ss (map_set k v md0)
                   end
               | _ => call (Glog (MsgInvalidMetadata s));;
                      parseInstanceMetadata_entries ss md0
               end) w = (Returned md', logged new w) /\ forallb is_metadata_io new = true) as Hlt.
    { intros md0.
      assert (exists md' new, run env (call (Glog (MsgInvalidMetadata s));;
                      parseInstanceMetadata_entries ss md0) w = (Returned md', logged new w)
                /\ forallb is_metadata_io new = true) as Hinv.
      { unfold mbind, Prog_bind. rewrite run_bind. simpl.
        match goal with |- context [run env _ ?w1] =>
          destruct (IH md0 w1) as (md' & new & -> & Hs) end.
        exists md', (new ++ [Called (Glog (MsgInvalidMetadata s)) (env _ (trace w) (Glog (MsgInvalidMetadata s)))]).
        split; [unfold logged; simpl; by rewrite <- app_assoc|].
        rewrite forallb_app, Hs. reflexivity. }
      destruct (Split s "<") as [|k [|p [|]]]; try exact Hinv.
      unfold mbind, Prog_bind. rewrite run_bind. simpl.
      destruct (env _ (trace w) (ReadFile p)) as [v [e|]] eqn:Hrd; simpl.
      - match goal with |- context [run env _ ?w1] =>
          destruct (IH md0 w1) as (md' & new & -> & Hs) end.
        eexists md', (new ++ [_; _]).
        split; [unfold logged; simpl; rewrite <- app_assoc; reflexivity|].
        rewrite forallb_app, Hs. reflexivity.
      - match goal with |- context [run env ?p ?w1] =>
          destruct (IH (map_set k v md0) w1) as (md' & new & -> & Hs) end.
        eexists md', (new ++ [_]).
        split; [unfold logged; simpl; rewrite <- app_assoc; reflexivity|].
        rewrite forallb_app, Hs. reflexivity. }
    destruct (Split s "=") as [|k [|v [|]]]; try apply Hlt.
    apply IH.
Qed.

Lemma find_none (f P : Event -> bool) (l : list Event) :
  (forall e, P e = true -> f e = false) -> forallb P l = true -> List.find f l = None.
Proof.
  intros Hd. induction l as [|e l IH]; simpl; [reflexivity|].
  intros [He Hl]%andb_true_iff. rewrite (Hd e He). auto.
Qed.

Lemma create_rejected image e new :
  forallb is_setup new = true -> existsb is_accepted_insert new = false ->
  create_facts ToUpper fl image "" (Some e) new.
Proof.
  intros Hs Hrej.
  assert (count is_get new = 0) as Hg by (apply (count_none _ is_setup); [by_kind|assumption]).
  split; rewrite ?Hg; simpl.
  - lia.
  - apply (pacing_none is_setup); [by_kind|assumption].
  - apply (forallb_weaken is_setup); [by_kind|assumption].
  - rewrite (count_none _ is_setup); [lia|by_kind|assumption].
  - intros _. repeat split; congruence.
  - congruence.
  - rewrite (existsb_none _ is_setup); [|by_kind|assumption]. split; discriminate.
  - discriminate.
  - congruence.
  - apply (forallb_weaken is_setup); [|assumption]. intros ev ->. apply orb_true_r.
Qed.

Lemma create_polled image err newp rest :
  poll_facts ToUpper 30 0 None err newp ->
  forallb is_setup rest = true -> existsb is_accepted_insert rest = true ->
  create_facts ToUpper fl image (imageToInstanceName fl image) err (newp ++ rest).
Proof.
  intros [] Hs Hacc.
  assert (count is_get rest = 0) as Hg by (apply (count_none _ is_setup); [by_kind|assumption]).
  assert (existsb is_passing_probe rest = false) as Hp
    by (apply (existsb_none _ is_setup); [by_kind|assumption]).
  split; rewrite ?count_app, ?Hg, ?Nat.add_0_r.
  - assumption.
  - rewrite pacing_app, (pacing_none is_setup rest), app_nil_r; [assumption|by_kind|assumption].
  - rewrite forallb_app, pf_sleep0. apply (forallb_weaken is_setup); [by_kind|assumption].
  - rewrite (count_none is_probe is_setup rest); [lia|by_kind|assumption].
  - rewrite existsb_app, Hacc, orb_true_r. discriminate.
  - intros _ Herr. apply pf_exhausted0; [assumption|lia].
  - rewrite existsb_app, Hp, orb_false_r. apply pf_verified0. lia.
  - intros Herr. destruct (pf_success0 ltac:(lia) Herr) as [(e & r & -> & He) (g & Hg1 & Hg2)].
    split; [exists e, (r ++ rest); auto|].
    exists g. rewrite find_app, Hg1. auto.
  - reflexivity.
  - rewrite forallb_app. apply andb_true_iff. split.
    + apply (forallb_weaken is_polling); [|assumption]. intros ev ->. reflexivity.
    + apply (forallb_weaken is_setup); [|assumption]. intros ev ->. apply orb_true_r.
Qed.

Lemma createInstance_spec image imageProject w :
  exists name err new,
    run env (createInstance ToUpper fl image imageProject) w = (Returned (name, err), logged new w)
    /\ create_facts ToUpper fl image name err new.
Proof.
  unfold createInstance. unfold mbind at 1, Prog_bind at 1. rewrite run_bind.
  match goal with |- context [run env (if ?c then ?p else Ret ?i0) w] =>
    assert (exists i new0, run env (if c then p else Ret i0) w = (Returned i, logged new0 w)
                           /\ forallb is_metadata_io new0 = true) as (i & new0 & -> & Hs0) end.
  { destruct (negb _).
    - unfold mbind, Prog_bind. rewrite run_bind. unfold parseInstanceMetadata.
      destruct (metadata_spec (Split (instanceMetadata fl) ",") [] w) as (md & new0 & -> & Hs0).
      simpl. eauto.
    - eexists _, []. rewrite logged_nil. split; reflexivity. }
  unfold mbind, Prog_bind. rewrite run_bind. rewrite run_call.
  set (ins := InstancesInsert (project fl) (zone fl) i).
  assert (forallb is_setup new0 = true) as Hs1
    by (apply (forallb_weaken is_metadata_io); [by_kind|assumption]).
  assert (existsb is_accepted_insert new0 = false) as Hs2
    by (apply (existsb_none _ is_metadata_io); [by_kind|assumption]).
  destruct (env _ (trace (logged new0 w)) ins) as [op [e|]] eqn:Hins.
  - exists "", (Some e), (Called ins (op, Some e) :: new0). split; [reflexivity|].
    apply create_rejected; simpl; assumption.
  - destruct (op_Error op) as [oe|] eqn:Hop.
    + eexists "", (Some _), (Called ins (op, None) :: new0). split; [reflexivity|].
      apply create_rejected; simpl; [assumption|].
      unfold insert_accepted; simpl. rewrite Hop. assumption.
    + rewrite run_bind.
      match goal with |- context [run env (createInstance_poll _ _ ?n _ _ _ _) ?w1] =>
        destruct (poll_spec n 30 0 None w1) as (err & newp & -> & F) end.
      exists (imageToInstanceName fl image), err, (newp ++ Called ins (op, None) :: new0).
      split; [unfold logged; simpl; by rewrite <- app_assoc|].
      apply create_polled; simpl; [assumption|assumption|].
      unfold insert_accepted; simpl. rewrite Hop. reflexivity.
Qed.
End Provisioning.

Section Reach.
Context {A : Type}.
Implicit Types p q : Prog A.

Lemma reach_refl p : reach p [] [] p.
Proof. destruct p; left; auto. Qed.

Lemma reach_trans p : forall l evs q l' evs' q',
  reach p l evs q -> reach q l' evs' q' -> reach p (l ++ l') (evs' ++ evs) q'.
Proof.
  induction p as [a|c|R c k IH|k IH|k IH|t k IH|tr k IH|k IH]; intros l evs q l' evs' q' H1 H2.
  all: destruct H1 as [(-> & -> & ->)|H1]; [rewrite app_nil_r; exact H2|].
  all: simpl in H1; try contradiction; right.
  - destruct H1 as (r & evs0 & -> & H1). exists r, (evs' ++ evs0).
    split; [by rewrite app_assoc|]. eapply IH; eauto.
  - eapply IH; eauto.
  - destruct H1 as (r & H1). exists r. eapply IH; eauto.
  - eapply IH; eauto.
  - eapply IH; eauto.
  - destruct H1 as (tr & l0 & -> & H1). exists tr, (l0 ++ l'). split; [reflexivity|].
    eapply IH; eauto.
Qed.

Lemma reach_ext p l evs {R} (c : Call R) k r :
  reach p l evs (Ext c k) -> reach p l (Called c r :: evs) (k r).
Proof.
  intros H. rewrite <- (app_nil_r l). change (Called c r :: evs) with ([Called c r] ++ evs).
  eapply reach_trans; [exact H|]. right. exists r, []. split; [reflexivity|apply reach_refl].
Qed.

Lemma reach_once p l evs k : reach p l evs (OnceDo k) -> reach p l evs k.
Proof.
  intros H. rewrite <- (app_nil_r l). change evs with ([] ++ evs).
  eapply reach_trans; [exact H|]. right. apply reach_refl.
Qed.

Lemma reach_read p l evs k r : reach p l evs (ArcRead k) -> reach p l evs (k r).
Proof.
  intros H. rewrite <- (app_nil_r l). change evs with ([] ++ evs).
  eapply reach_trans; [exact H|]. right. exists r. apply reach_refl.
Qed.

Lemma reach_go p l evs t k : reach p l evs (Go t k) -> reach p l evs k.
Proof.
  intros H. rewrite <- (app_nil_r l). change evs with ([] ++ evs).
  eapply reach_trans; [exact H|]. right. apply reach_refl.
Qed.

Lemma reach_send p l evs tr k : reach p l evs (Send tr k) -> reach p l evs k.
Proof.
  intros H. rewrite <- (app_nil_r l). change evs with ([] ++ evs).
  eapply reach_trans; [exact H|]. right. apply reach_refl.
Qed.

Lemma reach_recv p l evs k tr : reach p l evs (Recv k) -> reach p (l ++ [tr]) evs (k tr).
Proof.
  intros H. change evs with ([] ++ evs).
  eapply reach_trans; [exact H|]. right. exists tr, []. split; [reflexivity|apply reach_refl].
Qed.

End Reach.

Section PoolInv.
Variable env : Env.
Context {A : Type}.
Variable spawn : Task -> Prog A.
Variable f : Event -> bool.
Variable main : Prog A.

Hypothesis spawn_worker : forall t, worker f (spawn t).
Hypothesis f_build : forall r, f (Called CreateTestArchive r) = false.

Lemma find_receiver_workers (rest : list (Prog A)) i : Forall (worker f) rest -> find_receiver rest i = None.
Proof.
  intros H. revert i. induction H as [|p rest [Hq _] _ IH]; intros i; simpl; [reflexivity|].
  destruct p; simpl in Hq; try contradiction; apply IH.
Qed.

Lemma filter_once w :
  List.filter f (trace (once_do env w)) = List.filter f (trace w).
Proof.
  unfold once_do. destruct (Archive.done (arc w)); [reflexivity|].
  simpl. rewrite f_build. reflexivity.
Qed.

Lemma pool_inv_boot fs : pool_inv f main (boot main fs).
Proof.
  exists main, [], []. simpl. repeat split; auto using reach_refl. discriminate.
Qed.

Lemma pool_inv_step st tid : pool_inv f main st -> pool_inv f main (step env spawn st tid).
Proof.
  intros (p0 & rest & evs & Hts & Hreach & Hrest & Hex & Htr).
  unfold step. destruct (exited st) as [c|] eqn:Hexited.
  { exists p0, rest, evs. rewrite Hexited. auto. }
  rewrite Hts. destruct tid as [|tid]; simpl.
  - (* the booted thread moves *)
    destruct p0 as [a|c|R c k|k|k|t k|tr k|k]; simpl.
    + exists (Ret a), rest, evs. rewrite Hexited. auto.
    + exists (Exit c), rest, evs. simpl. repeat split; auto. congruence.
    + eexists _, rest, (_ :: evs). simpl. repeat split; eauto using reach_ext; try discriminate.
      simpl. rewrite Htr. reflexivity.
    + exists k, rest, evs. simpl. repeat split; eauto using reach_once; try discriminate.
      rewrite filter_once. assumption.
    + eexists _, rest, evs. simpl. repeat split; eauto using reach_read; try discriminate.
    + exists k, (rest ++ [spawn t]), evs. simpl. repeat split; eauto using reach_go; try discriminate.
      apply Forall_app; split; auto.
    + rewrite (find_receiver_workers rest 1 Hrest).
      exists (Send tr k), rest, evs. rewrite Hexited. auto.
    + exists (Recv k), rest, evs. rewrite Hexited. auto.
  - (* a goroutine moves *)
    destruct (rest !! tid) as [p|] eqn:Hp; [|exists p0, rest, evs; rewrite Hexited; auto].
    assert (worker f p) as [Hq Hc] by (eapply Forall_lookup_1; eauto).
    destruct p as [a|c|R c k|k|k|t k|tr k|k]; simpl in Hq, Hc; try contradiction.
    + exists p0, rest, evs. rewrite Hexited. auto.
    + destruct Hc as [Hc1 Hc2].
      eexists p0, (<[tid := _]> rest), evs. simpl. repeat split; eauto; try discriminate.
      * apply Forall_insert; [assumption|]. split; auto.
      * specialize (Hc1 (env R (trace (world st)) c)). apply negb_true_iff in Hc1.
        rewrite Hc1. assumption.
    + destruct Hc as [Hc1 Hc2].
      eexists p0, (<[tid := _]> rest), evs. simpl. repeat split; eauto; try discriminate.
      * apply Forall_insert; [assumption|]. split; auto.
      * rewrite filter_once. assumption.
    + eexists p0, (<[tid := _]> rest), evs. simpl. repeat split; eauto; try discriminate.
      apply Forall_insert; [assumption|]. split; auto.
    + eexists p0, (<[tid := _]> rest ++ [spawn t]), evs. simpl. repeat split; eauto; try discriminate.
      apply Forall_app; split; [|auto]. apply Forall_insert; [assumption|]. split; auto.
    + destruct p0 as [a|c|R c k0|k0|k0|t k0|tr0 k0|k0]; simpl;
        rewrite ?(find_receiver_workers rest 1 Hrest);
        try (eexists _, rest, evs; repeat split; eauto; intros ?; rewrite Hexited; discriminate).
      eexists (k0 tr), (<[tid := k]> rest), evs. simpl. repeat split; eauto using reach_recv; try discriminate.
      apply Forall_insert; [assumption|]. split; auto.
Qed.

Lemma pool_inv_exec sched : forall st, pool_inv f main st -> pool_inv f main (exec env spawn sched st).
Proof.
  induction sched as [|tid sched IH]; intros st H; simpl; [assumption|].
  apply IH, pool_inv_step, H.
Qed.

End PoolInv.

Section Triples.
Context {A : Type}.
Implicit Types p : Prog A.

Lemma reach_bind_inv {B} p (f : A -> Prog B) : forall l evs q,
  reach (bind p f) l evs q ->
  (exists q', reach p l evs q' /\ q = bind q' f) \/
  (exists a l1 l2 e1 e2,
      reach p l1 e1 (Ret a) /\ reach (f a) l2 e2 q /\ l = l1 ++ l2 /\ evs = e2 ++ e1).
Proof.
  induction p as [a|c|R c k IH|k IH|k IH|t k IH|tr k IH|k IH]; intros l evs q H.
  - right. exists a, [], l, [], evs. rewrite app_nil_r. repeat split; auto. left; auto.
  - left. exists (Exit c). destruct H as [(<- & -> & ->)|[]]. split; [left; auto|reflexivity].
  - destruct H as [(<- & -> & ->)|(r & evs0 & -> & H)].
    + left. exists (Ext c k). split; [left; auto|reflexivity].
    + destruct (IH r _ _ _ H) as [(q' & Hq & ->)|(a & l1 & l2 & e1 & e2 & H1 & H2 & -> & ->)].
      * left. exists q'. split; [right; eauto|reflexivity].
      * right. exists a, l1, l2, (e1 ++ [Called c r]), e2. repeat split; auto.
        -- right. eauto.
        -- by rewrite app_assoc.
  - destruct H as [(<- & -> & ->)|H].
    + left. exists (OnceDo k). split; [left; auto|reflexivity].
    + destruct (IH _ _ _ H) as [(q' & Hq & ->)|(a & l1 & l2 & e1 & e2 & H1 & H2 & -> & ->)].
      * left. exists q'. split; [right; eauto|reflexivity].
      * right. exists a, l1, l2, e1, e2. repeat split; auto. right. auto.
  - destruct H as [(<- & -> & ->)|(r & H)].
    + left. exists (ArcRead k). split; [left; auto|reflexivity].
    + destruct (IH r _ _ _ H) as [(q' & Hq & ->)|(a & l1 & l2 & e1 & e2 & H1 & H2 & -> & ->)].
      * left. exists q'. split; [right; eauto|reflexivity].
      * right. exists a, l1, l2, e1, e2. repeat split; auto. right. eauto.
  - destruct H as [(<- & -> & ->)|H].
    + left. exists (Go t k). split; [left; auto|reflexivity].
    + destruct (IH _ _ _ H) as [(q' & Hq & ->)|(a & l1 & l2 & e1 & e2 & H1 & H2 & -> & ->)].
      * left. exists q'. split; [right; eauto|reflexivity].
      * right. exists a, l1, l2, e1, e2. repeat split; auto. right. auto.
  - destruct H as [(<- & -> & ->)|H].
    + left. exists (Send tr k). split; [left; auto|reflexivity].
    + destruct (IH _ _ _ H) as [(q' & Hq & ->)|(a & l1 & l2 & e1 & e2 & H1 & H2 & -> & ->)].
      * left. exists q'. split; [right; eauto|reflexivity].
      * right. exists a, l1, l2, e1, e2. repeat split; auto. right. auto.
  - destruct H as [(<- & -> & ->)|(tr & l0 & -> & H)].
    + left. exists (Recv k). split; [left; auto|reflexivity].
    + destruct (IH tr _ _ _ H) as [(q' & Hq & ->)|(a & l1 & l2 & e1 & e2 & H1 & H2 & -> & ->)].
      * left. exists q'. split; [right; eauto|reflexivity].
      * right. exists a, (tr :: l1), l2, e1, e2. repeat split; auto. right. eauto.
Qed.

Lemma bind_is_ret {B} p (f : A -> Prog B) b :
  bind p f = Ret b -> exists a, p = Ret a /\ f a = Ret b.
Proof. destruct p; simpl; try discriminate. eauto. Qed.

Lemma bind_is_exit {B} p (f : A -> Prog B) c :
  bind p f = Exit c -> p = Exit c \/ exists a, p = Ret a /\ f a = Exit c.
Proof.
  destruct p; simpl; try discriminate.
  - intros H. right. eauto.
  - intros [= ->]. left. reflexivity.
Qed.

Lemma triple_bind {B} I1 Post1 X1 (I2 : list TestResult -> list Event -> Prop) Post2 X2
    p (f : A -> Prog B) :
  triple I1 Post1 X1 p ->
  (forall l e, I1 l e -> I2 l e) ->
  (forall c l e, X1 c l e -> X2 c l e) ->
  (forall a l1 e1, Post1 a l1 e1 ->
     triple (fun l e => I2 (l1 ++ l) (e ++ e1))
            (fun b l e => Post2 b (l1 ++ l) (e ++ e1))
            (fun c l e => X2 c (l1 ++ l) (e ++ e1)) (f a)) ->
  triple I2 Post2 X2 (bind p f).
Proof.
  intros Hp HI HX Hf l evs q H.
  destruct (reach_bind_inv _ _ _ _ _ H) as [(q' & Hq & ->)|(a & l1 & l2 & e1 & e2 & H1 & H2 & -> & ->)].
  - destruct (Hp _ _ _ Hq) as (Hi & Hret & Hexit). split; [auto|]. split.
    + intros b (a & -> & Hb)%bind_is_ret.
      destruct (Hf a l evs (Hret a eq_refl) [] [] (f a) (reach_refl _)) as (_ & Hr & _).
      specialize (Hr b Hb). by rewrite app_nil_r in Hr.
    + intros c [->|(a & -> & Hc)]%bind_is_exit; [auto|].
      destruct (Hf a l evs (Hret a eq_refl) [] [] (f a) (reach_refl _)) as (_ & _ & Hx).
      specialize (Hx c Hc). by rewrite app_nil_r in Hx.
  - destruct (Hp _ _ _ H1) as (_ & Hret & _).
    apply (Hf a l1 e1 (Hret a eq_refl) l2 e2 q H2).
Qed.

Lemma triple_ret (I : list TestResult -> list Event -> Prop) Post X (a : A) :
  I [] [] -> Post a [] [] -> triple I Post X (Ret a).
Proof.
  intros HI HP l evs q [(<- & -> & ->)|[]]. split; [auto|]. split; [|discriminate].
  intros b [= <-]. auto.
Qed.

Lemma triple_exit (I : list TestResult -> list Event -> Prop) (Post : A -> _) (X : Z -> _ -> _ -> Prop) c :
  I [] [] -> X c [] [] -> triple I Post X (Exit c).
Proof.
  intros HI HP l evs q [(<- & -> & ->)|[]]. split; [auto|]. split; [discriminate|].
  intros b [= <-]. auto.
Qed.

Lemma triple_ext (I : list TestResult -> list Event -> Prop) (Post : A -> _) X {R} (c : Call R) k :
  I [] [] ->
  (forall r, triple (fun l e => I l (e ++ [Called c r]))
                    (fun a l e => Post a l (e ++ [Called c r]))
                    (fun x l e => X x l (e ++ [Called c r])) (k r)) ->
  triple I Post X (Ext c k).
Proof.
  intros HI Hk l evs q [(<- & -> & ->)|(r & evs0 & -> & H)].
  - split; [auto|]. split; discriminate.
  - apply (Hk r _ _ _ H).
Qed.

Lemma triple_go (I : list TestResult -> list Event -> Prop) (Post : A -> _) X t k :
  I [] [] -> triple I Post X k -> triple I Post X (Go t k).
Proof.
  intros HI Hk l evs q [(<- & -> & ->)|H].
  - split; [auto|]. split; discriminate.
  - apply (Hk _ _ _ H).
Qed.

Lemma triple_once (I : list TestResult -> list Event -> Prop) (Post : A -> _) X k :
  I [] [] -> triple I Post X k -> triple I Post X (OnceDo k).
Proof.
  intros HI Hk l evs q [(<- & -> & ->)|H].
  - split; [auto|]. split; discriminate.
  - apply (Hk _ _ _ H).
Qed.

Lemma triple_read (I : list TestResult -> list Event -> Prop) (Post : A -> _) X k :
  I [] [] -> (forall r, triple I Post X (k r)) -> triple I Post X (ArcRead k).
Proof.
  intros HI Hk l evs q [(<- & -> & ->)|(r & H)].
  - split; [auto|]. split; discriminate.
  - apply (Hk r _ _ _ H).
Qed.

Lemma triple_recv (I : list TestResult -> list Event -> Prop) (Post : A -> _) X k :
  I [] [] ->
  (forall tr, triple (fun l e => I (tr :: l) e) (fun a l e => Post a (tr :: l) e)
                     (fun x l e => X x (tr :: l) e) (k tr)) ->
  triple I Post X (Recv k).
Proof.
  intros HI Hk l evs q [(<- & -> & ->)|(tr & l0 & -> & H)].
  - split; [auto|]. split; discriminate.
  - apply (Hk tr _ _ _ H).
Qed.

Lemma triple_weaken (I I' : list TestResult -> list Event -> Prop) (Post Post' : A -> _) (X X' : Z -> _) p :
  triple I Post X p ->
  (forall l e, I l e -> I' l e) -> (forall a l e, Post a l e -> Post' a l e) ->
  (forall c l e, X c l e -> X' c l e) ->
  triple I' Post' X' p.
Proof.
  intros Hp H1 H2 H3 l evs q H. destruct (Hp _ _ _ H) as (Hi & Hr & Hx).
  split; [auto|]. split; eauto.
Qed.

End Triples.

Lemma quiet_bind {A B} (p : Prog A) (f : A -> Prog B) :
  quiet p -> (forall a, quiet (f a)) -> quiet (bind p f).
Proof. induction p; simpl; auto; try contradiction. Qed.

Lemma local_bind {A B} (p : Prog A) (f : A -> Prog B) :
  local p -> (forall a, local (f a)) -> local (bind p f).
Proof. induction p; simpl; auto; try contradiction. Qed.

Lemma local_quiet {A} (p : Prog A) : local p -> quiet p.
Proof. induction p; simpl; auto; contradiction. Qed.

Lemma confined_bind {A B} ok (p : Prog A) (f : A -> Prog B) :
  confined ok p -> (forall a, confined ok (f a)) -> confined ok (bind p f).
Proof.
  induction p; simpl; auto.
  - intros [H1 H2] Hf. split; auto.
  - intros [H1 H2] Hf. split; auto.
Qed.

Lemma triple_quiet {A} ok (p : Prog A) :
  quiet p -> confined ok p ->
  triple (fun l e => l = [] /\ forallb ok e = true)
         (fun _ l e => l = [] /\ forallb ok e = true)
         (fun _ _ _ => False) p.
Proof.
  induction p as [a|c|R c k IH|k IH|k IH|t k IH|tr k IH|k IH]; simpl; intros Hq Hc; try contradiction.
  - apply triple_ret; auto.
  - destruct Hc as [Hc1 Hc2]. apply triple_ext; [auto|]. intros r.
    eapply triple_weaken; [apply (IH r (Hq r) (Hc2 r))|..]; simpl.
    + intros l e [-> He]. split; [reflexivity|]. rewrite forallb_app, He. simpl. by rewrite Hc1.
    + intros _ l e [-> He]. split; [reflexivity|]. rewrite forallb_app, He. simpl. by rewrite Hc1.
    + auto.
  - destruct Hc as [Hc1 Hc2]. apply triple_once; auto.
  - apply triple_read; auto.
  - apply triple_go; auto.
  - intros l evs q [(<- & -> & ->)|H].
    + split; [auto|]. split; discriminate.
    + apply (IH Hq Hc _ _ _ H).
Qed.

Ltac quiet_step :=
  match goal with
  | |- quiet (bind _ _) => apply quiet_bind
  | |- quiet (mbind _ _) => apply quiet_bind
  | |- confined _ (bind _ _) => apply confined_bind
  | |- confined _ (mbind _ _) => apply confined_bind
  | |- local (bind _ _) => apply local_bind
  | |- local (mbind _ _) => apply local_bind
  | |- forall _, _ => intros
  | |- _ /\ _ => split
  | |- quiet (if ?b then _ else _) => destruct b
  | |- local (if ?b then _ else _) => destruct b
  | |- confined _ (if ?b then _ else _) => destruct b
  | |- quiet (match ?x with _ => _ end) => destruct x
  | |- local (match ?x with _ => _ end) => destruct x
  | |- confined _ (match ?x with _ => _ end) => destruct x
  | |- quiet (let (_, _) := ?x in _) => destruct x
  | |- local (let (_, _) := ?x in _) => destruct x
  | |- confined _ (let (_, _) := ?x in _) => destruct x
  | |- True => exact I
  | |- _ = _ => reflexivity
  | _ => progress cbn [quiet local confined bind mbind Prog_bind call]
  end.

Section MainFacts.
Variable fl : Flags.

Lemma getComputeClient_try_local fuel : forall i err, local (getComputeClient_try fuel i err).
Proof. induction fuel; intros; simpl; [exact I|]. repeat quiet_step; auto. Qed.

Lemma getComputeClient_try_confined fuel : forall i err,
  confined not_remove (getComputeClient_try fuel i err).
Proof. induction fuel; intros; simpl; [exact I|]. repeat quiet_step; auto. Qed.

Lemma deleteArchive_local : local deleteArchive.
Proof. unfold deleteArchive, getArchive. repeat quiet_step. Qed.

Lemma main_images_quiet images : forall r, quiet (main_images images r).
Proof. induction images as [|[s i] images IH]; intros; simpl; [exact I|]. repeat quiet_step; auto. Qed.

Lemma main_images_confined images : forall r, confined not_remove (main_images images r).
Proof. induction images as [|[s i] images IH]; intros; simpl; [exact I|]. repeat quiet_step; auto. Qed.

Lemma main_hosts_quiet hs : forall r, quiet (main_hosts hs r).
Proof. induction hs as [|h hs IH]; intros; simpl; [exact I|]. repeat quiet_step; auto. Qed.

Lemma main_hosts_confined hs : forall r, confined not_remove (main_hosts hs r).
Proof. induction hs as [|h hs IH]; intros; simpl; [exact I|]. repeat quiet_step; auto. Qed.

Lemma main_images_returns images : forall r l e a,
  reach (main_images images r) l e (Ret a) -> a = r + length images.
Proof.
  induction images as [|[s i] images IH]; intros r l e a H; simpl in H.
  - destruct H as [([= <-] & _)|[]]. simpl. lia.
  - destruct H as [(? & _)|(? & ? & _ & [(? & _)|H])]; try discriminate.
    apply IH in H. simpl. lia.
Qed.

Lemma main_hosts_returns hs : forall r l e a,
  reach (main_hosts hs r) l e (Ret a) -> a = r + length hs.
Proof.
  induction hs as [|h hs IH]; intros r l e a H; simpl in H.
  - destruct H as [([= <-] & _)|[]]. simpl. lia.
  - destruct H as [(? & _)|(? & ? & _ & [(? & _)|H])]; try discriminate.
    apply IH in H. simpl. lia.
Qed.

Lemma main_collect_triple n : forall ec ok,
  triple (fun l e => length l <= n /\ forallb not_remove e = true)
         (fun a l e => length l = n /\ a = (ec + errors l, ok && forallb exitOk l)
                       /\ forallb not_remove e = true)
         (fun _ _ _ => False)
         (main_collect fl n ec ok).
Proof.
  induction n as [|n IH]; intros ec ok.
  - apply triple_ret; simpl; repeat split; auto. rewrite Nat.add_0_r, andb_true_r. reflexivity.
  - cbn [main_collect]. unfold mbind, Prog_bind. cbn [bind].
    apply triple_recv; [simpl; split; [lia|reflexivity]|]. intros tr.
    apply triple_ext; [simpl; split; [lia|reflexivity]|]. intros [].
    destruct (err tr) as [e0|] eqn:Herr; cbn [bind].
    + apply triple_ext; [simpl; split; [lia|reflexivity]|]. intros [].
      apply triple_ext; [simpl; split; [lia|reflexivity]|]. intros [].
      eapply triple_weaken; [apply (IH (S ec) (ok && exitOk tr))|..]; simpl.
      * intros l e [Hl He]. split; [lia|]. rewrite !forallb_app, He. reflexivity.
      * intros a l e (Hl & -> & He). split; [lia|]. split.
        -- unfold errors. simpl. rewrite Herr. simpl. f_equal; [lia|]. by rewrite andb_assoc.
        -- rewrite !forallb_app, He. reflexivity.
      * auto.
    + apply triple_ext; [simpl; split; [lia|reflexivity]|]. intros [].
      apply triple_ext; [simpl; split; [lia|reflexivity]|]. intros [].
      eapply triple_weaken; [apply (IH ec (ok && exitOk tr))|..]; simpl.
      * intros l e [Hl He]. split; [lia|]. rewrite !forallb_app, He. reflexivity.
      * intros a l e (Hl & -> & He). split; [lia|]. split.
        -- unfold errors. simpl. rewrite Herr. simpl. f_equal. by rewrite andb_assoc.
        -- rewrite !forallb_app, He. reflexivity.
      * auto.
Qed.

Lemma main_images_triple images r :
  triple (fun l e => l = [] /\ forallb not_remove e = true)
         (fun a l e => l = [] /\ forallb not_remove e = true /\ a = r + length images)
         (fun _ _ _ => False) (main_images images r).
Proof.
  intros l e q H.
  destruct (triple_quiet not_remove _ (main_images_quiet images r)
              (main_images_confined images r) _ _ _ H) as (Hi & Hr & Hx).
  split; [auto|]. split; [|auto].
  intros a ->. destruct (Hr a eq_refl). eauto using main_images_returns.
Qed.

Lemma main_hosts_triple (running : nat) :
  triple (fun l e => l = [] /\ forallb not_remove e = true)
         (fun a l e => l = [] /\ forallb not_remove e = true
                       /\ a = running + length (host_list fl))
         (fun _ _ _ => False)
         (if negb (hosts fl =? "")%string
          then main_hosts (Split (hosts fl) ",") running else Ret running).
Proof.
  unfold host_list. destruct (hosts fl =? "")%string; simpl.
  - apply triple_ret; simpl; auto.
  - intros l e q H.
    destruct (triple_quiet not_remove _ (main_hosts_quiet _ running)
                (main_hosts_confined _ running) _ _ _ H) as (Hi & Hr & Hx).
    split; [auto|]. split; [|auto].
    intros a ->. destruct (Hr a eq_refl). eauto using main_hosts_returns.
Qed.

Lemma process_triple images :
  let K := length images + length (host_list fl) in
  triple (fun l e => length l <= K) (fun _ _ _ => False) (verdict K) (process fl images).
Proof.
  intros K. unfold process, main, mbind, Prog_bind. cbn [bind].
  apply triple_go; [simpl; lia|].
  eapply (triple_bind (fun l e => length l <= K)
            (fun _ l e => length l = K /\ forallb exitOk l = true)
            (fun c l e => verdict K c l e /\ c <> 0%Z)).
  2: auto.
  2: { intros c l e [H _]. exact H. }
  2: { intros [] l1 e1 [Hl Hok]. apply triple_exit; rewrite app_nil_r; [lia|].
       right. right. auto. }
  unfold defer, mbind, Prog_bind.
  eapply (triple_bind (fun l e => length l <= K)
            (fun _ l e => length l = K /\ forallb exitOk l = true)
            (fun c l e => verdict K c l e /\ c <> 0%Z)).
  2: auto.
  2: auto.
  2: { intros [] l1 e1 [Hl Hok].
       eapply triple_weaken.
       - apply (triple_quiet (fun _ => true)).
         + apply quiet_bind; [apply local_quiet, deleteArchive_local|intros; exact I].
         + apply confined_bind; [|intros; exact I].
           unfold deleteArchive, getArchive. repeat quiet_step.
       - simpl. intros l e [-> _]. rewrite app_nil_r. lia.
       - simpl. intros _ l e [-> _]. rewrite app_nil_r. auto.
       - simpl. intros c l e []. }
  eapply (triple_bind (fun l e => l = [] /\ forallb not_remove e = true)
            (fun _ l e => l = [] /\ forallb not_remove e = true)
            (fun _ _ _ => False)).
  { apply triple_quiet; unfold getComputeClient;
      [apply local_quiet, getComputeClient_try_local|apply getComputeClient_try_confined]. }
  { intros l e [-> _]. simpl. lia. }
  { intros c l e []. }
  intros [cs [e0|]] l1 e1 [-> He1]; simpl.
  - unfold glog_Fatalf, mbind, Prog_bind. cbn [bind call].
    apply triple_ext; [simpl; lia|]. intros [].
    apply triple_exit; simpl; [lia|]. split; [|discriminate]. left.
    repeat split; auto.
  - eapply (triple_bind (fun l e => l = [] /\ forallb not_remove e = true)
              (fun a l e => l = [] /\ forallb not_remove e = true /\ a = 0 + length images)
              (fun _ _ _ => False)).
    { apply main_images_triple. }
    { intros l e [-> _]. simpl. lia. }
    { intros c l e []. }
    intros r1 l2 e2 (-> & He2 & ->); simpl.
    eapply (triple_bind (fun l e => l = [] /\ forallb not_remove e = true)
              (fun a l e => l = [] /\ forallb not_remove e = true /\ a = K)
              (fun _ _ _ => False)).
    { eapply triple_weaken; [apply main_hosts_triple|..]; simpl; auto. }
    { intros l e [-> _]. simpl. lia. }
    { intros c l e []. }
    intros r2 l3 e3 (-> & He3 & ->); simpl.
    eapply (triple_bind (fun l e => length l <= K /\ forallb not_remove e = true)
              (fun a l e => length l = K /\ a = (0 + errors l, true && forallb exitOk l)
                            /\ forallb not_remove e = true)
              (fun _ _ _ => False)).
    { apply main_collect_triple. }
    { intros l e [Hl _]. exact Hl. }
    { intros c l e []. }
    intros [errCount ok] l4 e4 (Hl4 & [= -> ->] & He4); simpl.
    destruct (forallb exitOk l4) eqn:Hok; simpl.
    + apply triple_ret; simpl; rewrite ?app_nil_r; [lia|auto].
    + apply triple_ext; [simpl; rewrite ?app_nil_r; lia|]. intros [].
      apply triple_exit; simpl; rewrite ?app_nil_r; [lia|].
      split; [|discriminate]. right. left. repeat split; auto.
      simpl. rewrite !forallb_app, He4, He3, He2, He1. reflexivity.
Qed.

End MainFacts.

Lemma confined_weaken {A} (ok ok' : Event -> bool) (p : Prog A) :
  (forall e, ok e = true -> ok' e = true) -> confined ok p -> confined ok' p.
Proof.
  intros Hw. induction p; simpl; auto.
  - intros [H1 H2]. split; auto.
  - intros [H1 H2]. split; auto.
Qed.

Section TargetFacts.
Variable ToUpper : string -> string.
Variable fl : Flags.

Lemma getArchive_local : local getArchive.
Proof. unfold getArchive. repeat quiet_step. Qed.

Lemma createInstance_attempt_local name i : local (createInstance_attempt ToUpper fl name i).
Proof. unfold createInstance_attempt. repeat quiet_step. Qed.

Lemma createInstance_attempt_confined name i :
  confined is_target_call (createInstance_attempt ToUpper fl name i).
Proof. unfold createInstance_attempt. repeat quiet_step. Qed.

Lemma createInstance_poll_local name fuel : forall i b err,
  local (createInstance_poll ToUpper fl name fuel i b err).
Proof.
  induction fuel; intros; simpl; [exact I|]. destruct b; [exact I|].
  apply local_bind; [apply createInstance_attempt_local|]. intros []. apply IHfuel.
Qed.

Lemma createInstance_poll_confined name fuel : forall i b err,
  confined is_target_call (createInstance_poll ToUpper fl name fuel i b err).
Proof.
  induction fuel; intros; simpl; [exact I|]. destruct b; [exact I|].
  apply confined_bind; [apply createInstance_attempt_confined|]. intros []. apply IHfuel.
Qed.

Lemma parseInstanceMetadata_local ss : forall md, local (parseInstanceMetadata_entries ss md).
Proof. induction ss; intros; simpl; [exact I|]. repeat quiet_step; auto. Qed.

Lemma parseInstanceMetadata_confined ss : forall md,
  confined is_target_call (parseInstanceMetadata_entries ss md).
Proof. induction ss; intros; simpl; [exact I|]. repeat quiet_step; auto. Qed.

Lemma createInstance_local image imageProject : local (createInstance ToUpper fl image imageProject).
Proof.
  unfold createInstance, parseInstanceMetadata.
  repeat quiet_step; auto using parseInstanceMetadata_local, createInstance_poll_local.
Qed.

Lemma createInstance_confined image imageProject :
  confined is_target_call (createInstance ToUpper fl image imageProject).
Proof.
  unfold createInstance, parseInstanceMetadata.
  repeat quiet_step; auto using parseInstanceMetadata_confined, createInstance_poll_confined.
Qed.

Lemma testHost_local host deleteFiles n sn : local (testHost ToUpper fl host deleteFiles n sn).
Proof. unfold testHost, getArchive. repeat quiet_step. Qed.

Lemma testHost_confined host deleteFiles n sn :
  confined is_target_call (testHost ToUpper fl host deleteFiles n sn).
Proof. unfold testHost, getArchive. repeat quiet_step. Qed.

Lemma deleteInstance_local image : local (deleteInstance fl image).
Proof. unfold deleteInstance. repeat quiet_step. Qed.

Lemma testImage_local image imageProject n : local (testImage ToUpper fl image imageProject n).
Proof.
  unfold testImage, defer.
  repeat quiet_step; auto using createInstance_local, testHost_local, deleteInstance_local.
Qed.

Lemma testImage_confined image imageProject n :
  confined not_remove (testImage ToUpper fl image imageProject n).
Proof.
  unfold testImage, defer.
  apply confined_bind.
  { eapply confined_weaken; [|apply createInstance_confined]. by_kind. }
  intros [h e]. apply confined_bind.
  - destruct e; [exact I|]. eapply confined_weaken; [|apply testHost_confined]. by_kind.
  - intros tr. unfold deleteInstance. repeat quiet_step.
Qed.

Lemma task_body_worker t : worker is_remove (task_body ToUpper fl t).
Proof.
  split.
  - destruct t; cbn [task_body]; unfold mbind, Prog_bind.
    + apply quiet_bind; [apply local_quiet, getArchive_local|intros; exact I].
    + apply quiet_bind; [apply local_quiet, testImage_local|intros; exact I].
    + apply quiet_bind; [apply local_quiet, testHost_local|intros; exact I].
  - destruct t; cbn [task_body]; unfold mbind, Prog_bind.
    + unfold getArchive. repeat quiet_step.
    + apply confined_bind; [apply testImage_confined|intros; exact I].
    + apply confined_bind; [|intros; exact I].
      eapply confined_weaken; [|apply testHost_confined]. by_kind.
Qed.

End TargetFacts.

Lemma count_cons f e (l : list Event) :
  count f (e :: l) = (if f e then 1 else 0) + count f l.
Proof. unfold count. simpl. destruct (f e); reflexivity. Qed.

Lemma run_agree {A} ok env env' (p : Prog A) :
  agree_on ok env env' -> confined ok p -> forall w, run env p w = run env' p w.
Proof.
  intros Hag. induction p as [a|c|R c k IH|k IH|k IH|t k IH|tr k IH|k IH]; simpl; intros Hc w; auto.
  - destruct Hc as [Hc1 Hc2]. rewrite <- (Hag R (trace w) c (Hc1 _)). apply IH, Hc2.
  - destruct Hc as [Hc1 Hc2]. replace (once_do env' w) with (once_do env w); [apply IH, Hc2|].
    unfold once_do. destruct (Archive.done (arc w)); [reflexivity|].
    rewrite <- (Hag _ (trace w) CreateTestArchive (Hc1 _)). reflexivity.
Qed.

Lemma deleteInstance_run (env : Env) fl image w :
  let r := env _ (trace w) (InstancesDelete (project fl) (zone fl) (imageToInstanceName fl image)) in
  run env (deleteInstance fl image) w = (Returned tt, logged (deletion fl image r) w).
Proof.
  unfold deleteInstance, deletion, mbind, Prog_bind. simpl.
  destruct (env _ (trace w) (InstancesDelete _ _ _)) as [e|]; simpl.
  - match goal with |- context [env unit ?t ?c] => destruct (env unit t c) end. reflexivity.
  - reflexivity.
Qed.

Section Targets.
Variable env : Env.
Variable ToUpper : string -> string.
Variable fl : Flags.

(** [testHost], call by call. *)
Lemma testHost_run host deleteFiles n sn w :
  let get := InstancesGet (project fl) (zone fl) host in
  let g := env _ (trace w) get in
  let w1 := record get g w in
  run env (testHost ToUpper fl host deleteFiles n sn) w =
  if reports_running ToUpper g then
    let ip := getExternalIp (fst g) in
    let w2 := if 0 <? String.length ip
              then record (AddHostnameIp host ip) (env _ (trace w1) (AddHostnameIp host ip)) w1
              else w1 in
    let w3 := once_do env w2 in
    match Archive.err (arc w3) with
    | Some e =>
        (Returned {| output := ""; err := Some (ErrArchive e); host := ""; exitOk := false |}, w3)
    | None =>
        let rr := RunRemote (Archive.path (arc w3)) host deleteFiles n sn (testArgs fl) in
        let r := env _ (trace w3) rr in
        (Returned {| output := fst (fst r); err := snd r; host := host; exitOk := snd (fst r) |},
         record rr r w3)
    end
  else
    (Returned {| output := "";
                 err := match snd g with
                        | Some e => Some e
                        | None => Some (ErrNotRunning host (Status (fst g)))
                        end;
                 host := host; exitOk := false |}, w1).
Proof.
  cbv zeta. unfold testHost, reports_running, mbind, Prog_bind. simpl.
  destruct (env _ (trace w) (InstancesGet _ _ _)) as [inst [e|]]; simpl; [reflexivity|].
  destruct (ToUpper (Status inst) =? "RUNNING")%string; simpl; [|reflexivity].
  rewrite run_bind.
  destruct (0 <? String.length (getExternalIp inst)); simpl.
  - match goal with |- context [Archive.err (arc (once_do env ?w))] =>
      destruct (Archive.err (arc (once_do env w))) end; [reflexivity|]. simpl.
    match goal with |- context [env _ ?t (RunRemote ?a ?b ?c ?d ?e ?f)] =>
      destruct (env _ t (RunRemote a b c d e f)) as [[out ok] er] end. reflexivity.
  - match goal with |- context [Archive.err (arc (once_do env ?w))] =>
      destruct (Archive.err (arc (once_do env w))) end; [reflexivity|]. simpl.
    match goal with |- context [env _ ?t (RunRemote ?a ?b ?c ?d ?e ?f)] =>
      destruct (env _ t (RunRemote a b c d e f)) as [[out ok] er] end. reflexivity.
Qed.

Lemma once_do_trace w :
  exists b, trace (once_do env w) = b ++ trace w /\ forallb is_build b = true.
Proof.
  unfold once_do. destruct (Archive.done (arc w)).
  - exists []. auto.
  - eexists [_]. simpl. split; reflexivity.
Qed.

(** [testHost] returns; its calls start with the lookup of the instance and
    are calls of a target; and its result reads as the calls say. *)
Lemma testHost_spec host deleteFiles n sn w :
  let get := InstancesGet (project fl) (zone fl) host in
  exists tr later w',
    run env (testHost ToUpper fl host deleteFiles n sn) w = (Returned tr, w') /\
    trace w' = later ++ Called get (env _ (trace w) get) :: trace w /\
    forallb is_target_call later = true /\
    result_relayed tr (later ++ [Called get (env _ (trace w) get)]).
Proof.
  intros get. rewrite testHost_run. fold get. cbv zeta.
  set (g := env _ (trace w) get).
  destruct (reports_running ToUpper g) eqn:Hrun.
  - set (w1 := record get g w).
    set (w2 := if 0 <? String.length (getExternalIp (fst g)) then _ else w1).
    assert (exists a, trace w2 = a ++ trace w1 /\ forallb is_target_call a = true
                      /\ List.find is_run_remote a = None) as (a & Ha & Ha1 & Ha2).
    { subst w2. destruct (0 <? _); [eexists [_]|exists []]; simpl; auto. }
    destruct (once_do_trace w2) as (b & Hb & Hb1).
    assert (forallb is_target_call b = true /\ List.find is_run_remote b = None) as [Hb2 Hb3].
    { split; [apply (forallb_weaken is_build)|apply (find_none _ is_build)];
        try assumption; by_kind. }
    destruct (Archive.err (arc (once_do env w2))) as [e|] eqn:Herr.
    + eexists _, (b ++ a), _. split; [reflexivity|]. split; [|split].
      * rewrite Hb, Ha. simpl. by rewrite <- app_assoc.
      * rewrite forallb_app, Ha1, Hb2. reflexivity.
      * unfold result_relayed.
        rewrite !find_app, Hb3, Ha2. simpl. split; [reflexivity|discriminate].
    + set (rr := RunRemote _ _ _ _ _ _). set (r := env _ _ rr).
      eexists _, (Called rr r :: b ++ a), _. split; [reflexivity|]. split; [|split].
      * simpl. rewrite Hb, Ha. simpl. by rewrite <- app_assoc.
      * simpl. rewrite forallb_app, Ha1, Hb2. reflexivity.
      * unfold result_relayed. simpl. destruct r as [[out ok] er]. reflexivity.
  - eexists _, [], _. split; [reflexivity|]. split; [reflexivity|]. split; [reflexivity|].
    unfold result_relayed. simpl. split; [reflexivity|].
    destruct (snd g); discriminate.
Qed.

(** C10: [testHost] begins by looking the host up as an instance of the
    configured project and zone, fixed hosts included ([task_body] hands
    every host of --hosts to [testHost]): whatever follows, that look-up is
    the first call made.  Unless it succeeds and reports a status that reads
    RUNNING once put in upper case, [testHost] returns straight after it
    with an error and exitOk false, and nothing has been copied to the host
    or run on it. *)
Theorem testHost_looks_up_the_instance_first host deleteFiles n sn w :
  let get := InstancesGet (project fl) (zone fl) host in
  let g := env _ (trace w) get in
  (exists tr later w',
      run env (testHost ToUpper fl host deleteFiles n sn) w = (Returned tr, w') /\
      trace w' = later ++ Called get g :: trace w) /\
  (reports_running ToUpper g = false ->
   exists e,
     run env (testHost ToUpper fl host deleteFiles n sn) w
     = (Returned {| output := ""; err := Some e; host := host; exitOk := false |},
        record get g w)) /\
  task_body ToUpper fl (TaskHost host n)
  = (tr ← testHost ToUpper fl host (cleanup fl) n (setupNode fl); Send tr (Ret tt)).
Proof.
  intros get g. split; [|split; [|reflexivity]].
  - rewrite testHost_run. fold get g. cbv zeta.
    destruct (reports_running ToUpper g).
    + set (w1 := record get g w).
      set (w2 := if 0 <? String.length (getExternalIp (fst g)) then _ else w1).
      assert (exists a, trace w2 = a ++ trace w1) as (a & Ha).
      { subst w2. destruct (0 <? _); [eexists [_]|exists []]; simpl; auto. }
      destruct (once_do_trace w2) as (b & Hb & _).
      destruct (Archive.err (arc (once_do env w2))).
      * eexists _, (b ++ a), _. split; [reflexivity|]. rewrite Hb, Ha. simpl. by rewrite <- app_assoc.
      * eexists _, (_ :: b ++ a), _. split; [reflexivity|]. simpl. rewrite Hb, Ha. simpl.
        by rewrite <- app_assoc.
    + eexists _, [], _. split; reflexivity.
  - intros Hrun. rewrite testHost_run. fold get g. cbv zeta. rewrite Hrun.
    destruct (snd g); eexists; reflexivity.
Qed.

(** [testImage] is its body (create the instance and, if that went well,
    test it as a host) followed by the deferred deletion. *)
Lemma testImage_spec image imageProject n w :
  exists name err0 new1 tr body w2,
    run env (createInstance ToUpper fl image imageProject) w
      = (Returned (name, err0), logged new1 w) /\
    create_facts ToUpper fl image name err0 new1 /\
    (err0 <> None -> err tr <> None /\ exitOk tr = false) /\
    trace w2 = body ++ trace w /\
    forallb is_target_call body = true /\
    result_relayed tr body /\
    run env (testImage ToUpper fl image imageProject n) w =
      (Returned tr,
       if deleteInstances fl
       then logged (deletion fl image
                      (env _ (trace w2)
                         (InstancesDelete (project fl) (zone fl) (imageToInstanceName fl image))))
                   w2
       else w2) /\
    (forall env', agree_on (fun e => negb (is_delete e)) env env' ->
       fst (run env' (testImage ToUpper fl image imageProject n) w) = Returned tr).
Proof.
  destruct (createInstance_spec env ToUpper fl image imageProject w)
    as (name & err0 & new1 & Hcreate & F).
  assert (forallb is_target_call new1 = true) as Hn1.
  { apply (forallb_weaken (fun e => is_polling e || is_setup e)); [by_kind|apply F]. }
  assert (List.find is_run_remote new1 = None) as Hn2.
  { apply (find_none _ (fun e => is_polling e || is_setup e)); [by_kind|apply F]. }
  assert (Hdefer : forall (tr : TestResult) w2,
    run env (defer (if deleteInstances fl then deleteInstance fl image else Ret tt) (Ret tr)) w2
    = (Returned tr,
       if deleteInstances fl
       then logged (deletion fl image
                      (env _ (trace w2)
                         (InstancesDelete (project fl) (zone fl) (imageToInstanceName fl image))))
                   w2
       else w2)).
  { intros tr w2. unfold defer, mbind, Prog_bind. cbn [bind]. rewrite run_bind.
    destruct (deleteInstances fl); [rewrite deleteInstance_run|]; reflexivity. }
  assert (Hother : forall env' (tr : TestResult) w2,
    fst (run env' (defer (if deleteInstances fl then deleteInstance fl image else Ret tt)
                     (Ret tr)) w2) = Returned tr).
  { intros env' tr w2. unfold defer, mbind, Prog_bind. cbn [bind]. rewrite run_bind.
    destruct (deleteInstances fl); [rewrite deleteInstance_run|]; reflexivity. }
  destruct err0 as [e|].
  - exists name, (Some e), new1,
      {| output := ""; err := Some (ErrCreateInstance image e); host := ""; exitOk := false |},
      new1, (logged new1 w).
    split; [exact Hcreate|]. split; [exact F|]. split; [|split; [reflexivity|split; [exact Hn1|split; [|split]]]].
    + intros _. simpl. split; [discriminate|reflexivity].
    + unfold result_relayed. rewrite Hn2. simpl. split; [reflexivity|discriminate].
    + unfold testImage, mbind, Prog_bind. rewrite run_bind, Hcreate. apply Hdefer.
    + intros env' Hag. unfold testImage, mbind, Prog_bind. rewrite run_bind.
      rewrite <- (run_agree _ env env' _ Hag); [rewrite Hcreate; apply Hother|].
      eapply confined_weaken; [|apply createInstance_confined]. by_kind.
  - set (df := negb (deleteInstances fl) && cleanup fl).
    destruct (testHost_spec name df n (setupNode fl) (logged new1 w))
      as (tr & later & w2 & Hhost & Htr & Hlater & Hread).
    set (get := Called _ _) in *.
    exists name, None, new1, tr, (later ++ get :: new1), w2.
    split; [exact Hcreate|]. split; [exact F|]. split; [congruence|].
    split; [rewrite Htr; simpl; by rewrite <- app_assoc|].
    split; [rewrite forallb_app, Hlater; simpl; exact Hn1|].
    split; [|split].
    + unfold result_relayed in *.
      rewrite find_app in *. simpl in *. destruct (List.find is_run_remote later); [exact Hread|].
      rewrite Hn2. exact Hread.
    + unfold testImage, mbind, Prog_bind. rewrite run_bind, Hcreate. cbv iota beta.
      unfold defer at 1, mbind, Prog_bind. rewrite run_bind. fold df. rewrite Hhost.
      apply (Hdefer tr w2).
    + intros env' Hag. unfold testImage, mbind, Prog_bind. rewrite run_bind.
      rewrite <- (run_agree _ env env' _ Hag).
      2: { eapply confined_weaken; [|apply createInstance_confined]. by_kind. }
      rewrite Hcreate. cbv iota beta.
      unfold defer at 1, mbind, Prog_bind. rewrite run_bind. fold df.
      rewrite <- (run_agree _ env env' _ Hag).
      2: { eapply confined_weaken; [|apply testHost_confined]. by_kind. }
      rewrite Hhost. apply (Hother env' tr w2).
Qed.

Lemma poll_unfold name fuel i err :
  createInstance_poll ToUpper fl name (S fuel) i false err =
  bind (createInstance_attempt ToUpper fl name i)
       (fun '(b, err) => createInstance_poll ToUpper fl name fuel (S i) b err).
Proof. reflexivity. Qed.

Lemma attempt_not_running name i w :
  (forall tr, count is_get tr = count is_get (trace w) ->
              reports_running ToUpper (env _ tr (InstancesGet (project fl) (zone fl) name)) = false) ->
  exists err new,
    run env (createInstance_attempt ToUpper fl name i) w = (Returned (false, err), logged new w)
    /\ count is_get new = 1 /\ count is_probe new = 0.
Proof.
  intros Hnot. unfold createInstance_attempt, mbind, Prog_bind. rewrite !run_bind.
  destruct (0 <? i); simpl;
  match goal with |- context [env _ ?t (InstancesGet ?p ?z ?n)] =>
    specialize (Hnot t); unfold reports_running in Hnot;
    destruct (env _ t (InstancesGet p z n)) as [inst [e|]] end; simpl in *.
  all: try (rewrite Hnot by reflexivity; simpl).
  all: eexists; pick_new; split; reflexivity.
Qed.

Lemma attempt_verified name i w :
  (forall tr, count is_get tr = count is_get (trace w) ->
              reports_running ToUpper (env _ tr (InstancesGet (project fl) (zone fl) name)) = true) ->
  (forall tr cmd args, probe_passes (env _ tr (RunSshCommand cmd args)) = true) ->
  exists new,
    run env (createInstance_attempt ToUpper fl name i) w = (Returned (true, None), logged new w)
    /\ count is_get new = 1 /\ count is_probe new = 1.
Proof.
  intros Hrun Hprobe. unfold createInstance_attempt, mbind, Prog_bind. rewrite !run_bind.
  destruct (0 <? i); simpl;
  match goal with |- context [env _ ?t (InstancesGet ?p ?z ?n)] =>
    specialize (Hrun t); unfold reports_running in Hrun;
    destruct (env _ t (InstancesGet p z n)) as [inst [e|]] end; simpl in *.
  all: try (specialize (Hrun eq_refl); discriminate).
  all: rewrite Hrun by reflexivity; simpl; rewrite run_bind.
  all: destruct (0 <? String.length (getExternalIp inst)); simpl.
  all: match goal with |- context [env _ ?t (RunSshCommand ?c ?a)] =>
         specialize (Hprobe t c a); unfold probe_passes in Hprobe;
         destruct (env _ t (RunSshCommand c a)) as [out [e|]] end; simpl in *; try discriminate.
  all: rewrite Hprobe; simpl.
  all: pick_new; split; reflexivity.
Qed.

Lemma third_poll name w :
  (forall tr, count is_get tr < count is_get (trace w) + 2 ->
              reports_running ToUpper (env _ tr (InstancesGet (project fl) (zone fl) name)) = false) ->
  (forall tr, count is_get tr = count is_get (trace w) + 2 ->
              reports_running ToUpper (env _ tr (InstancesGet (project fl) (zone fl) name)) = true) ->
  (forall tr cmd args, probe_passes (env _ tr (RunSshCommand cmd args)) = true) ->
  exists new,
    run env (createInstance_poll ToUpper fl name 30 0 false None) w = (Returned None, logged new w)
    /\ count is_get new = 3 /\ count is_probe new = 1.
Proof.
  intros Hnot Hrun Hprobe.
  rewrite (poll_unfold name 29 0), run_bind.
  destruct (attempt_not_running name 0 w) as (e1 & new1 & -> & Hg1 & Hp1).
  { intros tr Htr. apply Hnot. lia. }
  rewrite (poll_unfold name 28 1), run_bind.
  destruct (attempt_not_running name 1 (logged new1 w)) as (e2 & new2 & -> & Hg2 & Hp2).
  { intros tr Htr. apply Hnot. simpl in Htr. rewrite count_app in Htr. lia. }
  rewrite (poll_unfold name 27 2), run_bind.
  destruct (attempt_verified name 2 (logged new2 (logged new1 w))) as (new3 & -> & Hg3 & Hp3).
  { intros tr Htr. apply Hrun. simpl in Htr. rewrite !count_app in Htr. lia. }
  { exact Hprobe. }
  rewrite poll_running, !logged_app. eexists. split; [reflexivity|].
  rewrite !count_app. lia.
Qed.

Lemma createInstance_third_poll image imageProject w :
  third_poll_scenario env ToUpper fl image w ->
  exists new,
    run env (createInstance ToUpper fl image imageProject) w
      = (Returned (imageToInstanceName fl image, None), logged new w) /\
    count is_get new = 3 /\ count is_probe new = 1.
Proof.
  intros (Hins & Hnot & Hrun & Hprobe).
  unfold createInstance. unfold mbind at 1, Prog_bind at 1. rewrite run_bind.
  match goal with |- context [run env (if ?c then ?p else Ret ?i0) w] =>
    assert (exists i new0, run env (if c then p else Ret i0) w = (Returned i, logged new0 w)
                           /\ forallb is_metadata_io new0 = true) as (i & new0 & -> & Hs0)
  end.
  { destruct (negb _).
    - unfold mbind, Prog_bind. rewrite run_bind. unfold parseInstanceMetadata.
      destruct (metadata_spec env (Split (instanceMetadata fl) ",") [] w) as (md & new0 & -> & Hs0).
      simpl. eauto.
    - eexists _, []. rewrite logged_nil. split; reflexivity. }
  assert (count is_get new0 = 0) as Hg0 by (apply (count_none _ is_metadata_io); [by_kind|assumption]).
  assert (count is_probe new0 = 0) as Hp0 by (apply (count_none _ is_metadata_io); [by_kind|assumption]).
  unfold mbind, Prog_bind. rewrite run_bind, run_call.
  specialize (Hins (trace (logged new0 w)) i). unfold insert_accepted in Hins.
  destruct (env _ (trace (logged new0 w)) (InstancesInsert (project fl) (zone fl) i))
    as [op [e|]]; simpl in Hins; try discriminate.
  destruct (op_Error op); try discriminate.
  rewrite run_bind.
  match goal with |- context [run env (createInstance_poll _ _ ?n _ _ _ _) ?w1] =>
    destruct (third_poll n w1) as (newp & -> & Hg & Hp) end.
  - intros tr Htr. apply Hnot. simpl in Htr. rewrite count_cons, count_app, Hg0 in Htr.
    simpl in Htr. lia.
  - intros tr Htr. apply Hrun. simpl in Htr. rewrite count_cons, count_app, Hg0 in Htr.
    simpl in Htr. lia.
  - exact Hprobe.
  - eexists (newp ++ _ :: new0). split.
    + unfold logged; simpl. rewrite <- app_assoc. reflexivity.
    + rewrite !count_app, !count_cons, Hg, Hp, Hg0, Hp0. simpl. lia.
Qed.

(** C3: [createInstance] always returns, after at most 30 status polls.  Two
    consecutive polls are one pause apart, no pause follows the last poll,
    and every pause is of 20 seconds.  A poll that fails or reports another
    status does not end the loop: once the insert was accepted, an error is
    only returned after all 30 polls.  Without a passing probe an error is
    returned, and [testImage] makes of it the result of this one target,
    with an error and exitOk false. *)
Theorem createInstance_polls_within_its_budget image imageProject junitFileNum w :
  exists name e new,
    run env (createInstance ToUpper fl image imageProject) w
      = (Returned (name, e), logged new w) /\
    count is_get new <= 30 /\
    pacing new = paced (count is_get new) /\
    forallb (sleeps_for 20) new = true /\
    (e <> None -> existsb is_accepted_insert new = true -> count is_get new = 30) /\
    (existsb is_passing_probe new = false -> e <> None) /\
    exists tr w',
      run env (testImage ToUpper fl image imageProject junitFileNum) w = (Returned tr, w') /\
      (e <> None -> err tr <> None /\ exitOk tr = false).
Proof.
  destruct (testImage_spec image imageProject junitFileNum w)
    as (name & err0 & new & tr & body & w2 & Hcreate & F & Herr & _ & _ & _ & Hrun & _).
  exists name, err0, new. split; [exact Hcreate|].
  split; [apply F|]. split; [apply F|]. split; [apply F|].
  split; [intros; apply F; assumption|]. split.
  - intros He Hn. apply (cf_verified _ _ _ _ _ _ F) in Hn. congruence.
  - eauto.
Qed.





End Targets.

Section ArchiveFacts.
Variable env : Env.

Lemma once_do_done w : Archive.done (arc (once_do env w)) = true.
Proof. unfold once_do. destruct (Archive.done (arc w)) eqn:H; [exact H|reflexivity]. Qed.

Lemma once_do_again w : Archive.done (arc w) = true -> once_do env w = w.
Proof. unfold once_do. intros ->. reflexivity. Qed.

Lemma build_results_record {R} (c : Call R) r w :
  is_build (Called c r) = false ->
  build_results (trace (record c r w)) = build_results (trace w).
Proof. destruct c; simpl; congruence. Qed.

Lemma once_do_consistent w : arc_consistent w -> arc_consistent (once_do env w).
Proof.
  unfold arc_consistent, once_do. destruct (Archive.done (arc w)) eqn:H; simpl.
  - rewrite H. auto.
  - intros ->. destruct (env _ (trace w) CreateTestArchive). reflexivity.
Qed.

Lemma record_consistent {R} (c : Call R) r w :
  is_build (Called c r) = false -> arc_consistent w -> arc_consistent (record c r w).
Proof. unfold arc_consistent. intros H. rewrite build_results_record by exact H. auto. Qed.

Lemma getArchive_run w :
  run env getArchive w =
  (Returned (Archive.path (arc (once_do env w)), Archive.err (arc (once_do env w))),
   once_do env w).
Proof. reflexivity. Qed.

(** [deleteArchive], step by step. *)
Lemma deleteArchive_run w :
  run env deleteArchive w =
  let w' := once_do env w in
  match Archive.err (arc w') with
  | Some _ => (Returned tt, w')
  | None =>
      let rm := OsRemove (Archive.path (arc w')) in
      (Returned (env _ (trace w') rm), record rm (env _ (trace w') rm) w')
  end.
Proof.
  unfold deleteArchive, getArchive, mbind, Prog_bind. simpl.
  destruct (Archive.err (arc (once_do env w))); reflexivity.
Qed.

(** C9: [deleteArchive] always returns, and a second call leaves the archive
    record, the files and the constructions as the first call left them.
    After a failed construction it does nothing at all.  When the archive
    was never built it first builds it, and then removes the artifact just
    built if the construction succeeded. *)
Theorem deleteArchive_twice_is_deleteArchive_once w :
  let w1 := snd (run env deleteArchive w) in
  let w2 := snd (run env deleteArchive w1) in
  let r := env _ (trace w) CreateTestArchive in
  (fst (run env deleteArchive w) = Returned tt /\ fst (run env deleteArchive w1) = Returned tt) /\
  (arc w2 = arc w1 /\ files w2 = files w1 /\
   build_results (trace w2) = build_results (trace w1)) /\
  (Archive.done (arc w) = true -> Archive.err (arc w) <> None -> w1 = w) /\
  (Archive.done (arc w) = false ->
   arc w1 = {| Archive.done := true; Archive.path := fst r; Archive.err := snd r |} /\
   trace w1 = match snd r with
              | None => [Called (OsRemove (fst r)) tt; Called CreateTestArchive r]
              | Some _ => [Called CreateTestArchive r]
              end ++ trace w /\
   files w1 = match snd r with
              | None => files w ∖ {[ fst r ]}
              | Some _ => files w
              end).
Proof.
  cbv zeta. rewrite !deleteArchive_run. cbv zeta.
  set (w' := once_do env w).
  assert (Archive.done (arc w') = true) as Hdone by apply once_do_done.
  split; [|split; [|split]].
  - split.
    + destruct (Archive.err (arc w')); [reflexivity|]. simpl.
      match goal with |- Returned ?u = _ => destruct u end. reflexivity.
    + match goal with |- context [once_do env ?x] => set (w1 := x) end.
      destruct (Archive.err (arc (once_do env w1))); [reflexivity|]. simpl.
      match goal with |- Returned ?u = _ => destruct u end. reflexivity.
  - destruct (Archive.err (arc w')) as [e|] eqn:He; simpl.
    + rewrite (once_do_again w' Hdone), He. auto.
    + rewrite (once_do_again (record _ _ w')) by exact Hdone. simpl. rewrite He. simpl.
      repeat split. apply difference_twice_L.
  - intros Hd He. subst w'. rewrite (once_do_again w Hd).
    destruct (Archive.err (arc w)); [reflexivity|congruence].
  - intros Hd. subst w'. unfold once_do. rewrite Hd. simpl.
    destruct (env _ (trace w) CreateTestArchive) as [p [e|]]; simpl.
    + auto.
    + repeat split.
      * match goal with |- context [env unit ?t ?c] => destruct (env unit t c) end. reflexivity.
      * unfold archive_written. simpl.
        rewrite difference_union_distr_l_L, difference_diag_L, union_empty_l_L. reflexivity.
Qed.

End ArchiveFacts.

Section Callers.
Variable env : Env.
Variable spawn : Task -> Prog (list (string * option error)).

Lemma caller_at_once w m k p : caller_at w m k p -> caller_at (once_do env w) m k p.
Proof.
  intros (mid & seen & Hk & Hm & Hp & Hmid & Hseen).
  exists mid, seen. repeat split; auto.
  - intros _. apply once_do_done.
  - apply once_do_done.
  - destruct (Hseen r H) as [Hd ->]. rewrite (once_do_again env w Hd). reflexivity.
Qed.

Lemma callers_inv_boot ms fs : callers_inv ms [] (callers_pool ms fs).
Proof.
  split; [reflexivity|]. split; [reflexivity|]. split; [apply length_map|].
  intros i m Hi. exists (caller m []). split.
  - simpl. rewrite list_lookup_fmap, Hi. reflexivity.
  - exists false, []. simpl. rewrite Nat.min_0_r, Nat.sub_0_r.
    repeat split; auto; try lia; try discriminate; contradiction.
Qed.

Lemma callers_inv_step ms sched st tid :
  callers_inv ms sched st -> callers_inv ms (sched ++ [tid]) (step env spawn st tid).
Proof.
  intros (Hc & Hex & Hlen & Hth).
  assert (Hocc : forall i, count_occ Nat.eq_dec (sched ++ [tid]) i
                 = count_occ Nat.eq_dec sched i + (if Nat.eq_dec tid i then 1 else 0)).
  { intros i. rewrite count_occ_app. simpl. destruct (Nat.eq_dec tid i); reflexivity. }
  unfold step. rewrite Hex.
  destruct (threads st !! tid) as [p|] eqn:Hp.
  2: { (* no such thread *)
    split; [exact Hc|]. split; [exact Hex|]. split; [exact Hlen|].
    intros i m Hi. destruct (Hth i m Hi) as (q & Hq & Hat). exists q. split; [exact Hq|].
    rewrite Hocc. destruct (Nat.eq_dec tid i) as [->|_]; [congruence|]. by rewrite Nat.add_0_r. }
  assert (exists m, ms !! tid = Some m) as [m Hm].
  { apply lookup_lt_is_Some. rewrite <- Hlen. apply lookup_lt_is_Some. eauto. }
  destruct (Hth tid m Hm) as (p' & Hp' & (mid & seen & Hk & Hle & Hshape & Hmid & Hseen)).
  assert (p' = p) as -> by congruence.
  destruct mid.
  - (* the caller reads the result *)
    subst p. split; [exact Hc|]. split; [reflexivity|].
    split; [simpl; rewrite length_insert; exact Hlen|].
    intros i m' Hi. cbn [threads world]. rewrite Hocc.
    destruct (Nat.eq_dec tid i) as [<-|Hne].
    + assert (m' = m) as -> by congruence.
      eexists. split; [apply list_lookup_insert_eq; apply lookup_lt_is_Some; eauto|].
      exists false, ((Archive.path (arc (world st)), Archive.err (arc (world st))) :: seen).
      simpl. split; [lia|]. split; [lia|]. split; [|split].
      * replace (m - S (length seen)) with (m - length seen - 1) by lia. reflexivity.
      * discriminate.
      * intros r [<-|H]; [auto|apply Hseen, H].
    + destruct (Hth i m' Hi) as (q & Hq & Hat). exists q.
      rewrite list_lookup_insert_ne by exact Hne. rewrite Nat.add_0_r. auto.
  - destruct (m - length seen) as [|rest] eqn:Hrest; simpl in Hshape; subst p.
    + (* the caller has returned *)
      split; [exact Hc|]. split; [exact Hex|]. split; [exact Hlen|].
      intros i m' Hi. destruct (Hth i m' Hi) as (q & Hq & Hat). exists q. split; [exact Hq|].
      rewrite Hocc. destruct (Nat.eq_dec tid i) as [<-|_]; [|by rewrite Nat.add_0_r].
      assert (m' = m) as -> by congruence.
      replace (Nat.min (2 * m) (count_occ Nat.eq_dec sched tid + 1)) with
        (Nat.min (2 * m) (count_occ Nat.eq_dec sched tid)) by lia. exact Hat.
    + (* the caller enters the Once *)
      split; [apply once_do_consistent, Hc|]. split; [reflexivity|].
      split; [simpl; rewrite length_insert; exact Hlen|].
      intros i m' Hi. cbn [threads world]. rewrite Hocc.
      destruct (Nat.eq_dec tid i) as [<-|Hne].
      * assert (m' = m) as -> by congruence.
        eexists. split; [apply list_lookup_insert_eq; apply lookup_lt_is_Some; eauto|].
        exists true, seen. split; [lia|]. split; [lia|]. split; [|split].
        -- replace (m - length seen - 1) with rest by lia. reflexivity.
        -- intros _. apply once_do_done.
        -- intros r H. split; [apply once_do_done|].
           destruct (Hseen r H) as [Hd ->]. rewrite (once_do_again env _ Hd). reflexivity.
      * destruct (Hth i m' Hi) as (q & Hq & Hat). exists q.
        rewrite list_lookup_insert_ne by exact Hne. rewrite Nat.add_0_r.
        split; [exact Hq|apply caller_at_once, Hat].
Qed.

Lemma callers_inv_exec ms sched' : forall sched st,
  callers_inv ms sched st -> callers_inv ms (sched ++ sched') (exec env spawn sched' st).
Proof.
  induction sched' as [|tid sched' IH]; intros sched st H; simpl.
  - by rewrite app_nil_r.
  - replace (sched ++ tid :: sched') with ((sched ++ [tid]) ++ sched') by (by rewrite <- app_assoc).
    apply IH, callers_inv_step, H.
Qed.

(** C2: in a pool of goroutines that call [getArchive] any number of times
    each, under every schedule, CreateTestArchive runs at most once, and
    every completed call has observed the (path, error) pair of that one
    construction.  A schedule that gives every goroutine two steps per call
    lets all the calls complete. *)
Theorem archive_is_built_once ms fs sched :
  let st := exec env spawn sched (callers_pool ms fs) in
  length (build_results (trace (world st))) <= 1 /\
  (forall i seen r,
     threads st !! i = Some (Ret seen) -> In r seen ->
     build_results (trace (world st)) = [r]) /\
  ((forall i m, ms !! i = Some m -> 2 * m <= count_occ Nat.eq_dec sched i) ->
   forall i m, ms !! i = Some m ->
     exists seen, threads st !! i = Some (Ret seen) /\ length seen = m).
Proof.
  intros st.
  destruct (callers_inv_exec ms sched [] _ (callers_inv_boot ms fs)) as (Hc & Hex & Hlen & Hth).
  fold st in Hc, Hex, Hlen, Hth. simpl in Hth.
  split; [|split].
  - unfold arc_consistent in Hc. rewrite Hc. destruct (Archive.done _); simpl; lia.
  - intros i seen r Hi Hr.
    assert (exists m, ms !! i = Some m) as [m Hm].
    { apply lookup_lt_is_Some. rewrite <- Hlen. apply lookup_lt_is_Some. eauto. }
    destruct (Hth i m Hm) as (p & Hp & (mid & seen' & _ & _ & Hshape & _ & Hseen)).
    rewrite Hi in Hp. injection Hp as <-.
    destruct mid; [discriminate|].
    destruct (m - length seen'); simpl in Hshape; [|discriminate].
    injection Hshape as ->. destruct (Hseen r Hr) as [Hd ->].
    unfold arc_consistent in Hc. rewrite Hc, Hd. reflexivity.
  - intros Hfair i m Hm.
    destruct (Hth i m Hm) as (p & Hp & (mid & seen & Hk & Hle & Hshape & _ & _)).
    specialize (Hfair i m Hm).
    rewrite Nat.min_l in Hk by exact Hfair.
    destruct mid; [lia|]. replace (m - length seen) with 0 in Hshape by lia.
    exists seen. split; [rewrite Hp, Hshape; reflexivity|lia].
Qed.

End Callers.

Section Kept.
Variable env : Env.
Context {A : Type}.
Variable spawn : Task -> Prog A.

Lemma archive_kept_record {R} (c : Call R) r w :
  archive_kept w -> archive_kept (record c r w).
Proof.
  unfold archive_kept. simpl. intros H Hd He. rewrite count_cons.
  destruct (H Hd He) as [Hin|Hrm]; [|right; lia].
  destruct c; simpl; auto.
  - left. unfold archive_written. destruct (snd r); [exact Hin|]. apply elem_of_union_r, Hin.
  - right. lia.
Qed.

Lemma archive_kept_once w : archive_kept w -> archive_kept (once_do env w).
Proof.
  unfold once_do. destruct (Archive.done (arc w)) eqn:Hd; [auto|].
  intros _. unfold archive_kept. simpl. intros _ He. unfold archive_written. rewrite He.
  left. apply elem_of_union_l, elem_of_singleton. reflexivity.
Qed.

Lemma archive_kept_step st tid :
  archive_kept (world st) -> archive_kept (world (step env spawn st tid)).
Proof.
  intros H. unfold step. destruct (exited st); [exact H|].
  destruct (threads st !! tid) as [p|]; [|exact H].
  destruct p; simpl; auto using archive_kept_record, archive_kept_once.
  destruct (find_receiver (threads st) 0) as [[j kr]|]; exact H.
Qed.

Lemma archive_kept_exec sched : forall st,
  archive_kept (world st) -> archive_kept (world (exec env spawn sched st)).
Proof.
  induction sched as [|tid sched IH]; intros st H; simpl; [exact H|].
  apply IH, archive_kept_step, H.
Qed.

End Kept.

Section Process.
Variable env : Env.
Variable ToUpper : string -> string.
Variable fl : Flags.
Variable images : list (string * GCEImage).
Variable fs : gset string.

Lemma process_pool_inv sched :
  pool_inv is_remove (process fl images)
    (exec env (task_body ToUpper fl) sched (boot (process fl images) fs)).
Proof.
  apply pool_inv_exec; [apply task_body_worker|reflexivity|apply pool_inv_boot].
Qed.

Lemma process_verdict sched :
  let st := exec env (task_body ToUpper fl) sched (boot (process fl images) fs) in
  length (received st) <= targets fl images /\
  forall c, exited st = Some c ->
    exists evs, verdict (targets fl images) c (received st) evs /\
                List.filter is_remove (trace (world st)) = List.filter is_remove evs.
Proof.
  intros st. destruct (process_pool_inv sched) as (p0 & rest & evs & _ & Hreach & _ & Hex & Htr).
  fold st in Hreach, Hex, Htr.
  destruct (process_triple fl images _ _ _ Hreach) as (Hlen & _ & Hx).
  split; [exact Hlen|]. intros c Hc. exists evs. split; [|exact Htr].
  apply Hx, Hex, Hc.
Qed.

Lemma process_collects sched :
  let st := exec env (task_body ToUpper fl) sched (boot (process fl images) fs) in
  length (received st) <= targets fl images /\
  forall c, exited st = Some c ->
    (c = 255%Z /\ received st = []) \/
    (length (received st) = targets fl images /\
     c = if forallb exitOk (received st) then 0%Z else 1%Z).
Proof.
  intros st. destruct (process_verdict sched) as [Hlen Hv]. fold st in Hlen, Hv.
  split; [exact Hlen|]. intros c Hc. destruct (Hv c Hc) as (evs & Hver & _).
  destruct Hver as [(-> & -> & _)|[(-> & Hl & Hok & _)|(-> & Hl & Hok)]]; auto.
  - right. rewrite Hok. auto.
  - right. rewrite Hok. auto.
Qed.

Lemma filter_nil_count f (l : list Event) : List.filter f l = [] -> count f l = 0.
Proof. unfold count. intros ->. reflexivity. Qed.

Lemma forallb_not_remove l : forallb not_remove l = true -> List.filter is_remove l = [].
Proof.
  induction l as [|e l IH]; simpl; [reflexivity|].
  unfold not_remove at 1. intros [He Hl]%andb_true_iff. apply negb_true_iff in He.
  rewrite He. auto.
Qed.

(** C7: a run that exits with another status than 0 has never called
    os.Remove: os.Exit and glog.Fatalf leave the deferred [deleteArchive]
    aside, and an archive that was built is still among the files when the
    process ends. *)
Theorem a_failed_run_leaves_the_archive_behind sched c :
  let st := exec env (task_body ToUpper fl) sched (boot (process fl images) fs) in
  exited st = Some c -> c <> 0%Z ->
  count is_remove (trace (world st)) = 0 /\
  (Archive.done (arc (world st)) = true -> Archive.err (arc (world st)) = None ->
   Archive.path (arc (world st)) ∈ files (world st)).
Proof.
  intros st Hc Hne. destruct (process_verdict sched) as [_ Hv]. fold st in Hv.
  destruct (Hv c Hc) as (evs & Hver & Htr).
  assert (count is_remove (trace (world st)) = 0) as Hrm.
  { apply filter_nil_count. rewrite Htr. apply forallb_not_remove.
    destruct Hver as [(_ & _ & H)|[(_ & _ & _ & H)|(-> & _)]]; [exact H|exact H|congruence]. }
  split; [exact Hrm|]. intros Hd He.
  assert (archive_kept (world st)) as Hk.
  { apply archive_kept_exec. unfold archive_kept. simpl. discriminate. }
  destruct (Hk Hd He) as [Hin|Hlt]; [exact Hin|lia].
Qed.

End Process.

Section Probes.
Variable env : Env.
Variable ToUpper : string -> string.
Variable fl : Flags.

(** In one pass through the loop the probe is issued exactly when the poll
    reported a running instance, and the pass ends the loop exactly when
    the probe passed. *)
Lemma attempt_probes name i w :
  exists b err new,
    run env (createInstance_attempt ToUpper fl name i) w = (Returned (b, err), logged new w) /\
    count is_probe new = count (is_running_poll ToUpper) new /\
    count is_passing_probe new = (if b then 1 else 0).
Proof.
  unfold createInstance_attempt, mbind, Prog_bind.
  rewrite !run_bind.
  destruct (0 <? i) eqn:Hi; simpl;
  match goal with |- context [env _ ?t (InstancesGet ?p ?z ?n)] =>
    destruct (env _ t (InstancesGet p z n)) as [inst [e|]] eqn:Hget end;
  try match goal with |- context [ToUpper _] =>
    destruct (ToUpper (Status inst) =? "RUNNING")%string eqn:Hrun; simpl;
    try (rewrite run_bind; destruct (0 <? String.length (getExternalIp inst)); simpl;
         match goal with |- context [env _ ?t (RunSshCommand ?c ?a)] =>
           destruct (env _ t (RunSshCommand c a)) as [out [e|]] eqn:Hssh end;
         try (destruct (Contains out "Server") eqn:Hsrv; simpl)) end.
  all: do 2 eexists; pick_new.
  all: unfold count;
    cbn [List.filter is_probe is_running_poll is_passing_probe reports_running probe_passes
         fst snd];
    rewrite ?Hrun, ?Hsrv; split; reflexivity.
Qed.

Lemma poll_probes name fuel : forall i err0 w,
  exists err new,
    run env (createInstance_poll ToUpper fl name fuel i false err0) w = (Returned err, logged new w) /\
    count is_probe new = count (is_running_poll ToUpper) new /\
    count is_passing_probe new <= 1.
Proof.
  induction fuel as [|fuel IH]; intros i err0 w.
  - exists err0, []. rewrite logged_nil. split; [reflexivity|]. split; [reflexivity|cbv; lia].
  - cbn [createInstance_poll]. unfold mbind, Prog_bind. rewrite run_bind.
    destruct (attempt_probes name i w) as (b & e1 & new1 & -> & Hp & Hb).
    destruct b.
    + rewrite (poll_running env ToUpper fl). exists e1, new1. split; [reflexivity|].
      split; [exact Hp|lia].
    + destruct (IH (S i) e1 (logged new1 w)) as (err & new2 & -> & Hp2 & Hb2).
      exists err, (new2 ++ new1). rewrite logged_app. split; [reflexivity|].
      rewrite !(count_app). lia.
Qed.

Lemma attempt_probe name i w (passes : bool) :
  (forall tr, reports_running ToUpper (env _ tr (InstancesGet (project fl) (zone fl) name)) = true) ->
  (forall tr cmd args, count is_probe tr = count is_probe (trace w) ->
                       probe_passes (env _ tr (RunSshCommand cmd args)) = passes) ->
  exists err new,
    run env (createInstance_attempt ToUpper fl name i) w = (Returned (passes, err), logged new w) /\
    count is_get new = 1 /\ count is_probe new = 1 /\
    (passes = true <-> err = None).
Proof.
  intros Hrun Hprobe. unfold createInstance_attempt, mbind, Prog_bind. rewrite !run_bind.
  destruct (0 <? i); simpl;
  match goal with |- context [env _ ?t (InstancesGet ?p ?z ?n)] =>
    specialize (Hrun t); unfold reports_running in Hrun;
    destruct (env _ t (InstancesGet p z n)) as [inst [e|]] end; simpl in *.
  all: try discriminate.
  all: rewrite Hrun; simpl; rewrite run_bind.
  all: destruct (0 <? String.length (getExternalIp inst)); simpl.
  all: match goal with |- context [env _ ?t (RunSshCommand ?c ?a)] =>
         specialize (Hprobe t c a eq_refl); unfold probe_passes in Hprobe;
         destruct (env _ t (RunSshCommand c a)) as [out [e|]] end; simpl in *.
  all: subst passes; simpl.
  all: try (destruct (Contains out "Server"); simpl).
  all: eexists; pick_new.
  all: split; [reflexivity|]; split; [reflexivity|]; split; congruence.
Qed.

Lemma poll_failed_probes name fuel : forall i err0 w j,
  (forall tr, reports_running ToUpper (env _ tr (InstancesGet (project fl) (zone fl) name)) = true) ->
  (forall tr cmd args,
     probe_passes (env _ tr (RunSshCommand cmd args))
     = (count is_probe (trace w) + j <=? count is_probe tr)) ->
  exists err new,
    run env (createInstance_poll ToUpper fl name fuel i false err0) w = (Returned err, logged new w) /\
    if j <? fuel
    then err = None /\ count is_get new = S j /\ count is_probe new = S j
    else (fuel = 0 -> err = err0) /\ (0 < fuel -> err <> None) /\
         count is_get new = fuel /\ count is_probe new = fuel.
Proof.
  induction fuel as [|fuel IH]; intros i err0 w j Hrun Hprobe.
  - exists err0, []. rewrite logged_nil. split; [reflexivity|].
    replace (j <? 0) with false by (symmetry; apply Nat.ltb_ge; lia).
    repeat split; auto. lia.
  - cbn [createInstance_poll]. unfold mbind, Prog_bind. rewrite run_bind.
    destruct (attempt_probe name i w (j =? 0) Hrun) as (e1 & new1 & -> & Hg1 & Hp1 & He1).
    { intros tr cmd args Htr. rewrite Hprobe, Htr.
      destruct j; simpl.
      - apply Nat.leb_le. lia.
      - apply Nat.leb_gt. lia. }
    destruct j as [|j]; cbn [Nat.eqb].
    + rewrite (poll_running env ToUpper fl). exists e1, new1. split; [reflexivity|].
      simpl. split; [by apply He1|auto].
    + destruct (IH (S i) e1 (logged new1 w) j Hrun) as (err & new2 & -> & Hcase).
      { intros tr cmd args. rewrite Hprobe. simpl. rewrite count_app, Hp1.
        f_equal. lia. }
      exists err, (new2 ++ new1). rewrite logged_app. split; [reflexivity|].
      rewrite !count_app, Hg1, Hp1.
      change (S j <? S fuel) with (j <? fuel).
      destruct (j <? fuel).
      * destruct Hcase as (-> & -> & ->). repeat split; lia.
      * destruct Hcase as (Hz & Hnz & -> & ->).
        split; [discriminate|]. split; [|lia].
        intros _. destruct fuel as [|fuel'].
        -- rewrite (Hz eq_refl). intros ->. destruct He1 as [_ He1]. by specialize (He1 eq_refl).
        -- apply Hnz. lia.
Qed.

Lemma createInstance_probes image imageProject w :
  exists name err new,
    run env (createInstance ToUpper fl image imageProject) w
      = (Returned (name, err), logged new w) /\
    count is_probe new = count (is_running_poll ToUpper) new /\
    count is_passing_probe new <= 1.
Proof.
  unfold createInstance. unfold mbind at 1, Prog_bind at 1. rewrite run_bind.
  match goal with |- context [run env (if ?c then ?p else Ret ?i0) w] =>
    assert (exists i new0, run env (if c then p else Ret i0) w = (Returned i, logged new0 w)
                           /\ forallb is_metadata_io new0 = true) as (i & new0 & -> & Hs0)
  end.
  { destruct (negb _).
    - unfold mbind, Prog_bind. rewrite run_bind. unfold parseInstanceMetadata.
      destruct (metadata_spec env (Split (instanceMetadata fl) ",") [] w) as (md & new0 & -> & Hs0).
      simpl. eauto.
    - eexists _, []. rewrite logged_nil. split; reflexivity. }
  assert (count is_probe new0 = 0) as Hp0
    by (apply (count_none _ is_metadata_io); [by_kind|assumption]).
  assert (count (is_running_poll ToUpper) new0 = 0) as Hr0
    by (apply (count_none _ is_metadata_io); [by_kind|assumption]).
  assert (count is_passing_probe new0 = 0) as Hq0
    by (apply (count_none _ is_metadata_io); [by_kind|assumption]).
  unfold mbind, Prog_bind. rewrite run_bind, run_call.
  set (ins := InstancesInsert (project fl) (zone fl) i).
  destruct (env _ (trace (logged new0 w)) ins) as [op [e|]] eqn:Hins.
  - exists "", (Some e), (Called ins (op, Some e) :: new0). split; [reflexivity|].
    rewrite !count_cons, Hp0, Hr0, Hq0. simpl. lia.
  - destruct (op_Error op) as [oe|] eqn:Hop.
    + eexists "", (Some _), (Called ins (op, None) :: new0). split; [reflexivity|].
      rewrite !count_cons, Hp0, Hr0, Hq0. simpl. lia.
    + rewrite run_bind.
      match goal with |- context [run env (createInstance_poll _ _ ?n _ _ _ _) ?w1] =>
        destruct (poll_probes n 30 0 None w1) as (err & newp & -> & Hp & Hq) end.
      exists (imageToInstanceName fl image), err, (newp ++ Called ins (op, None) :: new0).
      split; [unfold logged; simpl; by rewrite <- app_assoc|].
      rewrite !count_app, !count_cons, Hp0, Hr0, Hq0. simpl. lia.
Qed.

Lemma createInstance_failed_probes image imageProject w j :
  failed_probes_scenario env ToUpper fl image w j ->
  exists err new,
    run env (createInstance ToUpper fl image imageProject) w
      = (Returned (imageToInstanceName fl image, err), logged new w) /\
    if j <? 30
    then err = None /\ count is_get new = S j /\ count is_probe new = S j
    else err <> None /\ count is_get new = 30 /\ count is_probe new = 30.
Proof.
  intros (Hins & Hrun & Hprobe).
  unfold createInstance. unfold mbind at 1, Prog_bind at 1. rewrite run_bind.
  match goal with |- context [run env (if ?c then ?p else Ret ?i0) w] =>
    assert (exists i new0, run env (if c then p else Ret i0) w = (Returned i, logged new0 w)
                           /\ forallb is_metadata_io new0 = true) as (i & new0 & -> & Hs0)
  end.
  { destruct (negb _).
    - unfold mbind, Prog_bind. rewrite run_bind. unfold parseInstanceMetadata.
      destruct (metadata_spec env (Split (instanceMetadata fl) ",") [] w) as (md & new0 & -> & Hs0).
      simpl. eauto.
    - eexists _, []. rewrite logged_nil. split; reflexivity. }
  assert (count is_get new0 = 0) as Hg0 by (apply (count_none _ is_metadata_io); [by_kind|assumption]).
  assert (count is_probe new0 = 0) as Hp0 by (apply (count_none _ is_metadata_io); [by_kind|assumption]).
  unfold mbind, Prog_bind. rewrite run_bind, run_call.
  specialize (Hins (trace (logged new0 w)) i). unfold insert_accepted in Hins.
  destruct (env _ (trace (logged new0 w)) (InstancesInsert (project fl) (zone fl) i))
    as [op [e|]]; simpl in Hins; try discriminate.
  destruct (op_Error op); try discriminate.
  rewrite run_bind.
  match goal with |- context [run env (createInstance_poll _ _ ?n _ _ _ _) ?w1] =>
    destruct (poll_failed_probes n 30 0 None w1 j Hrun) as (err & newp & -> & Hcase) end.
  - intros tr cmd args. rewrite Hprobe. simpl. rewrite count_cons, count_app, Hp0. reflexivity.
  - exists err. eexists (newp ++ _ :: new0). split.
    + unfold logged; simpl. rewrite <- app_assoc. reflexivity.
    + rewrite !count_app, !count_cons, Hg0, Hp0. simpl.
      destruct (j <? 30).
      * destruct Hcase as (-> & -> & ->). repeat split; lia.
      * destruct Hcase as (_ & Hnz & -> & ->). split; [apply Hnz; lia|]. lia.
Qed.

(** C4: the docker probe is issued from within the polling loop, once for
    every poll that reports a running instance, so there are never more
    probes than polls and never more than 30 polls.  A probe that fails
    does not end the loop: the next attempt polls the instance again, and
    an error is returned, once the insert was accepted, only when all 30
    attempts are used, whether they failed at the poll or at the probe.
    [createInstance] returns without an error only straight after a passing
    probe, the first one to pass, the latest poll having reported a running
    instance.  When the third poll is the first to report RUNNING and the
    probe passes, creation succeeds after exactly 3 polls and 1 probe; when
    the instance is running at once and the first [j] probes fail, creation
    succeeds after [j+1] polls and [j+1] probes if [j < 30], and fails
    after 30 polls and 30 probes otherwise. *)
Theorem failed_probes_draw_on_the_polling_budget image imageProject w :
  exists name err new,
    run env (createInstance ToUpper fl image imageProject) w
      = (Returned (name, err), logged new w) /\
    count is_probe new <= count is_get new /\
    count is_get new <= 30 /\
    count is_probe new = count (is_running_poll ToUpper) new /\
    count is_passing_probe new <= 1 /\
    (err = None ->
     (exists e rest, new = e :: rest /\ is_passing_probe e = true) /\
     (exists g, List.find is_get new = Some g /\ is_running_poll ToUpper g = true)) /\
    (err <> None -> existsb is_accepted_insert new = true -> count is_get new = 30) /\
    (third_poll_scenario env ToUpper fl image w ->
     err = None /\ count is_get new = 3 /\ count is_probe new = 1) /\
    (forall j, failed_probes_scenario env ToUpper fl image w j ->
       if j <? 30
       then err = None /\ count is_get new = S j /\ count is_probe new = S j
       else err <> None /\ count is_get new = 30 /\ count is_probe new = 30).
Proof.
  destruct (createInstance_spec env ToUpper fl image imageProject w)
    as (name & err & new & Hcreate & F).
  exists name, err, new. split; [exact Hcreate|].
  split; [apply F|]. split; [apply F|].
  destruct (createInstance_probes image imageProject w) as (name' & err' & new' & Hrun & Hp & Hq).
  rewrite Hcreate in Hrun. injection Hrun as _ _ Hnew. apply app_inv_tail in Hnew. subst new'.
  split; [exact Hp|]. split; [exact Hq|]. split; [apply F|].
  split; [intros He Ha; by apply F|]. split.
  - intros Hs.
    destruct (createInstance_third_poll env ToUpper fl image imageProject w Hs)
      as (new' & Hrun & Hg & Hp').
    rewrite Hcreate in Hrun. injection Hrun as _ -> Hnew.
    apply app_inv_tail in Hnew. subst new'. auto.
  - intros j Hs.
    destruct (createInstance_failed_probes image imageProject w j Hs) as (err2 & new2 & Hrun & Hc).
    rewrite Hcreate in Hrun. injection Hrun as _ -> Hnew.
    apply app_inv_tail in Hnew. subst new2. exact Hc.
Qed.

End Probes.

(** ** The compute client and the exit status *)

Lemma exits_with_bind {A B} P (p : Prog A) (f : A -> Prog B) :
  exits_with P p -> (forall a, exits_with P (f a)) -> exits_with P (bind p f).
Proof. induction p; simpl; auto. Qed.

Lemma local_exits_with {A} P (p : Prog A) : local p -> exits_with P p.
Proof. induction p; simpl; auto; contradiction. Qed.

(** A program confined to calls of one kind, whatever it receives. *)
Lemma triple_kind {A} (ok : Event -> bool) (P : Z -> Prop) (p : Prog A) :
  confined ok p -> exits_with P p ->
  triple (fun _ e => forallb ok e = true)
         (fun _ _ e => forallb ok e = true)
         (fun c _ e => P c /\ forallb ok e = true) p.
Proof.
  induction p as [a|c|R c k IH|k IH|k IH|t k IH|tr k IH|k IH]; simpl; intros Hc Hx.
  - apply triple_ret; auto.
  - apply triple_exit; auto.
  - destruct Hc as [Hc1 Hc2]. apply triple_ext; [auto|]. intros r.
    eapply triple_weaken; [apply (IH r (Hc2 r) (Hx r))|..]; simpl.
    + intros l e He. rewrite forallb_app, He. simpl. by rewrite Hc1.
    + intros _ l e He. rewrite forallb_app, He. simpl. by rewrite Hc1.
    + intros x l e [Hp He]. split; [exact Hp|]. rewrite forallb_app, He. simpl. by rewrite Hc1.
  - destruct Hc as [Hc1 Hc2]. apply triple_once; auto.
  - apply triple_read; auto.
  - apply triple_go; auto.
  - intros l evs q [(<- & -> & ->)|H].
    + split; [auto|]. split; discriminate.
    + apply (IH Hc Hx _ _ _ H).
  - apply triple_recv; [auto|]. intros tr. apply IH; auto.
Qed.

Section ClientFacts.
Variable fl : Flags.
Variable ok : Event -> bool.
Hypothesis ok_printf : forall m r, ok (Called (Printf m) r) = true.

Lemma main_images_kind images : forall r, confined ok (main_images images r).
Proof.
  induction images as [|[s i] images IH]; intros; simpl; [exact I|].
  split; [intros; apply ok_printf|]. intros _. apply IH.
Qed.

Lemma main_hosts_kind hs : forall r, confined ok (main_hosts hs r).
Proof.
  induction hs as [|h hs IH]; intros; simpl; [exact I|].
  split; [intros; apply ok_printf|]. intros _. apply IH.
Qed.

Lemma main_collect_kind n : forall ec b, confined ok (main_collect fl n ec b).
Proof.
  induction n as [|n IH]; intros; simpl; [exact I|].
  intros tr. split; [intros; apply ok_printf|]. intros _.
  destruct (err tr); simpl; (split; [intros; apply ok_printf|]); intros _;
    (split; [intros; apply ok_printf|]); intros _; apply IH.
Qed.

Lemma main_images_exits P images : forall r, exits_with P (main_images images r).
Proof. induction images as [|[s i] images IH]; intros; simpl; [exact I|]. intros _. apply IH. Qed.

Lemma main_hosts_exits P hs : forall r, exits_with P (main_hosts hs r).
Proof. induction hs as [|h hs IH]; intros; simpl; [exact I|]. intros _. apply IH. Qed.

Lemma main_collect_exits P n : forall ec b, exits_with P (main_collect fl n ec b).
Proof.
  induction n as [|n IH]; intros; simpl; [exact I|].
  intros tr _. destruct (err tr); simpl; intros _ _; apply IH.
Qed.

End ClientFacts.

Lemma existsb_snoc {X} (f : X -> bool) l x : existsb f (l ++ [x]) = existsb f l || f x.
Proof. rewrite existsb_app. simpl. by rewrite orb_false_r. Qed.

Lemma count_snoc f (l : list Event) x : count f (l ++ [x]) = count f l + (if f x then 1 else 0).
Proof. rewrite count_app. unfold count at 2. simpl. destruct (f x); reflexivity. Qed.

(** What the retry loop of [getComputeClient] has called when it returns. *)
Lemma getComputeClient_try_triple fuel : forall i err0,
  triple (fun l e => l = [])
         (fun a l e =>
            l = [] /\
            ((snd a = None /\ existsb makes_service e = true) \/
             (existsb makes_service e = false /\ count is_default_client e = fuel /\
              (0 < fuel -> snd a <> None) /\ (fuel = 0 -> snd a = err0))))
         (fun _ _ _ => False)
         (getComputeClient_try fuel i err0).
Proof.
  induction fuel as [|fuel IH]; intros i err0.
  - apply triple_ret; [reflexivity|]. split; [reflexivity|]. right. repeat split; auto. lia.
  - cbn [getComputeClient_try]. unfold mbind, Prog_bind.
    assert (Hbody : forall pre,
      existsb makes_service pre = false -> count is_default_client pre = 0 ->
      triple (fun l e => l = [])
        (fun a l e =>
           l = [] /\
           ((snd a = None /\ existsb makes_service (e ++ pre) = true) \/
            (existsb makes_service (e ++ pre) = false /\
             count is_default_client (e ++ pre) = S fuel /\
             (0 < S fuel -> snd a <> None) /\ (S fuel = 0 -> snd a = err0))))
        (fun _ _ _ => False)
        (bind (call DefaultClient)
           (fun '(client, err) =>
              match err with
              | Some _ => getComputeClient_try fuel (S i) err
              | None =>
                  bind (call (ComputeNew client))
                    (fun '(cs, err) =>
                       match err with
                       | Some _ => getComputeClient_try fuel (S i) err
                       | None => Ret (Some cs, None)
                       end)
              end))).
    { intros pre Hm Hd. cbn [bind call]. apply triple_ext; [reflexivity|].
      intros [client [e|]].
      - eapply triple_weaken; [apply (IH (S i) (Some e))|..]; simpl; auto.
        intros a l ev (-> & H). split; [reflexivity|].
        rewrite <- !app_assoc. cbn [app].
        rewrite !existsb_app, !count_app, !count_cons. cbn [existsb]. rewrite Hm, Hd. simpl.
        destruct H as [(Ha & He)|(He & Hc & Hnz & Hz)].
        + left. rewrite He. auto.
        + right. rewrite He. split; [reflexivity|]. split; [lia|].
          split; [|lia]. intros _. destruct fuel as [|fuel'].
          * rewrite (Hz eq_refl). discriminate.
          * apply Hnz. lia.
      - cbn [bind call]. apply triple_ext; [reflexivity|].
        intros [cs [e|]].
        + eapply triple_weaken; [apply (IH (S i) (Some e))|..]; simpl; auto.
          intros a l ev (-> & H). split; [reflexivity|].
          rewrite <- !app_assoc. cbn [app].
          rewrite !existsb_app, !count_app, !count_cons. cbn [existsb]. rewrite Hm, Hd. simpl.
          destruct H as [(Ha & He)|(He & Hc & Hnz & Hz)].
          * left. rewrite He. auto.
          * right. rewrite He. split; [reflexivity|]. split; [lia|].
            split; [|lia]. intros _. destruct fuel as [|fuel'].
            -- rewrite (Hz eq_refl). discriminate.
            -- apply Hnz. lia.
        + apply triple_ret; [reflexivity|]. split; [reflexivity|]. left. auto. }
    destruct (0 <? i).
    + cbn [bind call]. apply triple_ext; [reflexivity|]. intros [].
      eapply triple_weaken; [apply (Hbody [Called (Sleep backoff) tt]); reflexivity|..]; auto.
    + cbn [bind]. eapply triple_weaken; [apply (Hbody []); reflexivity|..]; simpl; auto.
      intros a l e. rewrite app_nil_r. auto.
Qed.

Lemma existsb_filter (f g : Event -> bool) (l : list Event) :
  (forall e, g e = true -> f e = true) -> existsb g (List.filter f l) = existsb g l.
Proof.
  intros H. induction l as [|e l IH]; simpl; [reflexivity|].
  destruct (f e) eqn:Hf; simpl; rewrite IH; [reflexivity|].
  destruct (g e) eqn:Hg; [|reflexivity]. rewrite (H e Hg) in Hf. discriminate.
Qed.

Lemma count_filter (f g : Event -> bool) (l : list Event) :
  (forall e, g e = true -> f e = true) -> count g (List.filter f l) = count g l.
Proof.
  intros H. induction l as [|e l IH]; simpl; [reflexivity|].
  destruct (f e) eqn:Hf; rewrite !count_cons || rewrite count_cons; rewrite IH; [reflexivity|].
  destruct (g e) eqn:Hg; [|reflexivity]. rewrite (H e Hg) in Hf. discriminate.
Qed.

Lemma client_verdict_filter c (tr evs : list Event) :
  List.filter is_client_attempt tr = List.filter is_client_attempt evs ->
  client_verdict c evs -> client_verdict c tr.
Proof.
  intros Hf.
  assert (existsb makes_service tr = existsb makes_service evs) as He.
  { rewrite <- (existsb_filter is_client_attempt makes_service tr),
            <- (existsb_filter is_client_attempt makes_service evs), Hf; [reflexivity| |];
      intros [? [] ?]; cbn; congruence. }
  assert (count is_default_client tr = count is_default_client evs) as Hc.
  { rewrite <- (count_filter is_client_attempt is_default_client tr),
            <- (count_filter is_client_attempt is_default_client evs), Hf; [reflexivity| |];
      intros [? [] ?]; cbn; congruence. }
  unfold client_verdict, client_failed, client_made. rewrite He, Hc. auto.
Qed.

Section ProcessClient.
Variable env : Env.
Variable ToUpper : string -> string.
Variable fl : Flags.
Variable images : list (string * GCEImage).
Variable fs : gset string.

Lemma process_client_triple :
  triple (fun _ _ => True) (fun _ _ _ => False) (fun c _ e => client_verdict c e)
         (process fl images).
Proof.
  unfold process, main, mbind, Prog_bind. cbn [bind].
  apply triple_go; [exact I|].
  eapply (triple_bind (fun _ _ => True) (fun _ _ e => client_made e)
            (fun c _ e => client_verdict c e)).
  2: auto.
  2: auto.
  2: { intros [] l1 e1 H. apply triple_exit; [exact I|]. right. split; [discriminate|exact H]. }
  unfold defer, mbind, Prog_bind.
  eapply (triple_bind (fun _ _ => True) (fun _ _ e => client_made e)
            (fun c _ e => client_verdict c e)).
  2: auto.
  2: auto.
  2: { intros [] l1 e1 H.
       eapply triple_weaken.
       - apply (triple_kind not_client (fun _ => False)).
         + apply confined_bind; [|intros; exact I].
           unfold deleteArchive, getArchive. repeat quiet_step.
         + apply local_exits_with. apply local_bind; [apply deleteArchive_local|intros; exact I].
       - auto.
       - simpl. intros _ l e _. unfold client_made in *. rewrite existsb_app, H. apply orb_true_r.
       - simpl. intros c l e [[] _]. }
  eapply (triple_bind (fun l e => l = [])
            (fun a l e =>
               l = [] /\
               ((snd a = None /\ existsb makes_service e = true) \/
                (existsb makes_service e = false /\ count is_default_client e = retries /\
                 (0 < retries -> snd a <> None) /\ (retries = 0 -> snd a = None))))
            (fun _ _ _ => False)).
  { apply getComputeClient_try_triple. }
  { auto. }
  { intros c l e []. }
  intros [cs [e0|]] l1 e1 (-> & H); simpl.
  - destruct H as [[H _]|(He & Hc & _)]; [discriminate|].
    unfold glog_Fatalf, mbind, Prog_bind. cbn [bind call].
    apply triple_ext; [exact I|]. intros [].
    apply triple_exit; [exact I|]. left. split; [reflexivity|].
    split; simpl; assumption.
  - destruct H as [[_ He]|(_ & _ & Hnz & _)].
    2: { exfalso. apply Hnz; [unfold retries; lia|reflexivity]. }
    eapply triple_weaken.
    + apply (triple_kind not_client (fun c => c <> 255%Z)).
      * repeat quiet_step;
          first [apply main_images_kind | apply main_hosts_kind | apply main_collect_kind];
          intros; reflexivity.
      * repeat first [ apply exits_with_bind | intros ];
          try apply main_images_exits; try apply main_collect_exits.
        -- destruct (negb _); [apply main_hosts_exits|exact I].
        -- destruct a1 as [ec b]. destruct (negb b); simpl; [intros _; discriminate|exact I].
    + auto.
    + simpl. intros _ l e _. unfold client_made. rewrite existsb_app, He. apply orb_true_r.
    + simpl. intros c l e [Hc _]. right. split; [exact Hc|].
      unfold client_made. rewrite existsb_app, He. apply orb_true_r.
Qed.

Lemma task_body_not_client t : worker is_client_attempt (task_body ToUpper fl t).
Proof.
  split; [apply task_body_worker|].
  destruct t; cbn [task_body]; unfold mbind, Prog_bind.
  - unfold getArchive. repeat quiet_step.
  - apply confined_bind; [|intros; exact I].
    unfold testImage, defer. apply confined_bind.
    { eapply confined_weaken; [|apply createInstance_confined]. by_kind. }
    intros [h e]. apply confined_bind.
    + destruct e; [exact I|]. eapply confined_weaken; [|apply testHost_confined]. by_kind.
    + intros tr. unfold deleteInstance. repeat quiet_step.
  - apply confined_bind; [|intros; exact I].
    eapply confined_weaken; [|apply testHost_confined]. by_kind.
Qed.

(** The exit status tells whether the compute client was made. *)
Lemma process_client sched c :
  let st := exec env (task_body ToUpper fl) sched (boot (process fl images) fs) in
  exited st = Some c -> client_verdict c (trace (world st)).
Proof.
  intros st Hc.
  destruct (pool_inv_exec env (task_body ToUpper fl) is_client_attempt (process fl images)
              task_body_not_client ltac:(reflexivity) sched _
              (pool_inv_boot _ (process fl images) fs))
    as (p0 & rest & evs & _ & Hreach & _ & Hex & Htr).
  fold st in Hreach, Hex, Htr.
  destruct (process_client_triple _ _ _ Hreach) as (_ & _ & Hx).
  apply (client_verdict_filter c _ evs Htr). apply Hx, Hex, Hc.
Qed.

End ProcessClient.

(** ** Tests are run from a built archive only *)

Lemma careful_weaken {A} (p : Prog A) : forall kn (Q Q' : A -> Knows -> Prop),
  (forall a kn', Q a kn' -> Q' a kn') -> careful p kn Q -> careful p kn Q'.
Proof.
  induction p as [a|c|R c k IH|k IH|k IH|t k IH|tr k IH|k IH]; simpl; intros kn Q Q' HQ; eauto.
  - intros [H1 H2]. split; eauto.
  - intros [H1 H2]. split; eauto.
Qed.

Lemma careful_bind {A B} (p : Prog A) (f : A -> Prog B) : forall kn Q,
  careful p kn (fun a kn' => careful (f a) kn' Q) -> careful (bind p f) kn Q.
Proof.
  induction p as [a|c|R c k IH|k IH|k IH|t k IH|tr k IH|k IH]; simpl; intros kn Q; eauto.
  - intros [H1 H2]. split; eauto.
  - intros [H1 H2]. split; eauto.
Qed.

(** A function that does not call RunRemote returns without having run
    the tests, if they had not been run before. *)
Lemma careful_local {A} (p : Prog A) :
  local p -> confined not_remote p ->
  forall kn (Q : A -> Knows -> Prop),
    (forall a kn', kn_ran kn' = kn_ran kn -> Q a kn') -> careful p kn Q.
Proof.
  induction p as [a|c|R c k IH|k IH|k IH|t k IH|tr k IH|k IH]; simpl; try tauto.
  - intros _ _ kn Q HQ. by apply HQ.
  - intros Hl [Hc Hk] kn Q HQ.
    assert (calls_RunRemote c = false) as Hno.
    { destruct c; try reflexivity. specialize (Hc ("", false, None)). discriminate. }
    split; [rewrite Hno; discriminate|]. intros r. apply IH; auto.
    simpl. rewrite Hno, orb_false_r. exact HQ.
  - intros Hl [_ Hk] kn Q HQ. apply IH; auto.
  - intros Hl Hk kn Q HQ r. apply IH; auto.
Qed.

Lemma confined_bind2 {A B C} ok (p : Prog A) (f : A -> Prog B) (g : B -> Prog C) :
  confined ok p -> (forall a, confined ok (bind (f a) g)) ->
  confined ok (bind (bind p f) g).
Proof. intros Hp Hf. induction p; simpl in *; intuition auto. Qed.

Section CreateKind.
Variable ToUpper : string -> string.
Variable fl : Flags.
Variable ok : Event -> bool.
Hypothesis ok_create : forall e, is_polling e || is_setup e = true -> ok e = true.

Lemma createInstance_poll_kind name fuel : forall i b err,
  confined ok (createInstance_poll ToUpper fl name fuel i b err).
Proof.
  induction fuel; intros; simpl; [exact I|]. destruct b; [exact I|].
  apply confined_bind; [|intros []; apply IHfuel].
  unfold createInstance_attempt.
  repeat first [quiet_step | apply ok_create; reflexivity].
Qed.

Lemma parseInstanceMetadata_kind ss : forall md,
  confined ok (parseInstanceMetadata_entries ss md).
Proof.
  induction ss; intros; simpl; [exact I|].
  repeat first [quiet_step | apply ok_create; reflexivity]; auto.
Qed.

Lemma createInstance_kind image imageProject :
  confined ok (createInstance ToUpper fl image imageProject).
Proof.
  unfold createInstance, parseInstanceMetadata, mbind, Prog_bind.
  destruct (negb _).
  - apply confined_bind2; [apply parseInstanceMetadata_kind|]. intros raw.
    cbn [bind]. repeat first [quiet_step | apply ok_create; reflexivity];
      auto using createInstance_poll_kind.
  - cbn [bind]. repeat first [quiet_step | apply ok_create; reflexivity];
      auto using createInstance_poll_kind.
Qed.

End CreateKind.

Section Careful.
Variable ToUpper : string -> string.
Variable fl : Flags.

Lemma testHost_careful host deleteFiles n sn kn :
  careful (testHost ToUpper fl host deleteFiles n sn) kn
    (fun tr kn' => kn_ran kn' = false -> not_run tr).
Proof.
  unfold testHost, getArchive, mbind, Prog_bind. cbn [bind call careful calls_RunRemote].
  split; [discriminate|]. intros [inst [e|]].
  - cbn [careful]. intros _. split; [reflexivity|discriminate].
  - destruct (negb _).
    + cbn [careful]. intros _. split; [reflexivity|discriminate].
    + destruct (0 <? _); cbn [bind call careful calls_RunRemote kn_once kn_ok kn_ran].
      * split; [discriminate|]. intros _ [path [e|]]; cbn [bind call careful snd is_none].
        -- intros _. split; [reflexivity|discriminate].
        -- split; [intros _; cbn; apply orb_true_r|]. intros [[out b] e].
           cbn. rewrite orb_true_r. discriminate.
      * intros [path [e|]]; cbn [bind call careful snd is_none].
        -- intros _. split; [reflexivity|discriminate].
        -- split; [intros _; cbn; apply orb_true_r|]. intros [[out b] e].
           cbn. rewrite orb_true_r. discriminate.
Qed.

Lemma createInstance_not_remote image imageProject :
  confined not_remote (createInstance ToUpper fl image imageProject).
Proof. apply createInstance_kind. by_kind. Qed.

Lemma deleteInstance_not_remote image : confined not_remote (deleteInstance fl image).
Proof. unfold deleteInstance. repeat quiet_step. Qed.

Lemma testImage_careful image imageProject n kn :
  careful (testImage ToUpper fl image imageProject n) kn
    (fun tr kn' => kn_ran kn' = false -> not_run tr).
Proof.
  unfold testImage, defer, mbind, Prog_bind.
  apply careful_bind.
  apply careful_local; [apply createInstance_local|apply createInstance_not_remote|].
  intros [host [e|]] kn1 _.
  - cbn [bind]. apply careful_bind.
    apply careful_local.
    + destruct (deleteInstances fl); [apply deleteInstance_local|exact I].
    + destruct (deleteInstances fl); [apply deleteInstance_not_remote|exact I].
    + intros _ kn2 _. simpl. intros _. split; [reflexivity|discriminate].
  - apply careful_bind.
    eapply careful_weaken; [|apply testHost_careful].
    intros tr kn2 Htr. apply careful_bind.
    apply careful_local.
    + destruct (deleteInstances fl); [apply deleteInstance_local|exact I].
    + destruct (deleteInstances fl); [apply deleteInstance_not_remote|exact I].
    + intros _ kn3 Hkn. simpl. rewrite Hkn. exact Htr.
Qed.

Lemma task_body_careful t kn : careful (task_body ToUpper fl t) kn (fun _ _ => True).
Proof.
  destruct t; cbn [task_body]; unfold mbind, Prog_bind.
  - unfold getArchive. simpl. auto.
  - apply careful_bind. eapply careful_weaken; [|apply testImage_careful].
    intros tr kn' H. simpl. auto.
  - apply careful_bind. eapply careful_weaken; [|apply testHost_careful].
    intros tr kn' H. simpl. auto.
Qed.

Lemma careful_ext {A R} (c : Call R) (k : R -> Prog A) kn Q :
  calls_RunRemote c = false -> (forall r, careful (k r) kn Q) -> careful (Ext c k) kn Q.
Proof.
  intros Hc Hk. simpl. rewrite Hc. split; [discriminate|].
  intros r. rewrite orb_false_r. destruct kn. apply Hk.
Qed.

Lemma main_images_careful images : forall r kn (Q : nat -> Knows -> Prop),
  (forall a, Q a kn) -> careful (main_images images r) kn Q.
Proof.
  induction images as [|[s i] images IH]; intros r kn Q HQ; [apply HQ|].
  cbn [main_images]. unfold mbind, Prog_bind. cbn [bind call].
  apply careful_ext; [reflexivity|]. intros _. cbn [careful]. apply IH. exact HQ.
Qed.

Lemma main_hosts_careful hs : forall r kn (Q : nat -> Knows -> Prop),
  (forall a, Q a kn) -> careful (main_hosts hs r) kn Q.
Proof.
  induction hs as [|h hs IH]; intros r kn Q HQ; [apply HQ|].
  cbn [main_hosts]. unfold mbind, Prog_bind. cbn [bind call].
  apply careful_ext; [reflexivity|]. intros _. cbn [careful]. apply IH. exact HQ.
Qed.

Lemma main_collect_careful n : forall ec b kn (Q : nat * bool -> Knows -> Prop),
  (forall a, Q a kn) -> careful (main_collect fl n ec b) kn Q.
Proof.
  induction n as [|n IH]; intros ec b kn Q HQ; [apply HQ|].
  cbn [main_collect]. unfold mbind, Prog_bind. cbn [bind call careful].
  intros tr. apply careful_ext; [reflexivity|]. intros _.
  destruct (err tr); cbn [bind call]; (apply careful_ext; [reflexivity|]); intros _;
    cbn [bind call]; (apply careful_ext; [reflexivity|]); intros _; apply IH; exact HQ.
Qed.

Lemma getComputeClient_try_not_remote fuel : forall i err,
  confined not_remote (getComputeClient_try fuel i err).
Proof. induction fuel; intros; simpl; [exact I|]. repeat quiet_step; auto. Qed.

Lemma process_careful images kn : careful (process fl images) kn (fun _ _ => True).
Proof.
  unfold process, main, defer, mbind, Prog_bind. cbn [bind careful].
  apply careful_bind, careful_bind, careful_bind.
  apply careful_local;
    [apply getComputeClient_try_local
    |apply getComputeClient_try_not_remote|].
  intros [cs [e|]] kn1 _.
  - unfold glog_Fatalf, mbind, Prog_bind. cbn [bind call].
    apply careful_ext; [reflexivity|]. intros _. exact I.
  - assert (forall a kn2,
      careful (bind deleteArchive (fun _ => Ret a)) kn2
        (fun (_ : unit) kn3 => careful (Exit 0%Z : Prog unit) kn3 (fun _ _ => True))) as Hdel.
    { intros a kn2. apply careful_local.
      - apply local_bind; [apply deleteArchive_local|intros; exact I].
      - apply confined_bind; [|intros; exact I].
        unfold deleteArchive, getArchive. repeat quiet_step.
      - intros; exact I. }
    assert (forall r2 : nat,
      careful
        (bind (main_collect fl r2 0 true)
           (fun '(errCount, exitOk_) =>
              if negb exitOk_
              then bind (call (Printf (MsgFailureCount errCount))) (fun _ => Exit 1%Z)
              else Ret tt)) kn1
        (fun a kn' =>
           careful (bind deleteArchive (fun _ => Ret a)) kn'
             (fun (_ : unit) kn3 => careful (Exit 0%Z : Prog unit) kn3 (fun _ _ => True))))
      as Hrest.
    { intros r2. apply careful_bind, main_collect_careful. intros [ec b].
      destruct (negb b).
      - cbn [bind call]. apply careful_ext; [reflexivity|]. intros _. exact I.
      - apply Hdel. }
    apply careful_bind, main_images_careful. intros r1.
    apply careful_bind.
    destruct (negb _); [apply main_hosts_careful; intros r2|]; apply Hrest.
Qed.

End Careful.

Lemma find_receiver_lookup {A} (ts : list (Prog A)) : forall i j kr,
  find_receiver ts i = Some (j, kr) -> i <= j /\ ts !! (j - i) = Some (Recv kr).
Proof.
  induction ts as [|p ts IH]; intros i j kr; simpl; [discriminate|].
  destruct p; try (intros H; apply IH in H as [H1 H2]; split; [lia|];
                   replace (j - i) with (S (j - S i)) by lia; exact H2).
  intros [= <- <-]. split; [lia|]. by rewrite Nat.sub_diag.
Qed.

Lemma knows_true_later w w' kn :
  (Archive.done (arc w) = true -> arc w' = arc w) ->
  count is_run_remote (trace w) <= count is_run_remote (trace w') ->
  knows_true w kn -> knows_true w' kn.
Proof.
  intros Harc Hcount (H1 & H2 & H3). split; [|split].
  - intros H. specialize (H1 H). by rewrite (Harc H1).
  - intros H. destruct (H2 H) as [Hd He]. by rewrite (Harc Hd).
  - intros H. specialize (H3 H). lia.
Qed.

Section CarefulPool.
Variable env : Env.
Context {A : Type}.
Variable spawn : Task -> Prog A.
Hypothesis spawn_careful : forall t kn, careful (spawn t) kn (fun _ _ => True).

Lemma careful_pool_boot (p : Prog A) fs :
  (forall kn, careful p kn (fun _ _ => True)) -> careful_pool (boot p fs).
Proof.
  intros Hp. split; [|split].
  - exists [{| kn_once := false; kn_ok := false; kn_ran := false |}].
    constructor; [|constructor]. split; [apply Hp|].
    split; [|split]; simpl; intros; discriminate.
  - simpl. unfold count. simpl. lia.
  - intros _. constructor.
Qed.

Lemma careful_pool_step st tid : careful_pool st -> careful_pool (step env spawn st tid).
Proof.
  intros Hinv. pose proof Hinv as ((kns & Hall) & Hrr & Hrecv).
  unfold step. destruct (exited st) as [c|]; [exact Hinv|].
  destruct (threads st !! tid) as [p|] eqn:Hp; [|exact Hinv].
  destruct (Forall2_lookup_r _ _ _ _ _ Hall Hp) as (kn & Hkn & Hcare & Htrue).
  set (w := world st) in *.
  destruct p as [a|c|R c k|k|k|t k|tr k|k]; try exact Hinv.
  - (* a call *)
    destruct Hcare as [Hok Hk].
    set (r := env R (trace w) c).
    assert (count is_run_remote (trace (record c r w))
            = (if calls_RunRemote c then 1 else 0) + count is_run_remote (trace w)) as Hcount.
    { simpl. rewrite count_cons. destruct c; reflexivity. }
    split; [|split]; cbn [threads world received].
    + exists (<[tid := {| kn_once := kn_once kn; kn_ok := kn_ok kn;
                           kn_ran := kn_ran kn || calls_RunRemote c |}]> kns).
      apply Forall2_insert.
      * eapply Forall2_impl; [exact Hall|]. intros kn0 p0 [H1 H2]. split; [exact H1|].
        apply (knows_true_later w); [intros _; reflexivity|rewrite Hcount; lia|exact H2].
      * split; [apply Hk|]. destruct Htrue as (H1 & H2 & H3).
        split; [|split]; cbn [kn_once kn_ok kn_ran arc record]; [exact H1|exact H2|].
        intros [H|H]%orb_true_iff; rewrite Hcount; [specialize (H3 H); lia|rewrite H; lia].
    + intros Hpos. simpl. destruct (calls_RunRemote c) eqn:Hc.
      * apply Htrue. by apply Hok.
      * apply Hrr. lia.
    + intros Hz. apply Hrecv. lia.
  - (* the Once *)
    cbn [careful] in Hcare.
    assert (Archive.done (arc w) = true \/ Archive.done (arc w) = false) as [Hdone|Hdone]
      by (destruct (Archive.done (arc w)); auto).
    + assert (once_do env w = w) as Hsame by (unfold once_do; by rewrite Hdone).
      split; [|split]; cbn [threads world received]; rewrite Hsame; [|exact Hrr|exact Hrecv].
      exists (<[tid := {| kn_once := true; kn_ok := kn_ok kn; kn_ran := kn_ran kn |}]> kns).
      apply Forall2_insert; [exact Hall|]. split; [exact Hcare|].
      destruct Htrue as (H1 & H2 & H3). split; [|split]; simpl; auto.
    + assert (count is_run_remote (trace w) = 0) as Hzero.
      { destruct (count is_run_remote (trace w)) eqn:E; [reflexivity|].
        destruct Hrr as [Hd _]; [lia|congruence]. }
      assert (count is_run_remote (trace (once_do env w)) = 0) as Hzero'.
      { unfold once_do. rewrite Hdone. simpl. rewrite count_cons. simpl. exact Hzero. }
      assert (forall kn0, knows_true w kn0 -> knows_true (once_do env w) kn0) as Hlater.
      { intros kn0 (H1 & H2 & H3). split; [|split]; intros H.
        - specialize (H1 H). congruence.
        - destruct (H2 H). congruence.
        - specialize (H3 H). lia. }
      split; [|split]; cbn [threads world received].
      * exists (<[tid := {| kn_once := true; kn_ok := kn_ok kn; kn_ran := kn_ran kn |}]> kns).
        apply Forall2_insert.
        -- eapply Forall2_impl; [exact Hall|]. intros kn0 p0 [H1 H2]. split; auto.
        -- split; [exact Hcare|]. destruct (Hlater kn Htrue) as (H1 & H2 & H3).
           split; [|split]; simpl; auto. intros _. unfold once_do. by rewrite Hdone.
      * rewrite Hzero'. lia.
      * intros _. by apply Hrecv.
  - (* reading the archive *)
    cbn [careful] in Hcare.
    split; [|split]; cbn [threads world received]; [|exact Hrr|exact Hrecv].
    eexists (<[tid := _]> kns). apply Forall2_insert; [exact Hall|].
    split; [apply Hcare|]. destruct Htrue as (H1 & H2 & H3). split; [|split]; simpl; auto.
    intros [H|[Ho Hn]%andb_true_iff]%orb_true_iff; [auto|].
    split; [auto|]. fold w in Hn. destruct (Archive.err (arc w)); [discriminate|reflexivity].
  - (* go *)
    cbn [careful] in Hcare.
    split; [|split]; cbn [threads world received]; [|exact Hrr|exact Hrecv].
    exists (<[tid := kn]> kns ++ [{| kn_once := false; kn_ok := false; kn_ran := false |}]).
    apply Forall2_app.
    + apply Forall2_insert; [exact Hall|]. split; assumption.
    + constructor; [|constructor]. split; [apply spawn_careful|].
      split; [|split]; simpl; intros; discriminate.
  - (* a send *)
    destruct Hcare as [Hsend Hk].
    destruct (find_receiver (threads st) 0) as [[j kr]|] eqn:Hfind; [|exact Hinv].
    apply find_receiver_lookup in Hfind as [_ Hj]. rewrite Nat.sub_0_r in Hj.
    destruct (Forall2_lookup_r _ _ _ _ _ Hall Hj) as (knj & Hknj & Hcj & Htj).
    split; [|split]; cbn [threads world received]; [|exact Hrr|].
    + exists (<[j := knj]> (<[tid := kn]> kns)).
      apply Forall2_insert; [apply Forall2_insert; [exact Hall|split; assumption]|].
      split; [apply Hcj|exact Htj].
    + intros Hz. apply Forall_app. split; [by apply Hrecv|]. constructor; [|constructor].
      assert (kn_ran kn = true \/ kn_ran kn = false) as [Hran|Hran]
        by (destruct (kn_ran kn); auto); [|by apply Hsend].
      destruct Htrue as (_ & _ & H3). specialize (H3 Hran). fold w in Hz. lia.
Qed.

Lemma careful_pool_exec sched : forall st,
  careful_pool st -> careful_pool (exec env spawn sched st).
Proof.
  induction sched as [|tid sched IH]; intros st H; [exact H|].
  apply IH, careful_pool_step, H.
Qed.

End CarefulPool.

(** ** Progress *)

Lemma within_mono {A} W (p : Prog A) : forall n m, n <= m -> within W n p -> within W m p.
Proof.
  induction p as [a|c|R c k IH|k IH|k IH|t k IH|tr k IH|k IH]; simpl; intros n m Hle; auto.
  - lia.
  - intros [H1 H2]. split; [lia|]. intros r. apply (IH r (n - 1)); [lia|auto].
  - intros [H1 H2]. split; [lia|]. apply (IH (n - 1)); [lia|auto].
  - intros [H1 H2]. split; [lia|]. intros r. apply (IH r (n - 1)); [lia|auto].
  - intros [H1 H2]. split; [lia|]. apply (IH (n - 1 - W)); [lia|auto].
  - intros [H1 H2]. split; [lia|]. apply (IH (n - 1)); [lia|auto].
  - intros [H1 H2]. split; [lia|]. intros r. apply (IH r (n - 1)); [lia|auto].
Qed.

Lemma within_bind {A B} W (p : Prog A) (f : A -> Prog B) : forall n m,
  within W n p -> (forall a, within W m (f a)) -> within W (n + m) (bind p f).
Proof.
  induction p as [a|c|R c k IH|k IH|k IH|t k IH|tr k IH|k IH]; simpl; intros n m Hp Hf.
  - apply (within_mono W _ m); [lia|auto].
  - lia.
  - destruct Hp as [H1 H2]. split; [lia|]. intros r.
    replace (n + m - 1) with (n - 1 + m) by lia. apply IH; auto.
  - destruct Hp as [H1 H2]. split; [lia|].
    replace (n + m - 1) with (n - 1 + m) by lia. apply IH; auto.
  - destruct Hp as [H1 H2]. split; [lia|]. intros r.
    replace (n + m - 1) with (n - 1 + m) by lia. apply IH; auto.
  - destruct Hp as [H1 H2]. split; [lia|].
    replace (n + m - 1 - W) with (n - 1 - W + m) by lia. apply IH; auto.
  - destruct Hp as [H1 H2]. split; [lia|].
    replace (n + m - 1) with (n - 1 + m) by lia. apply IH; auto.
  - destruct Hp as [H1 H2]. split; [lia|]. intros r.
    replace (n + m - 1) with (n - 1 + m) by lia. apply IH; auto.
Qed.

Lemma within_call {R} W (c : Call R) : within W 1 (call c).
Proof. simpl. split; [lia|auto]. Qed.

(** [within] for a bind whose bound is given as a sum. *)
Lemma within_bind_le {A B} W (p : Prog A) (f : A -> Prog B) n m k :
  within W n p -> (forall a, within W m (f a)) -> n + m <= k -> within W k (bind p f).
Proof. intros Hp Hf Hle. apply (within_mono W _ (n + m)); [exact Hle|by apply within_bind]. Qed.

Ltac within_step :=
  match goal with
  | |- within _ _ (Ret _) => exact I
  | |- within _ _ (Exit _) => cbn [within]; lia
  | |- within _ _ (Ext _ _) => cbn [within]; split; [lia|intros]
  | |- within _ _ (OnceDo _) => cbn [within]; split; [lia|]
  | |- within _ _ (ArcRead _) => cbn [within]; split; [lia|intros]
  | |- within _ _ (Go _ _) => cbn [within]; split; [lia|]
  | |- within _ _ (Send _ _) => cbn [within]; split; [lia|]
  | |- within _ _ (Recv _) => cbn [within]; split; [lia|intros]
  | |- within _ _ (if ?b then _ else _) => destruct b
  | |- within _ _ (match ?x with _ => _ end) => destruct x
  | |- within _ _ (let (_, _) := ?x in _) => destruct x
  | |- within _ _ (bind (call _) _) => cbn [bind call]
  | |- within _ _ (bind (Ret _) _) => cbn [bind]
  | |- within _ _ (bind (Ext _ _) _) => cbn [bind]
  | |- within _ _ (mbind _ _) => unfold mbind, Prog_bind
  | |- within _ _ (call _) => unfold call
  | |- _ < _ /\ _ => split; [lia|intros]
  | |- True => exact I
  | |- _ < _ => lia
  end.

Section Bounds.
Variable ToUpper : string -> string.
Variable fl : Flags.
Variable W : nat.

Lemma getComputeClient_try_within fuel : forall i err,
  within W (3 * fuel) (getComputeClient_try fuel i err).
Proof.
  induction fuel as [|fuel IH]; intros i err; [exact I|].
  cbn [getComputeClient_try]. unfold mbind, Prog_bind.
  apply (within_bind_le W _ _ 1 (2 + 3 * fuel)); [| |lia].
  - destruct (0 <? i); [apply within_call|exact I].
  - intros _. repeat within_step;
      (eapply within_mono; [|apply IH]; lia).
Qed.

Lemma createInstance_attempt_within name i :
  within W 5 (createInstance_attempt ToUpper fl name i).
Proof.
  unfold createInstance_attempt, mbind, Prog_bind.
  apply (within_bind_le W _ _ 1 4); [| |lia].
  - destruct (0 <? i); [apply within_call|exact I].
  - intros _. cbn [bind call]. within_step. destruct r as [inst [e|]]; [exact I|].
    destruct (negb _); [exact I|].
    apply (within_bind_le W _ _ 1 2); [| |lia].
    + destruct (0 <? _); [apply within_call|exact I].
    + intros _. repeat within_step.
Qed.

Lemma createInstance_poll_within name fuel : forall i b err,
  within W (5 * fuel) (createInstance_poll ToUpper fl name fuel i b err).
Proof.
  induction fuel as [|fuel IH]; intros i b err; [exact I|].
  cbn [createInstance_poll]. destruct b; [exact I|]. unfold mbind, Prog_bind.
  apply (within_bind_le W _ _ 5 (5 * fuel)); [apply createInstance_attempt_within| |lia].
  intros [b e]. apply IH.
Qed.

Lemma parseInstanceMetadata_within ss : forall md,
  within W (2 * length ss) (parseInstanceMetadata_entries ss md).
Proof.
  induction ss as [|s ss IH]; intros md; [exact I|].
  cbn [parseInstanceMetadata_entries length].
  assert (forall md', within W (2 * S (length ss)) (parseInstanceMetadata_entries ss md')) as IH1.
  { intros md'. eapply within_mono; [|apply IH]. lia. }
  assert (forall md', within W (2 * S (length ss) - 1) (parseInstanceMetadata_entries ss md'))
    as IH2.
  { intros md'. eapply within_mono; [|apply IH]. lia. }
  assert (forall md', within W (2 * S (length ss) - 1 - 1) (parseInstanceMetadata_entries ss md'))
    as IH3.
  { intros md'. eapply within_mono; [|apply IH]. lia. }
  repeat first [apply IH1 | apply IH2 | apply IH3 | within_step].
Qed.

Lemma createInstance_within image imageProject :
  within W (2 * length (Split (instanceMetadata fl) ",") + 151)
    (createInstance ToUpper fl image imageProject).
Proof.
  unfold createInstance. unfold mbind at 1, Prog_bind at 1.
  apply (within_bind_le W _ _ (2 * length (Split (instanceMetadata fl) ",")) 151); [| |lia].
  - destruct (negb _); [|exact I]. unfold mbind, Prog_bind, parseInstanceMetadata.
    apply (within_bind_le W _ _ (2 * length (Split (instanceMetadata fl) ",")) 0);
      [apply parseInstanceMetadata_within| |lia].
    intros raw. exact I.
  - intros i. unfold mbind, Prog_bind. cbn [bind call]. within_step.
    destruct r as [op [e|]]; [exact I|]. destruct (op_Error op); [exact I|].
    apply (within_bind_le W _ _ 150 0); [apply (createInstance_poll_within _ 30)| |lia].
    intros e. exact I.
Qed.

Lemma testHost_within host deleteFiles n sn :
  within W 5 (testHost ToUpper fl host deleteFiles n sn).
Proof.
  unfold testHost, getArchive, mbind, Prog_bind. cbn [bind call]. within_step.
  destruct r as [inst [e|]]; [exact I|]. destruct (negb _); [exact I|].
  apply (within_bind_le W _ _ 1 3); [| |lia].
  - destruct (0 <? _); [apply within_call|exact I].
  - intros _. cbn [bind]. repeat within_step.
Qed.

Lemma deleteInstance_within image : within W 2 (deleteInstance fl image).
Proof. unfold deleteInstance, mbind, Prog_bind. repeat within_step. Qed.

Lemma testImage_within image imageProject n :
  within W (2 * length (Split (instanceMetadata fl) ",") + 158)
    (testImage ToUpper fl image imageProject n).
Proof.
  unfold testImage, defer, mbind, Prog_bind.
  apply (within_bind_le W _ _ (2 * length (Split (instanceMetadata fl) ",") + 151) 7);
    [apply createInstance_within| |lia].
  intros [host e].
  apply (within_bind_le W _ _ 5 2); [| |lia].
  - destruct e; [exact I|apply testHost_within].
  - intros tr. apply (within_bind_le W _ _ 2 0); [| |lia].
    + destruct (deleteInstances fl); [apply deleteInstance_within|exact I].
    + intros _. exact I.
Qed.

Lemma task_body_within t : within W (target_steps fl) (task_body ToUpper fl t).
Proof.
  unfold target_steps. destruct t; cbn [task_body]; unfold mbind, Prog_bind.
  - unfold getArchive. cbn [bind]. repeat within_step.
  - apply (within_bind_le W _ _ (2 * length (Split (instanceMetadata fl) ",") + 158) 1);
      [apply testImage_within| |lia].
    intros tr. repeat within_step.
  - apply (within_bind_le W _ _ 5 1); [apply testHost_within| |lia].
    intros tr. repeat within_step.
Qed.

Lemma main_images_within images : forall r,
  within W ((2 + W) * length images) (main_images images r).
Proof.
  induction images as [|[s i] images IH]; intros r; [exact I|].
  cbn [main_images length]. unfold mbind, Prog_bind. cbn [bind call].
  within_step. within_step. eapply within_mono; [|apply IH]. lia.
Qed.

Lemma main_hosts_within hs : forall r,
  within W ((2 + W) * length hs) (main_hosts hs r).
Proof.
  induction hs as [|h hs IH]; intros r; [exact I|].
  cbn [main_hosts length]. unfold mbind, Prog_bind. cbn [bind call].
  within_step. within_step. eapply within_mono; [|apply IH]. lia.
Qed.

Lemma main_collect_within n : forall ec b, within W (4 * n) (main_collect fl n ec b).
Proof.
  induction n as [|n IH]; intros ec b; [exact I|].
  cbn [main_collect]. unfold mbind, Prog_bind. cbn [bind call].
  within_step. within_step.
  destruct (err tr); cbn [bind call]; within_step; within_step;
    (eapply within_mono; [|apply IH]; lia).
Qed.

End Bounds.

Lemma within_bind_ret {A B} W (P : A -> Prop) (p : Prog A) (f : A -> Prog B) : forall n m k,
  within W n p -> returns P p -> (forall a, P a -> within W m (f a)) -> n + m <= k ->
  within W k (bind p f).
Proof.
  induction p as [a|c|R c k0 IH|k0 IH|k0 IH|t k0 IH|tr k0 IH|k0 IH]; simpl;
    intros n m k Hp Hr Hf Hle.
  - apply (within_mono W _ m); [lia|auto].
  - lia.
  - destruct Hp as [H1 H2]. split; [lia|]. intros r. apply (IH r (n - 1) m); auto. lia.
  - destruct Hp as [H1 H2]. split; [lia|]. apply (IH (n - 1) m); auto. lia.
  - destruct Hp as [H1 H2]. split; [lia|]. intros r. apply (IH r (n - 1) m); auto. lia.
  - destruct Hp as [H1 H2]. split; [lia|]. apply (IH (n - 1 - W) m); auto. lia.
  - destruct Hp as [H1 H2]. split; [lia|]. apply (IH (n - 1) m); auto. lia.
  - destruct Hp as [H1 H2]. split; [lia|]. intros r. apply (IH r (n - 1) m); auto. lia.
Qed.

Lemma returns_weaken {A} (P Q : A -> Prop) (p : Prog A) :
  (forall a, P a -> Q a) -> returns P p -> returns Q p.
Proof. intros HPQ. induction p; simpl; auto. Qed.

Lemma returns_bind {A B} (P : A -> Prop) (Q : B -> Prop) (p : Prog A) (f : A -> Prog B) :
  returns P p -> (forall a, P a -> returns Q (f a)) -> returns Q (bind p f).
Proof. intros Hp Hf. induction p; simpl in *; auto. Qed.

Lemma main_images_running images : forall r,
  returns (fun a => a = r + length images) (main_images images r).
Proof.
  induction images as [|[s i] images IH]; intros r; simpl; [lia|].
  intros _. eapply returns_weaken; [|apply IH]. simpl. intros a ->. lia.
Qed.

Lemma main_hosts_running hs : forall r,
  returns (fun a => a = r + length hs) (main_hosts hs r).
Proof.
  induction hs as [|h hs IH]; intros r; simpl; [lia|].
  intros _. eapply returns_weaken; [|apply IH]. simpl. intros a ->. lia.
Qed.

Section ProcessBound.
Variable fl : Flags.
Variable images : list (string * GCEImage).

Lemma process_within :
  within (target_steps fl) (step_budget fl images) (process fl images).
Proof.
  set (W := target_steps fl). set (K := targets fl images).
  assert (step_budget fl images = (K + 1) * (W + 6) + 40) as -> by reflexivity.
  unfold process, main, mbind, Prog_bind. cbn [bind within].
  split; [lia|].
  apply (within_bind_le W _ _ (K * (W + 6) + 38) 1); [|intros; cbn [within]; lia|lia].
  unfold defer, mbind, Prog_bind.
  apply (within_bind_le W _ _ (K * (W + 6) + 35) 3); [| |lia].
  2: { intros a. apply (within_bind_le W _ _ 3 0); [|intros; exact I|lia].
       unfold deleteArchive, getArchive, mbind, Prog_bind. cbn [bind]. repeat within_step. }
  apply (within_bind_le W _ _ 30 (K * (W + 6) + 5));
    [apply (getComputeClient_try_within W 10)| |lia].
  intros [cs [e|]].
  - unfold glog_Fatalf, mbind, Prog_bind. cbn [bind call]. repeat within_step.
  - apply (within_bind_ret W (fun a => a = 0 + length images) _ _
             ((2 + W) * length images) ((2 + W) * length (host_list fl) + 4 * K + 2));
      [apply main_images_within|apply main_images_running| |unfold K, targets; lia].
    intros r1 ->.
    apply (within_bind_ret W (fun a => a = K) _ _
             ((2 + W) * length (host_list fl)) (4 * K + 2)); [| | |lia].
    + unfold host_list. destruct (negb _) eqn:E.
      * apply negb_true_iff in E. rewrite E. apply main_hosts_within.
      * exact I.
    + unfold K, targets, host_list. destruct (negb _) eqn:E.
      * apply negb_true_iff in E. rewrite E.
        eapply returns_weaken; [|apply main_hosts_running]. simpl. intros a ->. reflexivity.
      * apply negb_false_iff in E. rewrite E. simpl. lia.
    + intros r2 ->.
      apply (within_bind_le W _ _ (4 * K) 2); [apply main_collect_within| |lia].
      intros [ec b]. destruct (negb b); [cbn [bind call]|]; repeat within_step.
Qed.

End ProcessBound.

Lemma sum_list_insert (ns : list nat) : forall i n n',
  ns !! i = Some n -> sum_list (<[i := n']> ns) + n = sum_list ns + n'.
Proof.
  induction ns as [|x ns IH]; intros i n n' H; [discriminate|].
  destruct i as [|i]; simpl in *.
  - injection H as ->. lia.
  - specialize (IH i n n' H). lia.
Qed.

Section Measure.
Variable env : Env.
Context {A : Type}.
Variable spawn : Task -> Prog A.
Variable W : nat.
Hypothesis spawn_within : forall t, within W W (spawn t).

Lemma measured_step st tid m :
  measured W m st -> enabled st tid = true ->
  0 < m /\ (exited (step env spawn st tid) <> None \/ measured W (m - 1) (step env spawn st tid)).
Proof.
  intros (ns & Hall & Hsum). unfold enabled, step.
  destruct (exited st) as [c|]; [discriminate|].
  destruct (threads st !! tid) as [p|] eqn:Hp; [|discriminate].
  destruct (Forall2_lookup_r _ _ _ _ _ Hall Hp) as (n & Hn & Hw).
  pose proof (sum_list_insert ns tid n 0 Hn) as Hle.
  destruct p as [a|c|R c k|k|k|t k|tr k|k]; try discriminate; intros Hen; cbn [within] in Hw.
  - split; [lia|]. left. discriminate.
  - destruct Hw as [Hpos Hk]. split; [lia|]. right.
    exists (<[tid := n - 1]> ns). split; [apply Forall2_insert; auto|].
    pose proof (sum_list_insert ns tid n (n - 1) Hn). simpl. lia.
  - destruct Hw as [Hpos Hk]. split; [lia|]. right.
    exists (<[tid := n - 1]> ns). split; [apply Forall2_insert; auto|].
    pose proof (sum_list_insert ns tid n (n - 1) Hn). simpl. lia.
  - destruct Hw as [Hpos Hk]. split; [lia|]. right.
    exists (<[tid := n - 1]> ns). split; [apply Forall2_insert; auto|].
    pose proof (sum_list_insert ns tid n (n - 1) Hn). simpl. lia.
  - destruct Hw as [Hpos Hk]. split; [lia|]. right.
    exists (<[tid := n - 1 - W]> ns ++ [W]). split.
    + apply Forall2_app; [apply Forall2_insert; auto|]. constructor; [apply spawn_within|constructor].
    + pose proof (sum_list_insert ns tid n (n - 1 - W) Hn). rewrite sum_list_with_app. simpl. lia.
  - destruct Hw as [Hpos Hk].
    destruct (find_receiver (threads st) 0) as [[j kr]|] eqn:Hfind; [|discriminate].
    split; [lia|]. right.
    apply find_receiver_lookup in Hfind as [_ Hj]. rewrite Nat.sub_0_r in Hj.
    destruct (Forall2_lookup_r _ _ _ _ _ Hall Hj) as (nj & Hnj & Hwj).
    cbn [within] in Hwj. destruct Hwj as [Hposj Hkj].
    assert (j <> tid) as Hne by (intros ->; congruence).
    exists (<[j := nj - 1]> (<[tid := n - 1]> ns)). split.
    + apply Forall2_insert; [apply Forall2_insert; auto|]. apply Hkj.
    + assert (<[tid := n - 1]> ns !! j = Some nj) as Hnj'.
      { rewrite list_lookup_insert_ne; [exact Hnj|congruence]. }
      pose proof (sum_list_insert ns tid n (n - 1) Hn).
      pose proof (sum_list_insert _ j nj (nj - 1) Hnj'). simpl. lia.
Qed.

End Measure.

Section Bounded.
Variable env : Env.
Context {A : Type}.
Variable spawn : Task -> Prog A.
Variable W : nat.
Hypothesis spawn_within : forall t, within W W (spawn t).

Lemma productive_bounded sched : forall st m,
  measured W m st -> productive env spawn sched st = true -> length sched <= m.
Proof.
  induction sched as [|tid sched IH]; intros st m Hm Hp; simpl in *; [lia|].
  apply andb_prop in Hp as [Hen Hp].
  destruct (measured_step env spawn W spawn_within st tid m Hm Hen) as [Hpos [Hex|Hm']].
  - destruct sched as [|tid' sched]; simpl in *; [lia|].
    apply andb_prop in Hp as [Hen' _]. unfold enabled in Hen'.
    destruct (exited (step env spawn st tid)); [discriminate|congruence].
  - specialize (IH _ _ Hm' Hp). lia.
Qed.

End Bounded.

Lemma owes_weaken {A} (p : Prog A) (Q Q' : A -> nat -> Prop) :
  (forall a d, Q a d -> Q' a d) -> forall d, owes p d Q -> owes p d Q'.
Proof.
  intros HQ. induction p as [a|c|R c k IH|k IH|k IH|t k IH|tr k IH|k IH]; simpl; intros d; auto.
  intros [Hd Hk]. split; auto.
Qed.

Lemma owes_bind {A B} (p : Prog A) (f : A -> Prog B) (Q : A -> nat -> Prop) (Q' : B -> nat -> Prop) :
  (forall a d, Q a d -> owes (f a) d Q') -> forall d, owes p d Q -> owes (bind p f) d Q'.
Proof.
  intros Hf. induction p as [a|c|R c k IH|k IH|k IH|t k IH|tr k IH|k IH]; simpl; intros d; auto.
  intros [Hd Hk]. split; auto.
Qed.

Lemma owes_local {A} (p : Prog A) d : local p -> owes p d (fun _ d' => d' = d).
Proof.
  induction p as [a|c|R c k IH|k IH|k IH|t k IH|tr k IH|k IH]; simpl; auto; contradiction.
Qed.

Lemma sender_bind {A B} (p : Prog A) (f : A -> Prog B) :
  local p -> (forall a, sender (f a)) -> sender (bind p f).
Proof.
  induction p as [a|c|R c k IH|k IH|k IH|t k IH|tr k IH|k IH]; simpl; auto; contradiction.
Qed.

Lemma owed_insert (flags : list bool) : forall i,
  flags !! i = Some true ->
  0 < length (List.filter id flags) /\
  length (List.filter id (<[i := false]> flags)) = length (List.filter id flags) - 1.
Proof.
  induction flags as [|b flags IH]; intros i H; [discriminate|].
  destruct i as [|i]; simpl in *.
  - injection H as ->. simpl. lia.
  - destruct (IH i H) as [Hpos Heq]. destruct b; simpl; lia.
Qed.

Lemma owed_lookup (flags : list bool) :
  0 < length (List.filter id flags) -> exists i, flags !! i = Some true.
Proof.
  induction flags as [|b flags IH]; simpl; [lia|].
  destruct b; simpl; intros H.
  - exists 0. reflexivity.
  - destruct (IH H) as [i Hi]. exists (S i). exact Hi.
Qed.

Lemma no_receiver {A} (flags : list bool) (rest : list (Prog A)) :
  Forall2 (fun (b : bool) p => if b then sender p else local p) flags rest ->
  forall i, find_receiver rest i = None.
Proof.
  induction 1 as [|b p flags rest Hp _ IH]; intros i; simpl; [reflexivity|].
  destruct p; try apply IH. destruct b; contradiction.
Qed.

Section Balance.
Variable env : Env.
Context {A : Type}.
Variable spawn : Task -> Prog A.
Hypothesis spawn_flag : forall t, if sends t then sender (spawn t) else local (spawn t).

Lemma balanced_boot (p : Prog A) fs :
  owes p 0 (fun _ _ => False) -> balanced (boot p fs).
Proof. intros H. exists p, [], []. repeat split; [constructor|exact H]. Qed.

Lemma balanced_step st tid : balanced st -> balanced (step env spawn st tid).
Proof.
  intros Hb. pose proof Hb as (p0 & rest & flags & Hts & Hfl & Howes).
  unfold step. destruct (exited st); [exact Hb|]. rewrite Hts.
  destruct tid as [|tid]; simpl.
  - destruct p0 as [a|c|R c k|k|k|t k|tr k|k]; simpl in Howes; try exact Hb; try contradiction.
    + exists (Exit c), rest, flags. repeat split; auto.
    + eexists _, rest, flags. repeat split; [exact Hfl|apply Howes].
    + eexists _, rest, flags. repeat split; [exact Hfl|apply Howes].
    + eexists _, rest, flags. repeat split; [exact Hfl|apply Howes].
    + exists k, (rest ++ [spawn t]), (flags ++ [sends t]). repeat split.
      * apply Forall2_app; [exact Hfl|]. constructor; [apply spawn_flag|constructor].
      * rewrite List.filter_app, length_app. simpl. destruct (sends t); exact Howes.
  - destruct (rest !! tid) as [p|] eqn:Hp; [|exact Hb].
    destruct (Forall2_lookup_r _ _ _ _ _ Hfl Hp) as (b & Hbi & Hbp).
    assert (forall q, (if b then sender q else local q) ->
              Forall2 (fun (b : bool) p => if b then sender p else local p) flags (<[tid := q]> rest))
      as Hkeep.
    { intros q Hq. rewrite <- (list_insert_id flags tid b Hbi). apply Forall2_insert; assumption. }
    destruct p as [a|c|R c k|k|k|t k|tr k|k]; try exact Hb.
    + destruct b; contradiction.
    + eexists p0, _, flags. repeat split; [|exact Howes]. apply Hkeep. destruct b; apply Hbp.
    + eexists p0, _, flags. repeat split; [|exact Howes]. apply Hkeep. destruct b; apply Hbp.
    + eexists p0, _, flags. repeat split; [|exact Howes]. apply Hkeep. destruct b; apply Hbp.
    + destruct b; contradiction.
    + destruct b; [|contradiction]. simpl in Hbp.
      destruct p0 as [a|c|R c k0|k0|k0|t k0|tr0 k0|k0]; simpl;
        rewrite ?(no_receiver flags rest Hfl); try exact Hb.
      destruct (owed_insert flags tid Hbi) as [Hpos Hlen].
      simpl in Howes. destruct Howes as [_ Hk0].
      exists (k0 tr), (<[tid := k]> rest), (<[tid := false]> flags). repeat split.
      * apply Forall2_insert; assumption.
      * rewrite Hlen. apply Hk0.
Qed.

Lemma balanced_exec sched : forall st, balanced st -> balanced (exec env spawn sched st).
Proof.
  induction sched as [|tid sched IH]; intros st H; [exact H|].
  apply IH, balanced_step, H.
Qed.

(** A pool of [main] in which the process has not ended has a goroutine
    that can move: no deadlock. *)
Lemma balanced_enabled (st : Pool A) :
  balanced st -> exited st = None -> exists tid, enabled st tid = true.
Proof.
  intros (p0 & rest & flags & Hts & Hfl & Howes) Hex.
  unfold enabled. rewrite Hex, Hts.
  destruct p0 as [a|c|R c k|k|k|t k|tr k|k]; simpl in Howes; try contradiction;
    try (exists 0; reflexivity).
  destruct Howes as [Hpos _]. destruct (owed_lookup flags Hpos) as [i Hi].
  destruct (Forall2_lookup_l _ _ _ _ _ Hfl Hi) as (p & Hp & Hs).
  exists (S i). simpl. rewrite Hp.
  destruct p; simpl in Hs; try contradiction; reflexivity.
Qed.

End Balance.

Section ProcessBalance.
Variable ToUpper : string -> string.
Variable fl : Flags.

Lemma task_body_flag t :
  if sends t then sender (task_body ToUpper fl t) else local (task_body ToUpper fl t).
Proof.
  destruct t as [|image imageProject n|host n]; cbn [task_body sends]; unfold mbind, Prog_bind.
  - apply local_bind; [apply getArchive_local|]. intros; exact I.
  - apply sender_bind; [apply testImage_local|]. intros; exact I.
  - apply sender_bind; [apply testHost_local|]. intros; exact I.
Qed.

Lemma main_images_owes images : forall running d,
  running <= d -> owes (main_images images running) d (fun r d' => r <= d').
Proof.
  induction images as [|[s i] images IH]; intros running d H; simpl; [exact H|].
  intros _. apply IH. lia.
Qed.

Lemma main_hosts_owes hs : forall running d,
  running <= d -> owes (main_hosts hs running) d (fun r d' => r <= d').
Proof.
  induction hs as [|h hs IH]; intros running d H; simpl; [exact H|].
  intros _. apply IH. lia.
Qed.

Lemma main_collect_owes fuel : forall d e b,
  fuel <= d -> owes (main_collect fl fuel e b) d (fun _ _ => True).
Proof.
  induction fuel as [|fuel IH]; intros d e b H; simpl; [exact I|].
  split; [lia|]. intros tr _. destruct (err tr); simpl; intros _ _; apply IH; lia.
Qed.

Lemma process_owes images : owes (process fl images) 0 (fun _ _ => False).
Proof.
  unfold process, main, defer, mbind, Prog_bind.
  apply owes_bind with (Q := fun _ _ => True); [intros; exact I|].
  cbn [owes sends Nat.add].
  apply owes_bind with (Q := fun _ _ => True).
  { intros a d _. apply owes_bind with (Q := fun _ _ => True); [intros; exact I|].
    eapply owes_weaken; [|apply owes_local, deleteArchive_local]. auto. }
  apply owes_bind with (Q := fun _ d => d = 0).
  2: { apply owes_local. apply getComputeClient_try_local. }
  intros [cs e] d ->. destruct e as [e|].
  { simpl. auto. }
  apply owes_bind with (Q := fun r d => r <= d).
  2: { apply main_images_owes. lia. }
  intros r d Hr.
  apply owes_bind with (Q := fun r d => r <= d).
  2: { destruct (negb _); [apply main_hosts_owes; exact Hr|exact Hr]. }
  intros r' d' Hr'.
  apply owes_bind with (Q := fun _ _ => True).
  2: { apply main_collect_owes. exact Hr'. }
  intros [ec ok] d'' _. destruct (negb ok); simpl; auto.
Qed.

End ProcessBalance.

Lemma productive_app env {A} (spawn : Task -> Prog A) s1 : forall s2 st,
  productive env spawn (s1 ++ s2) st =
  productive env spawn s1 st && productive env spawn s2 (exec env spawn s1 st).
Proof.
  induction s1 as [|tid s1 IH]; intros s2 st; simpl; [reflexivity|].
  rewrite IH, andb_assoc. reflexivity.
Qed.

Section ProcessRuns.
Variable env : Env.
Variable ToUpper : string -> string.
Variable fl : Flags.
Variable images : list (string * GCEImage).
Variable fs : gset string.

Lemma process_measured :
  measured (target_steps fl) (step_budget fl images) (boot (process fl images) fs).
Proof.
  exists [step_budget fl images]. split.
  - constructor; [apply process_within|constructor].
  - simpl. unfold id. lia.
Qed.

(** A schedule of goroutines that can move is no longer than the budget. *)
Lemma process_runs_out sched :
  productive env (task_body ToUpper fl) sched (boot (process fl images) fs) = true ->
  length sched <= step_budget fl images.
Proof.
  apply (productive_bounded env (task_body ToUpper fl) (target_steps fl)).
  - intros t. apply task_body_within.
  - apply process_measured.
Qed.

(** Until the process ends, some goroutine can move. *)
Lemma process_never_stuck sched :
  exited (exec env (task_body ToUpper fl) sched (boot (process fl images) fs)) = None ->
  exists tid,
    enabled (exec env (task_body ToUpper fl) sched (boot (process fl images) fs)) tid = true.
Proof.
  apply balanced_enabled, balanced_exec.
  - apply task_body_flag.
  - apply balanced_boot, process_owes.
Qed.

(** Every schedule of goroutines that can move goes on to the end of the
    process. *)
Lemma process_reaches_exit sched :
  productive env (task_body ToUpper fl) sched (boot (process fl images) fs) = true ->
  exists more c,
    productive env (task_body ToUpper fl) (sched ++ more) (boot (process fl images) fs) = true /\
    exited (exec env (task_body ToUpper fl) (sched ++ more) (boot (process fl images) fs)) = Some c.
Proof.
  remember (step_budget fl images - length sched) as n eqn:Hn.
  revert sched Hn. induction n as [n IH] using lt_wf_ind. intros sched Hn Hp.
  destruct (exited (exec env (task_body ToUpper fl) sched (boot (process fl images) fs)))
    as [c|] eqn:Hex.
  - exists [], c. rewrite app_nil_r. split; assumption.
  - destruct (process_never_stuck sched Hex) as [tid Hen].
    assert (productive env (task_body ToUpper fl) (sched ++ [tid])
              (boot (process fl images) fs) = true) as Hp'.
    { rewrite productive_app, Hp. simpl. rewrite Hen. reflexivity. }
    pose proof (process_runs_out _ Hp') as Hlen. rewrite length_app in Hlen. simpl in Hlen.
    destruct (IH (step_budget fl images - length (sched ++ [tid]))) with (sched := sched ++ [tid])
      as (more & c & Hpm & Hem); [rewrite length_app; simpl; lia|reflexivity|exact Hp'|].
    exists (tid :: more), c. rewrite <- app_assoc in Hpm, Hem. split; assumption.
Qed.

End ProcessRuns.

Lemma forallb_not_run (l : list TestResult) :
  Forall not_run l -> forallb exitOk l = (length l =? 0).
Proof.
  destruct 1 as [|tr l [H _] _]; simpl; [reflexivity|]. rewrite H. reflexivity.
Qed.

Section Runs.
Variable env : Env.
Variable ToUpper : string -> string.
Variable fl : Flags.
Variable images : list (string * GCEImage).
Variable fs : gset string.

Lemma process_careful_pool sched :
  careful_pool (exec env (task_body ToUpper fl) sched (boot (process fl images) fs)).
Proof.
  apply careful_pool_exec.
  - intros t kn. apply task_body_careful.
  - apply careful_pool_boot. intros kn. apply process_careful.
Qed.

(** With an archive that could not be built no test is run, and every
    result that [main] has received is a failure. *)
Lemma process_build_error sched :
  Archive.err (arc (world (exec env (task_body ToUpper fl) sched
                             (boot (process fl images) fs)))) <> None ->
  count is_run_remote (trace (world (exec env (task_body ToUpper fl) sched
                                       (boot (process fl images) fs)))) = 0 /\
  Forall not_run (received (exec env (task_body ToUpper fl) sched
                              (boot (process fl images) fs))).
Proof.
  intros He. destruct (process_careful_pool sched) as (_ & Hran & Hnot).
  assert (count is_run_remote (trace (world (exec env (task_body ToUpper fl) sched
                                       (boot (process fl images) fs)))) = 0) as H0.
  { destruct (count is_run_remote _) as [|n]; [reflexivity|].
    destruct Hran as [_ Hnone]; [lia|]. contradiction. }
  split; [exact H0|apply Hnot, H0].
Qed.

(** How the process ends: without a compute client, with status 255 and
    before any result; with one, after a result of every target, with the
    status that the results ask for. *)
Lemma process_exit sched c :
  exited (exec env (task_body ToUpper fl) sched (boot (process fl images) fs)) = Some c ->
  (c = 255%Z /\
   received (exec env (task_body ToUpper fl) sched (boot (process fl images) fs)) = [] /\
   client_failed (trace (world (exec env (task_body ToUpper fl) sched
                                  (boot (process fl images) fs))))) \/
  (length (received (exec env (task_body ToUpper fl) sched (boot (process fl images) fs)))
   = targets fl images /\
   c = (if forallb exitOk (received (exec env (task_body ToUpper fl) sched
                                       (boot (process fl images) fs)))
        then 0%Z else 1%Z) /\
   client_made (trace (world (exec env (task_body ToUpper fl) sched
                                (boot (process fl images) fs))))).
Proof.
  intros Hc.
  destruct (process_collects env ToUpper fl images fs sched) as [_ Hcol].
  specialize (Hcol c Hc).
  pose proof (process_client env ToUpper fl images fs sched c Hc) as Hcl.
  cbv zeta in Hcol, Hcl.
  destruct Hcol as [[-> Hnil]|[Hlen Hst]].
  - left. destruct Hcl as [[_ Hf]|[Hne _]]; [auto|congruence].
  - right. destruct Hcl as [[-> Hf]|[_ Hm]]; [|auto].
    destruct (forallb exitOk _); discriminate.
Qed.

End Runs.

(** ** The receive loop *)


(** ** A failed construction of the archive *)

(** C8: a failed construction of the archive does not end the process.
    [testHost], once it has found the host RUNNING, returns the error of the
    archive as the result of its target, with exitOk false; no goroutine of
    a target ever exits the process.  When the process ends with an archive
    that could not be built, RunRemote was never called and every result
    received has an error and exitOk false; the process ends either with
    status 255 before any result, no compute client having been made, or,
    a client having been made, after one result per target with status 1
    (status 0 when there is no target).  Every schedule of goroutines that
    can move goes on to the end of the process. *)
Theorem a_build_error_fails_every_target_not_the_process (env : Env)
    (ToUpper : string -> string) (fl : Flags) (images : list (string * GCEImage))
    (fs : gset string) :
  (forall host deleteFiles n sn w e,
     let get := InstancesGet (project fl) (zone fl) host in
     let g := env _ (trace w) get in
     let w1 := record get g w in
     let ip := getExternalIp (fst g) in
     let w2 := if 0 <? String.length ip
               then record (AddHostnameIp host ip) (env _ (trace w1) (AddHostnameIp host ip)) w1
               else w1 in
     reports_running ToUpper g = true ->
     Archive.err (arc (once_do env w2)) = Some e ->
     run env (testHost ToUpper fl host deleteFiles n sn) w =
     (Returned {| output := ""; err := Some (ErrArchive e); host := ""; exitOk := false |},
      once_do env w2)) /\
  (forall t, quiet (task_body ToUpper fl t)) /\
  (forall sched c,
     exited (exec env (task_body ToUpper fl) sched (boot (process fl images) fs)) = Some c ->
     Archive.err (arc (world (exec env (task_body ToUpper fl) sched
                                (boot (process fl images) fs)))) <> None ->
     count is_run_remote (trace (world (exec env (task_body ToUpper fl) sched
                                          (boot (process fl images) fs)))) = 0 /\
     Forall not_run (received (exec env (task_body ToUpper fl) sched
                                 (boot (process fl images) fs))) /\
     ((c = 255%Z /\
       received (exec env (task_body ToUpper fl) sched (boot (process fl images) fs)) = [] /\
       client_failed (trace (world (exec env (task_body ToUpper fl) sched
                                      (boot (process fl images) fs))))) \/
      (length (received (exec env (task_body ToUpper fl) sched (boot (process fl images) fs)))
       = targets fl images /\
       c = (if targets fl images =? 0 then 0%Z else 1%Z) /\
       client_made (trace (world (exec env (task_body ToUpper fl) sched
                                    (boot (process fl images) fs))))))) /\
  (forall sched,
     productive env (task_body ToUpper fl) sched (boot (process fl images) fs) = true ->
     exists more c,
       productive env (task_body ToUpper fl) (sched ++ more) (boot (process fl images) fs)
       = true /\
       exited (exec env (task_body ToUpper fl) (sched ++ more) (boot (process fl images) fs))
       = Some c).
Proof.
  split; [|split; [|split]].
  - intros host deleteFiles n sn w e get g w1 ip w2 Hrun He.
    rewrite testHost_run. fold get g. cbv zeta. rewrite Hrun. fold w1 ip w2. rewrite He.
    reflexivity.
  - intros t. apply task_body_worker.
  - intros sched c Hc He.
    destruct (process_build_error env ToUpper fl images fs sched He) as [Hran Hnot].
    split; [exact Hran|]. split; [exact Hnot|].
    destruct (process_exit env ToUpper fl images fs sched c Hc) as [H|(Hlen & Hst & Hm)];
      [left; exact H|right].
    split; [exact Hlen|]. split; [|exact Hm].
    rewrite Hst, (forallb_not_run _ Hnot), Hlen. reflexivity.
  - intros sched Hp. apply process_reaches_exit, Hp.
Qed.

(** * The rest of run_e2e.go: proofs *)

(** ** getExternalIp *)

Lemma firstNatIP_filter acs :
  firstNatIP acs = head (List.filter nonempty (map NatIP acs)).
Proof.
  induction acs as [|ac acs IH]; [reflexivity|].
  simpl. unfold nonempty at 1. destruct (0 <? String.length (NatIP ac)); [reflexivity|exact IH].
Qed.

Lemma firstNatIP_nonempty acs ip : firstNatIP acs = Some ip -> nonempty ip = true.
Proof.
  induction acs as [|ac acs IH]; [discriminate|].
  simpl. destruct (0 <? String.length (NatIP ac)) eqn:E; [|exact IH].
  intros [= <-]. exact E.
Qed.

Lemma filter_app_list {X} (f : X -> bool) (l1 l2 : list X) :
  List.filter f (l1 ++ l2) = List.filter f l1 ++ List.filter f l2.
Proof. induction l1 as [|x l1 IH]; simpl; [reflexivity|]. destruct (f x); simpl; by rewrite IH. Qed.

Lemma getExternalIp_from_filter nis :
  getExternalIp_from nis
  = hd "" (List.filter nonempty (map NatIP (flat_map AccessConfigs nis))).
Proof.
  induction nis as [|ni nis IH]; [reflexivity|].
  simpl. rewrite map_app, filter_app_list, firstNatIP_filter.
  destruct (List.filter nonempty (map NatIP (AccessConfigs ni))); simpl; [exact IH|reflexivity].
Qed.

(** X1: [getExternalIp] returns the first NAT address that is not empty,
    going through the network interfaces in order and through the access
    configurations of each in order; it returns the empty string exactly
    when no access configuration has an address. *)
Theorem getExternalIp_is_the_first_address (instance : Instance) :
  getExternalIp instance = hd "" (List.filter nonempty (natIPs instance)) /\
  (getExternalIp instance = "" <-> Forall (fun ip => ip = "") (natIPs instance)) /\
  (getExternalIp instance <> "" ->
   exists before after,
     natIPs instance = before ++ getExternalIp instance :: after /\
     Forall (fun ip => ip = "") before).
Proof.
  unfold getExternalIp, natIPs. rewrite getExternalIp_from_filter.
  generalize (map NatIP (flat_map AccessConfigs (NetworkInterfaces instance))) as ips.
  intros ips. split; [reflexivity|].
  induction ips as [|ip ips [IH1 IH2]]; simpl.
  - split; [split; auto|]. intros H. by destruct H.
  - unfold nonempty at 1 3. destruct ip as [|c ip]; simpl.
    + split.
      * rewrite IH1. split; intros H; [by constructor|by inversion H].
      * intros H. destruct (IH2 H) as (b & a & E & F).
        exists ("" :: b), a. split; [by rewrite E at 1|by constructor].
    + split.
      * split; [discriminate|]. intros H. inversion H. discriminate.
      * intros _. exists [], ips. split; [reflexivity|constructor].
Qed.

(** ** getComputeClient *)

Section Client.
Variable env : Env.

Lemma getComputeClient_try_spec fuel : forall i err0 w,
  exists cs err new,
    run env (getComputeClient_try fuel i err0) w = (Returned (cs, err), logged new w) /\
    client_facts fuel i err0 cs err new.
Proof.
  induction fuel as [|fuel IH]; intros i err0 w.
  - exists None, err0, []. split; [by rewrite logged_nil|].
    split; simpl; auto; try lia; try discriminate.
    destruct (0 <? i); reflexivity.
  - cbn [getComputeClient_try]. unfold mbind, Prog_bind.
    rewrite run_bind.
    set (pre := if 0 <? i then [Called (Sleep backoff) (env _ (trace w) (Sleep backoff))] else []).
    assert (run env (if 0 <? i then call (Sleep backoff) else Ret tt) w
            = (Returned tt, logged pre w)) as ->.
    { subst pre. destruct (0 <? i).
      - rewrite run_call. by destruct (env _ (trace w) (Sleep backoff)).
      - simpl. by rewrite logged_nil. }
    rewrite run_bind, run_call.
    set (w1 := logged pre w).
    set (d := env _ (trace w1) DefaultClient).
    assert (record DefaultClient d w1 = logged (Called DefaultClient d :: pre) w) as ->.
    { reflexivity. }
    destruct d as [client [e|]] eqn:Ed.
    + (* DefaultClient failed *)
      destruct (IH (S i) (Some e) (logged (Called DefaultClient (client, Some e) :: pre) w))
        as (cs & err & new & Hrun & F).
      exists cs, err, (new ++ Called DefaultClient (client, Some e) :: pre).
      split; [cbn [fst snd]; rewrite Hrun, logged_app; reflexivity|].
      destruct F as [Fb Fn Fs Fk Fc Fz Fe Fx Fv].
      assert (count is_default_client pre = 0 /\ count is_compute_new pre = 0 /\
              count is_sleep pre = (if 0 <? i then 1 else 0) /\
              forallb (sleeps_for backoff) pre = true /\ forallb is_client_call pre = true /\
              existsb makes_service pre = false) as (P1 & P2 & P3 & P4 & P5 & P6).
      { subst pre. destruct (0 <? i); repeat split. }
      split.
      * rewrite count_app, count_cons; simpl. lia.
      * rewrite !count_app, !count_cons; simpl. lia.
      * rewrite !count_app, !count_cons, P1, P3; simpl. cbn [Nat.ltb Nat.leb orb] in Fs.
        destruct (0 <? i); simpl; lia.
      * rewrite forallb_app; simpl. by rewrite Fk, P4.
      * rewrite forallb_app; simpl. by rewrite Fc, P5.
      * discriminate.
      * intros _. destruct fuel as [|fuel'].
        -- destruct (Fz eq_refl) as (-> & -> & _). split; [discriminate|reflexivity].
        -- apply Fe. lia.
      * intros _ Hcs. destruct fuel as [|fuel'].
        -- destruct (Fz eq_refl) as (_ & -> & ->).
           rewrite count_app, count_cons, P1, existsb_app. simpl. rewrite P6.
           split; [reflexivity|]. split; [reflexivity|]. eauto.
        -- destruct (Fx ltac:(lia) Hcs) as (Hc & Hm & e0 & rest & Hnew & He).
           rewrite count_app, Hc, count_cons, P1, existsb_app, Hm. simpl. rewrite P6.
           subst new. split; [lia|]. split; [reflexivity|].
           exists e0, (rest ++ Called DefaultClient (client, Some e) :: pre). by split.
      * intros s Hs. destruct (Fv s Hs) as (c & rest & -> & Hm).
        exists c, (rest ++ Called DefaultClient (client, Some e) :: pre). split; [reflexivity|].
        rewrite existsb_app. simpl. by rewrite Hm, P6.
    + (* DefaultClient returned a client *)
      cbn [fst snd]. rewrite run_bind, run_call.
      set (w2 := logged (Called DefaultClient (client, None) :: pre) w).
      set (n := env _ (trace w2) (ComputeNew client)).
      assert (record (ComputeNew client) n w2
              = logged (Called (ComputeNew client) n :: Called DefaultClient (client, None) :: pre) w)
        as -> by reflexivity.
      assert (count is_default_client pre = 0 /\ count is_compute_new pre = 0 /\
              count is_sleep pre = (if 0 <? i then 1 else 0) /\
              forallb (sleeps_for backoff) pre = true /\ forallb is_client_call pre = true /\
              existsb makes_service pre = false) as (P1 & P2 & P3 & P4 & P5 & P6).
      { subst pre. destruct (0 <? i); repeat split. }
      destruct n as [s [e|]] eqn:En.
      * destruct (IH (S i) (Some e)
                    (logged (Called (ComputeNew client) (s, Some e)
                             :: Called DefaultClient (client, None) :: pre) w))
          as (cs & err & new & Hrun & F).
        exists cs, err, (new ++ Called (ComputeNew client) (s, Some e)
                             :: Called DefaultClient (client, None) :: pre).
        split; [cbn [fst snd]; rewrite Hrun, logged_app; reflexivity|].
        destruct F as [Fb Fn Fs Fk Fc Fz Fe Fx Fv].
        split.
        -- rewrite count_app, !count_cons; simpl. lia.
        -- rewrite !count_app, !count_cons; simpl. lia.
        -- rewrite !count_app, !count_cons, P1, P3; simpl. cbn [Nat.ltb Nat.leb orb] in Fs.
           destruct (0 <? i); simpl; lia.
        -- rewrite forallb_app; simpl. by rewrite Fk, P4.
        -- rewrite forallb_app; simpl. by rewrite Fc, P5.
        -- discriminate.
        -- intros _. destruct fuel as [|fuel'].
           ++ destruct (Fz eq_refl) as (-> & -> & _). split; [discriminate|reflexivity].
           ++ apply Fe. lia.
        -- intros _ Hcs. destruct fuel as [|fuel'].
           ++ destruct (Fz eq_refl) as (_ & -> & ->).
              rewrite count_app, !count_cons, P1, existsb_app. simpl. rewrite P6.
              split; [reflexivity|]. split; [reflexivity|]. eauto.
           ++ destruct (Fx ltac:(lia) Hcs) as (Hc & Hm & e0 & rest & Hnew & He).
              rewrite count_app, Hc, !count_cons, P1, existsb_app, Hm. simpl. rewrite P6.
              subst new. split; [lia|]. split; [reflexivity|].
              eexists e0, (rest ++ _ :: _ :: pre). by split.
        -- intros s' Hs. destruct (Fv s' Hs) as (c & rest & -> & Hm).
           eexists c, (rest ++ _ :: _ :: pre). split; [reflexivity|].
           rewrite existsb_app. simpl. by rewrite Hm, P6.
      * exists (Some s), None, (Called (ComputeNew client) (s, None)
                                 :: Called DefaultClient (client, None) :: pre).
        split; [reflexivity|].
        split.
        -- rewrite !count_cons; simpl. lia.
        -- rewrite !count_cons; simpl. lia.
        -- rewrite !count_cons, P1, P3; simpl. destruct (0 <? i); simpl; lia.
        -- simpl. exact P4.
        -- simpl. exact P5.
        -- discriminate.
        -- intros _. split; [discriminate|]. intros H. by destruct H.
        -- discriminate.
        -- intros s' [= <-]. exists client, pre. by split.
Qed.

End Client.

(** X2: [getComputeClient] always returns, after at least one and at most
    10 attempts; it pauses before every attempt but the first, always for 6
    seconds, and calls nothing but google.DefaultClient, compute.New and
    time.Sleep. *)
Theorem getComputeClient_retries_within_its_budget (env : Env) (w : World) :
  exists cs err new,
    run env getComputeClient w = (Returned (cs, err), logged new w) /\
    1 <= count is_default_client new <= retries /\
    count is_compute_new new <= count is_default_client new /\
    count is_sleep new + 1 = count is_default_client new /\
    forallb (sleeps_for 6) new = true /\
    forallb is_client_call new = true.
Proof.
  destruct (getComputeClient_try_spec env retries 0 None w) as (cs & err & new & Hrun & F).
  exists cs, err, new. split; [exact Hrun|].
  pose proof (clf_sleeps _ _ _ _ _ _ F) as Hs. simpl in Hs.
  pose proof (clf_budget _ _ _ _ _ _ F) as Hb.
  split; [lia|]. split; [apply F|]. split; [exact Hs|].
  split; [apply (clf_backoff _ _ _ _ _ _ F)|apply F].
Qed.

(** X3: [getComputeClient] returns a service or an error, never both and
    never neither.  A service is the one that the last call of compute.New
    made, from the client that google.DefaultClient had just returned, and
    no earlier attempt had made one.  An error is returned only after all
    10 attempts have failed, and is the error of the last call. *)
Theorem getComputeClient_returns_a_service_or_an_error (env : Env) (w : World) :
  exists cs err new,
    run env getComputeClient w = (Returned (cs, err), logged new w) /\
    (cs = None <-> err <> None) /\
    (forall s, cs = Some s ->
       exists client rest,
         new = Called (ComputeNew client) (s, None)
               :: Called DefaultClient (client, None) :: rest /\
         existsb makes_service rest = false) /\
    (cs = None ->
       count is_default_client new = retries /\
       existsb makes_service new = false /\
       exists e rest, new = e :: rest /\ client_error e = err).
Proof.
  destruct (getComputeClient_try_spec env retries 0 None w) as (cs & err & new & Hrun & F).
  exists cs, err, new. split; [exact Hrun|].
  split; [apply F; unfold retries; lia|].
  split; [apply F|].
  apply F. unfold retries; lia.
Qed.

(** ** parseInstanceMetadata *)

Lemma Split_free sep s : free_of sep s = true -> Split s sep = [s].
Proof.
  induction s as [|c s IH]; [reflexivity|].
  simpl. destruct (Ascii.eqb c sep); simpl; [discriminate|].
  intros H. by rewrite (IH H).
Qed.

Lemma Split_app sep a b :
  free_of sep a = true -> Split (a +:+ String sep b) sep = a :: Split b sep.
Proof.
  induction a as [|c a IH]; simpl.
  - intros _. by rewrite Ascii.eqb_refl.
  - destruct (Ascii.eqb c sep); simpl; [discriminate|].
    intros H. by rewrite (IH H).
Qed.

Lemma Split_Join sep ss :
  ss <> [] -> forallb (free_of sep) ss = true -> Split (Join ss sep) sep = ss.
Proof.
  induction ss as [|s ss IH]; [congruence|].
  intros _ H. simpl in H. apply andb_prop in H as [Hs Hss].
  destruct ss as [|s' ss].
  - simpl. by apply Split_free.
  - change (Join (s :: s' :: ss) sep) with (s +:+ String sep (Join (s' :: ss) sep)).
    rewrite Split_app by exact Hs. f_equal. apply IH; [discriminate|exact Hss].
Qed.

Lemma free_of_app c a b : free_of c (a +:+ b) = free_of c a && free_of c b.
Proof. induction a as [|x a IH]; simpl; [reflexivity|]. by rewrite IH, andb_assoc. Qed.

Lemma entry_text_free e : entry_ok e = true -> free_of "," (entry_text e) = true.
Proof.
  destruct e as [k v|k p]; simpl; rewrite free_of_app; simpl; intros H;
    repeat (apply andb_prop in H as [H ?]); by rewrite H, ?H0, ?H1, ?H2, ?H3.
Qed.

Section Metadata.
Variable env : Env.

Lemma parse_key_value k v ss m :
  free_of "=" k = true -> free_of "=" v = true ->
  parseInstanceMetadata_entries (entry_text (KeyValue k v) :: ss) m
  = parseInstanceMetadata_entries ss (map_set k v m).
Proof.
  intros Hk Hv. cbn [parseInstanceMetadata_entries entry_text].
  rewrite (Split_app "=" k v Hk), (Split_free "=" v Hv). reflexivity.
Qed.

Lemma parse_key_path k p ss m :
  free_of "=" k = true -> free_of "=" p = true ->
  free_of "<" k = true -> free_of "<" p = true ->
  parseInstanceMetadata_entries (entry_text (KeyPath k p) :: ss) m
  = ('(v, err) ← call (ReadFile p);
     match err with
     | Some e => call (Glog (MsgMetadataFile p e));; parseInstanceMetadata_entries ss m
     | None => parseInstanceMetadata_entries ss (map_set k v m)
     end).
Proof.
  intros Hk Hp Hk' Hp'. cbn [parseInstanceMetadata_entries entry_text].
  rewrite (Split_free "=" (k +:+ String "<" p)).
  2:{ rewrite free_of_app. simpl. by rewrite Hk, Hp. }
  rewrite (Split_app "<" k p Hk'), (Split_free "<" p Hp'). reflexivity.
Qed.

Lemma parse_entries_meaning es : forall m w,
  forallb entry_ok es = true ->
  run env (parseInstanceMetadata_entries (map entry_text es) m) w
  = (Returned (fst (metadata_of env es m w)), snd (metadata_of env es m w)).
Proof.
  induction es as [|e es IH]; intros m w H; [reflexivity|].
  simpl in H. apply andb_prop in H as [He Hes].
  destruct e as [k v|k p]; cbn [map].
  - simpl in He. repeat (apply andb_prop in He as [He ?]).
    rewrite parse_key_value by assumption. cbn [metadata_of]. by apply IH.
  - simpl in He. repeat (apply andb_prop in He as [He ?]).
    rewrite parse_key_path by assumption.
    unfold mbind, Prog_bind. rewrite run_bind, run_call. cbn [metadata_of].
    destruct (env _ (trace w) (ReadFile p)) as [v [e|]]; cbn [fst snd].
    + rewrite run_bind, run_call.
      match goal with |- context [env unit ?t ?c] => destruct (env unit t c) end.
      by apply IH.
    + by apply IH.
Qed.

End Metadata.

Lemma map_get_set k k' v m :
  map_get k (map_set k' v m) = if String.eqb k k' then Some v else map_get k m.
Proof.
  induction m as [|[k0 v0] m IH]; simpl.
  - reflexivity.
  - destruct (String.eqb_spec k' k0) as [->|Hne]; simpl.
    + destruct (String.eqb k k0); reflexivity.
    + rewrite IH. destruct (String.eqb_spec k k0) as [->|]; [|reflexivity].
      destruct (String.eqb_spec k0 k'); [congruence|reflexivity].
Qed.

Lemma map_set_keys k v m :
  map fst (map_set k v m) = if existsb (String.eqb k) (map fst m) then map fst m
                            else map fst m ++ [k].
Proof.
  induction m as [|[k0 v0] m IH]; simpl; [reflexivity|].
  destruct (String.eqb_spec k k0) as [->|Hne]; simpl; [reflexivity|].
  rewrite IH. destruct (existsb _ _); reflexivity.
Qed.

Lemma map_set_NoDup k v m : NoDup (map fst m) -> NoDup (map fst (map_set k v m)).
Proof.
  intros H. rewrite map_set_keys. destruct (existsb _ _) eqn:E; [exact H|].
  apply NoDup_app. split; [exact H|]. split; [|apply NoDup_singleton].
  intros x Hx ->%list_elem_of_singleton.
  assert (existsb (String.eqb k) (map fst m) = true); [|congruence].
  apply existsb_exists. exists k. split; [by apply list_elem_of_In|apply String.eqb_refl].
Qed.


Lemma map_get_snoc k l kv :
  map_get k (l ++ [kv])
  = match map_get k l with
    | Some v => Some v
    | None => if String.eqb k (fst kv) then Some (snd kv) else None
    end.
Proof.
  induction l as [|[k0 v0] l IH]; simpl.
  - by destruct kv.
  - destruct (String.eqb k k0); [reflexivity|exact IH].
Qed.

Lemma metadata_of_values env kvs : forall m w,
  metadata_of env (map (fun kv => KeyValue (fst kv) (snd kv)) kvs) m w
  = (fold_left (fun m kv => map_set (fst kv) (snd kv) m) kvs m, w).
Proof. induction kvs as [|kv kvs IH]; intros m w; simpl; [reflexivity|apply IH]. Qed.

Lemma fold_set_get k kvs : forall m,
  map_get k (fold_left (fun m kv => map_set (fst kv) (snd kv) m) kvs m)
  = match map_get k (rev kvs) with
    | Some v => Some v
    | None => map_get k m
    end.
Proof.
  induction kvs as [|kv kvs IH]; intros m; simpl; [reflexivity|].
  rewrite IH, map_get_snoc, map_get_set.
  destruct (map_get k (rev kvs)); [reflexivity|].
  destruct (String.eqb k (fst kv)); reflexivity.
Qed.

Lemma fold_set_NoDup kvs : forall m,
  NoDup (map fst m) ->
  NoDup (map fst (fold_left (fun m kv => map_set (fst kv) (snd kv) m) kvs m)).
Proof.
  induction kvs as [|kv kvs IH]; intros m H; simpl; [exact H|].
  apply IH. by apply map_set_NoDup.
Qed.

(** X4: a flag value written as the help text says, entries [k=v] and [k<p]
    joined by commas, is read back entry by entry: [k=v] stores [v] under
    [k], and [k<p] reads the file [p] and stores its contents under [k], or
    logs the failure and stores nothing if the file cannot be read.  This
    holds when keys, values and paths hold no comma and no equals sign, and
    the keys and paths of [k<p] entries no less-than sign. *)
Theorem parseInstanceMetadata_reads_back_the_flag (env : Env) (es : list MetadataEntry)
    (w : World) :
  es <> [] -> forallb entry_ok es = true ->
  run env (parseInstanceMetadata (metadata_flag es)) w
  = (Returned (fst (metadata_of env es [] w)), snd (metadata_of env es [] w)).
Proof.
  intros Hne Hok. unfold parseInstanceMetadata, metadata_flag.
  rewrite Split_Join.
  - by apply parse_entries_meaning.
  - destruct es; [congruence|discriminate].
  - rewrite forallb_forall in *. intros s [e [<- He]]%in_map_iff.
    apply entry_text_free. by apply Hok.
Qed.

Lemma parseInstanceMetadata_reads_back_two_entries :
  run env_pass (parseInstanceMetadata "k1=v1,k2<p2") (initial_world ∅)
  = (Returned [("k1", "v1"); ("k2", "")],
     {| trace := [Called (ReadFile "p2") ("", None)]; arc := initial_arc; files := ∅ |}).
Proof.
  exact (parseInstanceMetadata_reads_back_the_flag env_pass
           [KeyValue "k1" "v1"; KeyPath "k2" "p2"] (initial_world ∅)
           ltac:(discriminate) eq_refl).
Defined.

(** X5: when all the entries of the flag are of the form [k=v], without
    comma or equals sign in keys and values, [parseInstanceMetadata] makes
    no call at all and returns a map in which every key is bound once, to
    the value of its last entry. *)
Theorem parseInstanceMetadata_keeps_the_last_value (env : Env)
    (kvs : list (string * string)) (w : World) :
  kvs <> [] ->
  forallb (fun kv => entry_ok (KeyValue (fst kv) (snd kv))) kvs = true ->
  exists m,
    run env (parseInstanceMetadata
               (metadata_flag (map (fun kv => KeyValue (fst kv) (snd kv)) kvs))) w
    = (Returned m, w) /\
    NoDup (map fst m) /\
    forall k, map_get k m = map_get k (rev kvs).
Proof.
  intros Hne Hok.
  exists (fold_left (fun m kv => map_set (fst kv) (snd kv) m) kvs []).
  split; [|split].
  - unfold parseInstanceMetadata, metadata_flag. rewrite Split_Join.
    + rewrite parse_entries_meaning, metadata_of_values; [reflexivity|].
      rewrite forallb_forall in *. intros e [kv [<- Hkv]]%in_map_iff. by apply Hok.
    + destruct kvs; [congruence|discriminate].
    + rewrite map_map. rewrite forallb_forall in *.
      intros s [kv [<- Hkv]]%in_map_iff. apply entry_text_free. by apply Hok.
  - apply fold_set_NoDup. constructor.
  - intros k. rewrite fold_set_get. by destruct (map_get k (rev kvs)).
Qed.

Lemma parseInstanceMetadata_keeps_the_last_of_three :
  exists m,
    run env_pass (parseInstanceMetadata "a=1,b=2,a=3") (initial_world ∅)
    = (Returned m, initial_world ∅) /\
    NoDup (map fst m) /\
    forall k, map_get k m = map_get k [("a", "3"); ("b", "2"); ("a", "1")].
Proof.
  exact (parseInstanceMetadata_keeps_the_last_value env_pass
           [("a", "1"); ("b", "2"); ("a", "3")] (initial_world ∅)
           ltac:(discriminate) eq_refl).
Defined.

Section MetadataAny.
Variable env : Env.



End MetadataAny.


(** * Sample runs *)

(** Two fixed hosts, the tests pass on one and fail on the other: two
    results, exit status 1. *)
Example two_hosts_one_failing :
  exited two_hosts_run = Some 1%Z /\
  received two_hosts_run
  = [ {| output := "PASS"; err := None; host := "h1"; exitOk := true |};
      {| output := "FAIL"; err := None; host := "h2"; exitOk := false |} ].
Proof. vm_compute. split; reflexivity. Qed.

(** The archive of that run was built, the run exits with 1, and the
    artifact is never removed. *)
Lemma failed_run_keeps_the_archive :
  exited two_hosts_run = Some 1%Z /\
  arc (world two_hosts_run)
  = {| Archive.done := true; Archive.path := "/tmp/e2e_node_test.tar.gz";
       Archive.err := None |} /\
  count is_remove (trace (world two_hosts_run)) = 0 /\
  (Archive.done (arc (world two_hosts_run)) = true ->
   Archive.err (arc (world two_hosts_run)) = None ->
   Archive.path (arc (world two_hosts_run)) ∈ files (world two_hosts_run)).
Proof.
  split; [vm_compute; reflexivity|].
  split; [vm_compute; reflexivity|].
  apply (a_failed_run_leaves_the_archive_behind env_h2_fails upper (fl_hosts "h1,h2") []
           ∅ (round_robin 4 20) 1%Z).
  - vm_compute; reflexivity.
  - discriminate.
Defined.

(** Three goroutines making four calls of [getArchive] between them: one
    construction, seen by all four. *)
Example three_callers :
  build_results
    (trace (world (exec env_pass (fun _ => Ret []) [0; 1; 2; 1; 0; 2; 0; 0]
                     (callers_pool [2; 1; 1] ∅))))
  = [("/tmp/e2e_node_test.tar.gz", None)] /\
  threads (exec env_pass (fun _ => Ret []) [0; 1; 2; 1; 0; 2; 0; 0]
             (callers_pool [2; 1; 1] ∅))
  = [ Ret [("/tmp/e2e_node_test.tar.gz", None); ("/tmp/e2e_node_test.tar.gz", None)];
      Ret [("/tmp/e2e_node_test.tar.gz", None)];
      Ret [("/tmp/e2e_node_test.tar.gz", None)] ].
Proof. vm_compute. split; reflexivity. Qed.

(** An instance that stays in STAGING: 30 polls, 29 pauses, no probe, and
    the error of the last poll. *)
Example never_running_uses_up_the_budget :
  exists w,
    run env_never_running (createInstance upper (fl_hosts "") "img" "proj") (initial_world ∅)
    = (Returned ("tmp-node-e2e-0a1b2c3d-img",
                 Some (ErrNotRunning "tmp-node-e2e-0a1b2c3d-img" "STAGING")), w) /\
    count is_get (trace w) = 30 /\ count is_sleep (trace w) = 29 /\
    count is_probe (trace w) = 0.
Proof. eexists. vm_compute. repeat split. Qed.

Lemma third_poll_scenario_holds :
  third_poll_scenario env_third_poll upper (fl_hosts "") "img" (initial_world ∅).
Proof.
  repeat split.
  - intros tr H. simpl in H. unfold env_third_poll. simpl.
    destruct (Nat.ltb_spec (count is_get tr) 2); [reflexivity|lia].
  - intros tr H. simpl in H. unfold env_third_poll. simpl.
    destruct (Nat.ltb_spec (count is_get tr) 2); [lia|reflexivity].
Qed.

Lemma two_failed_probes_scenario :
  failed_probes_scenario env_two_probes_fail upper (fl_hosts "") "img" (initial_world ∅) 2.
Proof.
  repeat split.
  intros tr cmd args. unfold env_two_probes_fail. simpl.
  destruct (count is_probe tr) as [|[|c]]; reflexivity.
Qed.

(** The two scenarios of the polling budget.  RUNNING at the third poll
    and the probe passing at once: 3 polls, 1 probe, no error.  RUNNING at
    once, but docker answers only the third probe: 3 polls, 3 probes, of
    which one passes, no error. *)
Lemma two_probes_fail_before_the_third_passes :
  (third_poll_scenario env_third_poll upper (fl_hosts "") "img" (initial_world ∅) /\
   exists name err new,
     run env_third_poll (createInstance upper (fl_hosts "") "img" "proj") (initial_world ∅)
       = (Returned (name, err), logged new (initial_world ∅)) /\
     err = None /\ count is_get new = 3 /\ count is_probe new = 1) /\
  (failed_probes_scenario env_two_probes_fail upper (fl_hosts "") "img" (initial_world ∅) 2 /\
   exists name err new,
     run env_two_probes_fail (createInstance upper (fl_hosts "") "img" "proj") (initial_world ∅)
       = (Returned (name, err), logged new (initial_world ∅)) /\
     err = None /\ count is_get new = 3 /\ count is_probe new = 3 /\
     count is_passing_probe new = 1).
Proof.
  split.
  - split; [exact third_poll_scenario_holds|].
    destruct (failed_probes_draw_on_the_polling_budget env_third_poll upper (fl_hosts "")
                "img" "proj" (initial_world ∅))
      as (name & err & new & Hrun & _ & _ & _ & _ & _ & _ & Hs & _).
    exists name, err, new. split; [exact Hrun|]. exact (Hs third_poll_scenario_holds).
  - split; [exact two_failed_probes_scenario|].
    destruct (failed_probes_draw_on_the_polling_budget env_two_probes_fail upper (fl_hosts "")
                "img" "proj" (initial_world ∅))
      as (name & err & new & Hrun & _ & _ & _ & Hq & Hok & _ & _ & Hs).
    exists name, err, new. split; [exact Hrun|].
    destruct (Hs 2 two_failed_probes_scenario) as (He & Hg & Hp).
    split; [exact He|]. split; [exact Hg|]. split; [exact Hp|].
    destruct (Hok He) as [(e & rest & -> & Hpass) _].
    rewrite count_cons, Hpass in *. lia.
Defined.


(** A deletion that fails is logged; the result is the one of the tests. *)
Example failed_deletion_is_logged :
  exists w,
    run env_delete_fails (testImage upper (fl_hosts "") "img" "proj" 1) (initial_world ∅)
    = (Returned {| output := "PASS"; err := None; host := "tmp-node-e2e-0a1b2c3d-img";
                   exitOk := true |}, w) /\
    firstn 2 (trace w)
    = [ Called (Glog (MsgErrorDeleting "tmp-node-e2e-0a1b2c3d-img")) tt;
        Called (InstancesDelete "k8s-jkns" "us-central1-f" "tmp-node-e2e-0a1b2c3d-img")
          (Some (ErrExternal "rate limit exceeded")) ] /\
    count is_delete (trace w) = 1.
Proof. eexists. vm_compute. repeat split. Qed.

(** Tests that fail, and a host that cannot be reached. *)
Example failed_test_and_unreachable_host :
  fst (run env_h2_fails (testHost upper (fl_hosts "h2") "h2" true 1 false) (initial_world ∅))
  = Returned {| output := "FAIL"; err := None; host := "h2"; exitOk := false |} /\
  fst (run env_unreachable (testHost upper (fl_hosts "h1") "h1" true 1 false) (initial_world ∅))
  = Returned {| output := "";
                err := Some (ErrExternal "ssh: connect to host: no route to host");
                host := "h1"; exitOk := false |}.
Proof. vm_compute. split; reflexivity. Qed.

(** The archive cannot be built, and the run goes on: the host is looked up
    and registered, its goroutine sends a result carrying the build error,
    [main] prints it and exits with the status of a failed target. *)
Lemma build_error_is_reported_per_target :
  exited build_fails_run = Some 1%Z /\
  received build_fails_run
  = [ {| output := "";
         err := Some (ErrArchive (ErrExternal "failed to build go packages"));
         host := ""; exitOk := false |} ] /\
  trace (world build_fails_run)
  =   [ Called (Printf (MsgFailureCount 1)) tt;
        Called (Printf (MsgSeparator "" "")) tt;
        Called (Printf (MsgFailure "" "" (ErrArchive (ErrExternal "failed to build go packages")))) tt;
        Called (Printf (MsgSeparator "" "")) tt;
        Called (AddHostnameIp "h1" "203.0.113.7") tt;
        Called (InstancesGet "k8s-jkns" "us-central1-f" "h1")
          (instance_with_status "h1" "RUNNING", None);
        Called (Printf (MsgInitHost "h1")) tt;
        Called (ComputeNew (http_client 0)) (compute_service 0, None);
        Called DefaultClient (http_client 0, None);
        Called CreateTestArchive ("", Some (ErrExternal "failed to build go packages")) ].
Proof. vm_compute. repeat split. Qed.

(** [deleteArchive] on an archive that was never built: it is built, then
    removed. *)
Lemma deleteArchive_builds_and_removes :
  run env_pass deleteArchive (initial_world ∅)
  = (Returned tt,
     {| trace := [ Called (OsRemove "/tmp/e2e_node_test.tar.gz") tt;
                   Called CreateTestArchive ("/tmp/e2e_node_test.tar.gz", None) ];
        arc := {| Archive.done := true; Archive.path := "/tmp/e2e_node_test.tar.gz";
                  Archive.err := None |};
        files := ∅ |}).
Proof. vm_compute. reflexivity. Qed.

(** A host whose instance is not running: one look-up, and nothing else. *)
Example testHost_stops_at_a_stopped_instance :
  run env_never_running (testHost upper (fl_hosts "h1") "h1" true 1 false) (initial_world ∅)
  = (Returned {| output := ""; err := Some (ErrNotRunning "h1" "STAGING"); host := "h1";
                 exitOk := false |},
     {| trace := [ Called (InstancesGet "k8s-jkns" "us-central1-f" "h1")
                     (instance_with_status "h1" "STAGING", None) ];
        arc := initial_arc; files := ∅ |}).
Proof. vm_compute. reflexivity. Qed.


